(** * kz_bot2.py: the momentum rebalancing bot

    A shallow embedding of [src/kz_bot2.py] (classes [RiskManager],
    [MockMarket], [ExchangeClient], [DynamicMomentumBot]) and of the signing
    and balance request of [src/roostoo_client.py], with the properties of
    them that the specification states.

    Conventions of the embedding.
    - Numbers.  The cycle as a whole is embedded over exact rationals [Q]:
      the decimal literals of the source are the rationals they denote
      ([0.35] is [35/100]) and equalities between numbers are [==] ([Qeq]).
      That is the program without rounding, and it carries the properties
      of its structure: which stages run, in which order, what they log and
      what they leave alone.  [RiskManager.check], the cap of the
      rebalance loop and [MockMarket] are embedded a second time in module
      [Float64], over binary64 floats with their rounding, infinities and
      NaN: what is said of a threshold being crossed or not, or of the
      value of a return, is said there.
    - A Python [dict] is an association list in insertion order, because the
      source iterates over its dicts ([MockMarket.update] draws one random
      number per key, the rebalance loop places orders in key order).
    - A method is a computation in the monad [M S]: it threads the state of
      the object it mutates, appends to the log and either returns or raises.
      A mutation made before an exception is raised is kept, as in Python.
    - The collaborators that are not part of the program proper (the Horus
      and Roostoo HTTP clients, the [random] module) are parameters. *)

From Stdlib Require Import QArith Qabs Lqa Lia Arith List Ascii String Bool.
From Stdlib Require Import Sorted Permutation.
From Stdlib Require OrderedTypeEx Floats Zpower ZArith.
Import ListNotations.

Set Implicit Arguments.
Open Scope Q_scope.

(* ===================================================================== *)
(** ** Numbers *)

(** [x > y] on Python numbers is [Qltb y x]. *)
Definition Qltb (x y : Q) : bool := negb (Qle_bool y x).

(** Builtin [max(a, b)]: the first argument unless the second is larger. *)
Definition pymax (a b : Q) : Q := if Qltb a b then b else a.

(* ===================================================================== *)
(** ** Exceptions, log records and the method monad *)

(** The exceptions of the program, all of them subclasses of [Exception]
    (what [except Exception] catches). *)
Inductive exn : Type :=
| ZeroDivisionError
| KeyError (key : string)
| IndexError
| ValueError (msg : string)
| RequestError (msg : string).   (* whatever an HTTP client raises *)

(** [str(e)], the text an f-string puts for an exception: its message, and
    for a [KeyError] the key between quotes.  (The message of a
    [ZeroDivisionError] depends on the operands; none of its variants holds
    a brace.) *)
Definition str (e : exn) : string :=
  match e with
  | ZeroDivisionError => "float division by zero"
  | KeyError key => "'" ++ key ++ "'"
  | IndexError => "list index out of range"
  | ValueError msg => msg
  | RequestError msg => msg
  end.

Inductive result (A : Type) : Type :=
| Ok (a : A)
| Raise (e : exn).
Arguments Ok {A} a.
Arguments Raise {A} e.

Definition dict : Type := list (string * Q).

Inductive side : Type := buy | sell.

(** The three [logger.warning] calls of [RiskManager.check]. *)
Inductive risk_rule : Type :=
| MaxDrawdown      (* 风控触发：最大回撤超10% *)
| MaxPerAsset      (* 风控触发：单币暴露超35% *)
| DailyLoss.       (* 风控触发：当日亏损超4% *)

(** One record per [logger] call and per order handed to the venue. *)
Inductive event : Type :=
| RiskWarning (rule : risk_rule)
| HorusFailed (symbol : string) (e : exn)
| LogPrices (prices : dict)
| LogTotal (total_value usd : Q)
| LogRiskPause
| LogReturns (returns : dict)
| LogTargets (targets : dict)
| DryOrder (s : side) (quantity : Q) (symbol : string)
| LiveOrder (symbol : string) (s : side) (quantity : Q)
| OrderFailed (symbol : string) (e : exn)
| LogOrder (s : side) (quantity : Q) (symbol : string) (value : Q)
| StepError (e : exn).

Record outcome (S A : Type) : Type := Out {
  out_state : S;
  out_log : list event;
  out_res : result A
}.

Definition M (S A : Type) : Type := S -> outcome S A.

Definition ret {S A : Type} (a : A) : M S A :=
  fun s => Out s [] (Ok a).

Definition bind {S A B : Type} (m : M S A) (k : A -> M S B) : M S B :=
  fun s =>
    match m s with
    | Out s1 l1 (Ok a) =>
        match k a s1 with
        | Out s2 l2 r => Out s2 (l1 ++ l2) r
        end
    | Out s1 l1 (Raise e) => Out s1 l1 (Raise e)
    end.

(** [try: m except Exception as e: h e]. *)
Definition try_except {S A : Type} (m : M S A) (h : exn -> M S A) : M S A :=
  fun s =>
    match m s with
    | Out s1 l1 (Ok a) => Out s1 l1 (Ok a)
    | Out s1 l1 (Raise e) =>
        match h e s1 with
        | Out s2 l2 r => Out s2 (l1 ++ l2) r
        end
    end.

Definition get {S : Type} : M S S := fun s => Out s [] (Ok s).
Definition put {S : Type} (s : S) : M S unit := fun _ => Out s [] (Ok tt).
Definition logger {S : Type} (ev : event) : M S unit :=
  fun s => Out s [ev] (Ok tt).

Definition lift {S A : Type} (r : result A) : M S A :=
  fun s => Out s [] r.

(** Run a method of a component [T] stored inside the state [S]. *)
Definition zoom {S T A : Type} (proj : S -> T) (upd : T -> S -> S)
    (m : M T A) : M S A :=
  fun s =>
    match m (proj s) with
    | Out t l r => Out (upd t s) l r
    end.

Declare Scope monad_scope.
Delimit Scope monad_scope with monad.
Notation "x <- m ;; k" := (bind m (fun x => k))
  (at level 61, m at next level, right associativity) : monad_scope.
Notation "m ;; k" := (bind m (fun _ => k))
  (at level 61, right associativity) : monad_scope.
Open Scope monad_scope.

(** [x / y] on Python numbers. *)
Definition pydiv (x y : Q) : result Q :=
  if Qeq_bool y 0 then Raise ZeroDivisionError else Ok (x / y).

(* ===================================================================== *)
(** ** Dictionaries *)

Fixpoint dict_get (d : dict) (k : string) : option Q :=
  match d with
  | [] => None
  | (k', v) :: rest => if String.eqb k' k then Some v else dict_get rest k
  end.

(** [d[k]] *)
Definition dict_item (d : dict) (k : string) : result Q :=
  match dict_get d k with
  | Some v => Ok v
  | None => Raise (KeyError k)
  end.

(** [d.get(k, default)] *)
Definition dict_get_default (d : dict) (k : string) (default : Q) : Q :=
  match dict_get d k with
  | Some v => v
  | None => default
  end.

(** [d[k] = v]: in place for a key that is present, appended otherwise. *)
Fixpoint dict_set (d : dict) (k : string) (v : Q) : dict :=
  match d with
  | [] => [(k, v)]
  | (k', v') :: rest =>
      if String.eqb k' k then (k', v) :: rest
      else (k', v') :: dict_set rest k v
  end.

Definition dict_keys (d : dict) : list string := map fst d.
Definition dict_values (d : dict) : list Q := map snd d.

(** Builtin [sum]: starts from [0] and adds from the left. *)
Definition pysum (l : list Q) : Q := fold_left Qplus l 0.

(* ===================================================================== *)
(** ** Configuration *)

Definition INITIAL_CASH : Q := 1000000.
Definition SYMBOLS : list string :=
  ["BTC/USD"; "ETH/USD"; "SOL/USD"]%string.
Definition BASE_PER_PERCENT : Q := 10000.

(** The two switches read from the environment at import time. *)
Record Config : Type := {
  DRY_RUN : bool;
  FORCE_HORUS_422 : bool
}.

(* ===================================================================== *)
(** ** class RiskManager *)

Module RiskManager.

Record t : Type := Make {
  max_drawdown : Q;
  max_per_asset : Q;
  daily_loss_limit : Q;
  peak : Q;
  today_pnl : Q
}.

(** [__init__] *)
Definition init : t := {|
  max_drawdown := 10 # 100;
  max_per_asset := 35 # 100;
  daily_loss_limit := 4 # 100;
  peak := INITIAL_CASH;
  today_pnl := 0
|}.

Definition set_peak (p : Q) (self : t) : t := {|
  max_drawdown := max_drawdown self;
  max_per_asset := max_per_asset self;
  daily_loss_limit := daily_loss_limit self;
  peak := p;
  today_pnl := today_pnl self
|}.

(** The loop [for value in positions.values()]: [false] is the early
    [return False], [true] is the loop running to its end. *)
Fixpoint check_exposure (values : list Q) (total_value : Q) : M t bool :=
  match values with
  | [] => ret true
  | value :: rest =>
      self <- get ;;
      share <- lift (pydiv value total_value) ;;
      if Qltb (max_per_asset self) share then
        logger (RiskWarning MaxPerAsset) ;;
        ret false
      else check_exposure rest total_value
  end.

Definition check (total_value : Q) (positions : dict) : M t bool :=
  self <- get ;;
  put (set_peak (pymax (peak self) total_value) self) ;;
  self <- get ;;
  drawdown <- lift (pydiv (peak self - total_value) (peak self)) ;;
  if Qltb (max_drawdown self) drawdown then
    logger (RiskWarning MaxDrawdown) ;;
    ret false
  else
    within <- check_exposure (dict_values positions) total_value ;;
    if negb within then ret false
    else if Qltb (today_pnl self) (- daily_loss_limit self * INITIAL_CASH) then
      logger (RiskWarning DailyLoss) ;;
      ret false
    else ret true.

End RiskManager.

(* ===================================================================== *)
(** ** Collaborators *)

(** Module [random]: its state is the number of draws made so far, and
    [draws n] is what the [n]-th call [random.uniform(-0.01, 0.01)]
    returns. *)
Module Random.

Definition state : Type := nat.

Definition uniform (draws : nat -> Q) : M state Q :=
  fun n => Out (S n) [] (Ok (draws n)).

End Random.

(** [horus_client.HorusClient]: the live quote service, as it answers
    during one cycle (a cycle asks each question at most once).  A row of
    [get_market_price] is a dict with a ["close"] entry, most recent
    first. *)
Module HorusClient.

Record t : Type := Make {
  get_latest_price : string -> result Q;
  get_market_price : string -> nat -> result (list dict)
}.

End HorusClient.

(** [roostoo_client.RoostooClient]: the venue, behind its HTTP transport,
    as it answers during one cycle. *)
Module RoostooClient.

Record t : Type := Make {
  get_balance : result dict;
  place_order : string -> side -> Q -> result unit
}.

End RoostooClient.

(* ===================================================================== *)
(** ** class MockMarket *)

Module MockMarket.

Record t : Type := Make {
  prices : dict;
  prev_prices : dict
}.

(** [__init__]; [self.prices.copy()] is the same association list. *)
Definition init : t :=
  let p := [("BTC/USD", 68000); ("ETH/USD", 3500); ("SOL/USD", 180)]%string in
  {| prices := p; prev_prices := p |}.

Definition set_prices (p : dict) (self : t) : t :=
  {| prices := p; prev_prices := prev_prices self |}.

(** The loop [for sym in self.prices] of [update]. *)
Fixpoint update_loop (draws : nat -> Q) (syms : list string)
    : M (t * Random.state) unit :=
  match syms with
  | [] => ret tt
  | sym :: rest =>
      change <- zoom snd (fun n s => (fst s, n)) (Random.uniform draws) ;;
      self <- get ;;
      p <- lift (dict_item (prices (fst self)) sym) ;;
      put (set_prices (dict_set (prices (fst self)) sym (p * (1 + change)))
             (fst self), snd self) ;;
      update_loop draws rest
  end.

Definition update (draws : nat -> Q) : M (t * Random.state) dict :=
  self <- get ;;
  put ({| prices := prices (fst self); prev_prices := prices (fst self) |},
       snd self) ;;
  update_loop draws (dict_keys (prices (fst self))) ;;
  self <- get ;;
  ret (prices (fst self)).

Definition get_price (sym : string) (self : t) : result Q :=
  dict_item (prices self) sym.

Definition get_return (sym : string) (self : t) : result Q :=
  match dict_item (prices self) sym with
  | Raise e => Raise e
  | Ok p =>
      match dict_item (prev_prices self) sym with
      | Raise e => Raise e
      | Ok q =>
          match pydiv p q with
          | Raise e => Raise e
          | Ok r => Ok (r - 1)
          end
      end
  end.

End MockMarket.

(* ===================================================================== *)
(** ** The state of the running process *)

Record World : Type := {
  risk : RiskManager.t;        (* bot.risk *)
  mock : MockMarket.t;         (* bot.client.mock *)
  random_state : Random.state  (* module random *)
}.

Definition set_risk (r : RiskManager.t) (w : World) : World :=
  {| risk := r; mock := mock w; random_state := random_state w |}.

Definition market (w : World) : MockMarket.t * Random.state :=
  (mock w, random_state w).

Definition set_market (m : MockMarket.t * Random.state) (w : World) : World :=
  {| risk := risk w; mock := fst m; random_state := snd m |}.

Definition init_world : World :=
  {| risk := RiskManager.init; mock := MockMarket.init; random_state := 0%nat |}.

(** [s.split("/")[0]] *)
Fixpoint split_head (s : string) : string :=
  match s with
  | EmptyString => EmptyString
  | String c rest =>
      if Ascii.eqb c "/"%char then EmptyString else String c (split_head rest)
  end.

(** [s.replace("/", "")] *)
Fixpoint remove_slash (s : string) : string :=
  match s with
  | EmptyString => EmptyString
  | String c rest =>
      if Ascii.eqb c "/"%char then remove_slash rest
      else String c (remove_slash rest)
  end.

(* ===================================================================== *)
(** ** class ExchangeClient *)

Module ExchangeClient.

Record t : Type := Make {
  roostoo : RoostooClient.t;
  horus : HorusClient.t
}.

Definition mock_price (draws : nat -> Q) (symbol : string) : M World Q :=
  zoom market set_market (MockMarket.update draws) ;;
  w <- get ;;
  lift (MockMarket.get_price symbol (mock w)).

Definition fetch_price (cfg : Config) (draws : nat -> Q) (self : t)
    (symbol : string) : M World Q :=
  if FORCE_HORUS_422 cfg then mock_price draws symbol
  else
    try_except
      (let asset := split_head symbol in
       lift (HorusClient.get_latest_price (horus self) asset))
      (fun e =>
         logger (HorusFailed symbol e) ;;
         mock_price draws symbol).

Definition get_balance (cfg : Config) (self : t) : M World dict :=
  if DRY_RUN cfg then
    ret [("USD", 500000); ("BTC", 2); ("ETH", 15); ("SOL", 200)]%string
  else lift (RoostooClient.get_balance (roostoo self)).

Definition place_order (cfg : Config) (self : t)
    (symbol : string) (sd : side) (amount : Q) : M World unit :=
  if Qeq_bool amount 0 then ret tt
  else if DRY_RUN cfg then logger (DryOrder sd (Qabs amount) symbol)
  else
    try_except
      (logger (LiveOrder symbol sd (Qabs amount)) ;;
       lift (RoostooClient.place_order (roostoo self) symbol sd (Qabs amount)))
      (fun e => logger (OrderFailed symbol e)).

End ExchangeClient.

(* ===================================================================== *)
(** ** loguru: the message of a logging call with keyword arguments *)

(** A call [logger.error(message, exc_info=True)] hands its arguments to
    [message.format(exc_info=True)] before it logs; a call without
    arguments logs its message as it is.  [format] is that [str.format],
    with no positional argument and the one keyword [exc_info]: doubled
    braces are literal braces, a replacement field ["{...}"] is looked up,
    and a brace that opens or closes nothing is an error.  A field that
    applies an attribute, an index, a conversion other than [s], [r], [a] or
    a format specification to [exc_info] itself is outside what is modelled
    here (its rendering is that of [bool]) and counts as an error. *)
Module Loguru.

Definition is_digit (c : ascii) : bool :=
  (48 <=? nat_of_ascii c)%nat && (nat_of_ascii c <=? 57)%nat.

Fixpoint all_digits (s : string) : bool :=
  match s with
  | EmptyString => true
  | String c rest => is_digit c && all_digits rest
  end.

(** The argument a field names: what stands before the first ["."] or
    ["["]. *)
Fixpoint arg_name (field : string) : string :=
  match field with
  | EmptyString => EmptyString
  | String c rest =>
      if Ascii.eqb c "."%char || Ascii.eqb c "["%char then EmptyString
      else String c (arg_name rest)
  end.

Definition plain_conversion (conversion : option ascii) : bool :=
  match conversion with
  | None => true
  | Some c => Ascii.eqb c "s"%char || Ascii.eqb c "r"%char || Ascii.eqb c "a"%char
  end.

(** The text of one replacement field.  An empty or numeric argument name
    asks for a positional argument, and there is none. *)
Definition render (field : string) (conversion : option ascii)
    (spec : string) : result string :=
  let name := arg_name field in
  if all_digits name then Raise IndexError
  else if negb (String.eqb name "exc_info") then Raise (KeyError name)
  else if String.eqb field "exc_info" && String.eqb spec ""
          && plain_conversion conversion
  then Ok "True"%string
  else Raise (ValueError "field of exc_info").

(** Where the scan of the message stands. *)
Inductive mode : Type :=
| Text                                     (* literal text *)
| Name (field : string)                    (* after ["{"], in the field name *)
| Index (field : string)                   (* after ["["] in a field name *)
| Bang (field : string)                    (* after ["!"] *)
| Converted (field : string) (conversion : ascii)
| Spec (field : string) (conversion : option ascii) (spec : string)
       (depth : nat).                      (* after [":"] *)

Definition add (s : string) (c : ascii) : string :=
  (s ++ String c EmptyString)%string.

Definition prepend (c : ascii) (r : result string) : result string :=
  match r with
  | Ok s => Ok (String c s)
  | Raise e => Raise e
  end.

(** A field, then the rest of the message. *)
Definition field_then (field : result string) (rest : result string)
    : result string :=
  match field with
  | Raise e => Raise e
  | Ok text =>
      match rest with
      | Ok s => Ok (text ++ s)%string
      | Raise e => Raise e
      end
  end.

Fixpoint scan (m : mode) (s : string) : result string :=
  match s with
  | EmptyString =>
      match m with
      | Text => Ok EmptyString
      | Spec _ _ _ _ | Converted _ _ =>
          Raise (ValueError "unmatched '{' in format spec")
      | Bang _ =>
          Raise (ValueError
                   "end of string while looking for conversion specifier")
      | _ => Raise (ValueError "expected '}' before end of string")
      end
  | String c rest =>
      match m with
      | Text =>
          if Ascii.eqb c "{"%char then
            match rest with
            | EmptyString =>
                Raise (ValueError "Single '{' encountered in format string")
            | String c' rest' =>
                if Ascii.eqb c' "{"%char then prepend c (scan Text rest')
                else scan (Name EmptyString) rest
            end
          else if Ascii.eqb c "}"%char then
            match rest with
            | EmptyString =>
                Raise (ValueError "Single '}' encountered in format string")
            | String c' rest' =>
                if Ascii.eqb c' "}"%char then prepend c (scan Text rest')
                else
                  Raise (ValueError "Single '}' encountered in format string")
            end
          else prepend c (scan Text rest)
      | Name field =>
          if Ascii.eqb c "}"%char then
            field_then (render field None EmptyString) (scan Text rest)
          else if Ascii.eqb c "{"%char then
            Raise (ValueError "unexpected '{' in field name")
          else if Ascii.eqb c "["%char then scan (Index (add field c)) rest
          else if Ascii.eqb c "!"%char then scan (Bang field) rest
          else if Ascii.eqb c ":"%char then
            scan (Spec field None EmptyString 1) rest
          else scan (Name (add field c)) rest
      | Index field =>
          if Ascii.eqb c "]"%char then scan (Name (add field c)) rest
          else scan (Index (add field c)) rest
      | Bang field => scan (Converted field c) rest
      | Converted field conversion =>
          if Ascii.eqb c "}"%char then
            field_then (render field (Some conversion) EmptyString)
                       (scan Text rest)
          else if Ascii.eqb c ":"%char then
            scan (Spec field (Some conversion) EmptyString 1) rest
          else Raise (ValueError "expected ':' after conversion specifier")
      | Spec field conversion spec depth =>
          if Ascii.eqb c "{"%char then
            scan (Spec field conversion (add spec c) (S depth)) rest
          else if Ascii.eqb c "}"%char then
            match depth with
            | S (S d) => scan (Spec field conversion (add spec c) (S d)) rest
            | _ =>
                field_then (render field conversion spec) (scan Text rest)
            end
          else scan (Spec field conversion (add spec c) depth) rest
      end
  end.

(** [message.format(exc_info=True)] *)
Definition format (message : string) : result string := scan Text message.

End Loguru.

(* ===================================================================== *)
(** ** class DynamicMomentumBot *)

Module DynamicMomentumBot.

Section Step.

Variable cfg : Config.
Variable draws : nat -> Q.
Variable client : ExchangeClient.t.

(** 1. [prices = {sym: self.client.fetch_price(sym) for sym in SYMBOLS}] *)
Fixpoint fetch_prices (syms : list string) (prices : dict) : M World dict :=
  match syms with
  | [] => ret prices
  | sym :: rest =>
      p <- ExchangeClient.fetch_price cfg draws client sym ;;
      fetch_prices rest (dict_set prices sym p)
  end.

(** 2. the loop filling [positions] *)
Fixpoint fill_positions (syms : list string) (balance prices positions : dict)
    : M World dict :=
  match syms with
  | [] => ret positions
  | sym :: rest =>
      let asset := split_head sym in
      p <- lift (dict_item prices sym) ;;
      fill_positions rest balance prices
        (dict_set positions sym (dict_get_default balance asset 0 * p))
  end.

(** 4. the return of one symbol *)
Definition momentum_return (sym : string) : M World Q :=
  if FORCE_HORUS_422 cfg then
    w <- get ;;
    lift (MockMarket.get_return sym (mock w))
  else
    try_except
      (data <- lift (HorusClient.get_market_price
                       (ExchangeClient.horus client) (remove_slash sym) 2) ;;
       row0 <- lift (match nth_error data 0 with
                     | Some r => Ok r | None => Raise IndexError end) ;;
       close0 <- lift (dict_item row0 "close") ;;
       row1 <- lift (match nth_error data 1 with
                     | Some r => Ok r | None => Raise IndexError end) ;;
       close1 <- lift (dict_item row1 "close") ;;
       q <- lift (pydiv close0 close1) ;;
       ret (q - 1))
      (fun _ => ret 0).

(** 4. the loop filling [momentum_targets] *)
Fixpoint fill_targets (syms : list string) (positions momentum_targets : dict)
    : M World dict :=
  match syms with
  | [] => ret momentum_targets
  | sym :: rest =>
      r <- momentum_return sym ;;
      let target_usd := r * BASE_PER_PERCENT * 100 in
      current <- lift (dict_item positions sym) ;;
      fill_targets rest positions
        (dict_set momentum_targets sym (current + target_usd))
  end.

(** The dict comprehension of the log line 动量涨幅. *)
Fixpoint mock_returns (syms : list string) (returns : dict) : M World dict :=
  match syms with
  | [] => ret returns
  | s :: rest =>
      w <- get ;;
      r <- lift (MockMarket.get_return s (mock w)) ;;
      mock_returns rest (dict_set returns s (r * 100))
  end.

(** 5. the cap on [diff_usd] *)
Definition cap_diff (total_value current_usd diff_usd : Q) : Q :=
  if Qltb (total_value * (35 # 100)) (current_usd + diff_usd)
  then total_value * (35 # 100) - current_usd
  else diff_usd.

(** 5. the body of the rebalance loop *)
Definition rebalance_one (positions prices : dict) (total_value : Q)
    (sym : string) (target_usd : Q) : M World unit :=
  current_usd <- lift (dict_item positions sym) ;;
  let diff_usd := target_usd - current_usd in
  let diff_usd := cap_diff total_value current_usd diff_usd in
  if Qltb 500 (Qabs diff_usd) then
    price <- lift (dict_item prices sym) ;;
    amount <- lift (pydiv diff_usd price) ;;
    let sd := if Qltb 0 amount then buy else sell in
    ExchangeClient.place_order cfg client sym sd amount ;;
    logger (LogOrder sd (Qabs amount) sym (Qabs diff_usd))
  else ret tt.

(** 5. [for sym, target_usd in momentum_targets.items()] *)
Fixpoint rebalance (items : list (string * Q)) (positions prices : dict)
    (total_value : Q) : M World unit :=
  match items with
  | [] => ret tt
  | (sym, target_usd) :: rest =>
      rebalance_one positions prices total_value sym target_usd ;;
      rebalance rest positions prices total_value
  end.

(** The body of the [try] of [step]. *)
Definition step_body : M World unit :=
  prices <- fetch_prices SYMBOLS [] ;;
  logger (LogPrices prices) ;;
  balance <- ExchangeClient.get_balance cfg client ;;
  let usd := dict_get_default balance "USD" 0 in
  positions <- fill_positions SYMBOLS balance prices [] ;;
  let total_value := usd + pysum (dict_values positions) in
  logger (LogTotal total_value usd) ;;
  allowed <- zoom risk set_risk (RiskManager.check total_value positions) ;;
  if negb allowed then logger LogRiskPause
  else
    momentum_targets <- fill_targets SYMBOLS positions [] ;;
    returns <- mock_returns SYMBOLS [] ;;
    logger (LogReturns returns) ;;
    logger (LogTargets momentum_targets) ;;
    rebalance momentum_targets positions prices total_value.

(** [except Exception as e: logger.error(f"step 错误: {e}", exc_info=True)]:
    the call has a keyword argument, so the message is formatted before it
    is logged. *)
Definition step : M World unit :=
  try_except step_body
    (fun e =>
       lift (Loguru.format ("step 错误: " ++ str e)) ;;
       logger (StepError e)).

End Step.

(** [run]: the [while True] loop, cut after [n] iterations; [clients k]
    is how the two services answer during iteration [k].  The
    [time.sleep] between iterations changes nothing in the state. *)
Fixpoint run (cfg : Config) (draws : nat -> Q)
    (clients : nat -> ExchangeClient.t) (k n : nat) : M World unit :=
  match n with
  | O => ret tt
  | S n' =>
      step cfg draws (clients k) ;;
      run cfg draws clients (S k) n'
  end.

End DynamicMomentumBot.

(* ===================================================================== *)
(** ** Sample collaborators *)

Definition quiet_horus : HorusClient.t :=
  HorusClient.Make (fun _ => Raise (RequestError "422"))
                   (fun _ _ => Raise (RequestError "422")).

Definition quiet_roostoo : RoostooClient.t :=
  RoostooClient.Make (Ok []) (fun _ _ _ => Ok tt).

Definition quiet_client : ExchangeClient.t :=
  ExchangeClient.Make quiet_roostoo quiet_horus.

Definition dry_forced : Config := {| DRY_RUN := true; FORCE_HORUS_422 := true |}.

Definition dry_live : Config := {| DRY_RUN := true; FORCE_HORUS_422 := false |}.

(** A quote service that answers for BTC and ETH. *)
Definition quoting_horus : HorusClient.t :=
  HorusClient.Make
    (fun asset =>
       if String.eqb asset "BTC" then Ok 68000
       else if String.eqb asset "ETH" then Ok 3500
       else Raise (RequestError "404"))
    (fun _ _ => Raise (RequestError "422")).

Definition quoting_client : ExchangeClient.t :=
  ExchangeClient.Make quiet_roostoo quoting_horus.

Definition live_forced : Config := {| DRY_RUN := false; FORCE_HORUS_422 := true |}.

Definition live : Config := {| DRY_RUN := false; FORCE_HORUS_422 := false |}.

(** A venue account holding 1,000,000 USD and 2 BTC. *)
Definition funded_client : ExchangeClient.t :=
  ExchangeClient.Make
    (RoostooClient.Make (Ok [("USD", 1000000); ("BTC", 2)]%string)
                        (fun _ _ _ => Ok tt))
    quiet_horus.

(** A quote service gone wrong: every price is 0, every pair is up 1%. *)
Definition zero_price_client : ExchangeClient.t :=
  ExchangeClient.Make
    (RoostooClient.Make (Ok [("USD", 1000000)]%string) (fun _ _ _ => Ok tt))
    (HorusClient.Make
       (fun _ => Ok 0)
       (fun _ _ => Ok [[("close", 101)]; [("close", 100)]]%string)).


(** The simulator stands still, then moves BTC by +1% and ETH by -0.5% in
    the last update of the first cycle. *)
Definition late_draws (n : nat) : Q :=
  match n with
  | 6%nat => 1 # 100
  | 7%nat => - (1 # 200)
  | _ => 0
  end.

(** Every draw of the generator is +0.5%. *)
Definition steady_draws : nat -> Q := fun _ => 1 # 200.


(* ===================================================================== *)
(** ** States the program can be in *)

(** A [RiskManager] as the program can hold it: built by [__init__], then
    only ever touched by [check]. *)
Inductive reachable : RiskManager.t -> Prop :=
| reachable_init : reachable RiskManager.init
| reachable_check (rm : RiskManager.t) (total_value : Q) (positions : dict) :
    reachable rm ->
    reachable (out_state (RiskManager.check total_value positions rm)).

(** A sequence of calls to [check], each with its own arguments. *)
Definition run_checks (calls : list (Q * dict)) (rm : RiskManager.t)
    : RiskManager.t :=
  fold_left
    (fun rm call => out_state (RiskManager.check (fst call) (snd call) rm))
    calls rm.

(** The attributes set once in [__init__] keep their values, and the peak
    stays at or above the initial cash. *)
Definition settled (rm : RiskManager.t) : Prop :=
  RiskManager.max_drawdown rm = 10 # 100 /\
  RiskManager.max_per_asset rm = 35 # 100 /\
  RiskManager.daily_loss_limit rm = 4 # 100 /\
  RiskManager.today_pnl rm = 0 /\
  INITIAL_CASH <= RiskManager.peak rm.

(** A text without braces. *)
Definition brace_free (s : string) : Prop :=
  forall c, In c (list_ascii_of_string s) -> c <> "{"%char /\ c <> "}"%char.

(** Two prices resolved one after the other, as the dict comprehension of
    [step] does for consecutive symbols. *)
Definition fetch_two (cfg : Config) (draws : nat -> Q)
    (client : ExchangeClient.t) (s1 s2 : string) : M World (Q * Q) :=
  p1 <- ExchangeClient.fetch_price cfg draws client s1 ;;
  p2 <- ExchangeClient.fetch_price cfg draws client s2 ;;
  ret (p1, p2).

(** Price resolution has no ordering dependency: two distinct symbols get
    the same prices whichever is resolved first, for draws of the generator
    within the range asked for. *)
Definition price_resolution_order_independent : Prop :=
  forall (cfg : Config) (draws : nat -> Q) (client : ExchangeClient.t)
         (s1 s2 : string) (w : World) (p1 p2 q1 q2 : Q),
    (forall n, - (1 # 100) <= draws n /\ draws n <= 1 # 100) ->
    s1 <> s2 ->
    out_res (fetch_two cfg draws client s1 s2 w) = Ok (p1, p2) ->
    out_res (fetch_two cfg draws client s2 s1 w) = Ok (q2, q1) ->
    p1 == q1 /\ p2 == q2.

(** The order an event hands to the venue (or to the dry-run log), if it is
    one: symbol and quantity. *)
Definition order_of (ev : event) : option (string * Q) :=
  match ev with
  | DryOrder _ quantity symbol => Some (symbol, quantity)
  | LiveOrder symbol _ quantity => Some (symbol, quantity)
  | _ => None
  end.

Definition is_order (ev : event) : bool :=
  match order_of ev with
  | Some _ => true
  | None => false
  end.

(** An order event is justified by the inputs of the rebalance loop when
    it is for a symbol of [items] whose capped difference is more than 500
    in absolute value, and its quantity is that difference over the price. *)
Definition order_justified (items : list (string * Q))
    (positions prices : dict) (total_value : Q) (ev : event) : Prop :=
  forall sym quantity,
    order_of ev = Some (sym, quantity) ->
    exists target_usd current_usd price,
      In (sym, target_usd) items /\
      dict_item positions sym = Ok current_usd /\
      dict_item prices sym = Ok price /\
      let diff_usd :=
        DynamicMomentumBot.cap_diff total_value current_usd
          (target_usd - current_usd) in
      500 < Qabs diff_usd /\ quantity = Qabs (diff_usd / price).

(** A method keeps the invariant [I] of the state and logs only events
    that satisfy [P]. *)
Definition triple {S A : Type} (I : S -> Prop) (P : event -> Prop)
    (m : M S A) : Prop :=
  forall s, I s -> I (out_state (m s)) /\ Forall P (out_log (m s)).

(** The scenario of the specification: the simulator has just moved BTC
    from 68,000 to 68,680 (+1%) and left the other prices alone. *)
Definition scenario_world : World := {|
  risk := RiskManager.init;
  mock := {| MockMarket.prices :=
               [("BTC/USD", 68680); ("ETH/USD", 3500); ("SOL/USD", 180)]%string;
             MockMarket.prev_prices :=
               [("BTC/USD", 68000); ("ETH/USD", 3500); ("SOL/USD", 180)]%string |};
  random_state := 3%nat
|}.

Definition scenario_positions : dict :=
  [("BTC/USD", 136000); ("ETH/USD", 0); ("SOL/USD", 0)]%string.

(* ===================================================================== *)
(** ** roostoo_client.py: signing and the balance request *)

Module Roostoo.

Section Signing.

(** The values of request parameters (strings, numbers), with [render v]
    the text the f-string [f"{k}={v}"] puts for [v], and the keyed digest
    [hmac.new(key, msg, hashlib.sha256).hexdigest()]. *)
Variable V : Type.
Variable render : V -> string.
Variable hmac_sha256_hex : string -> string -> string.

(** A dict of request parameters, in insertion order. *)
Definition params : Type := list (string * V).

Fixpoint lookup (d : params) (k : string) : option V :=
  match d with
  | [] => None
  | (k', v) :: rest => if String.eqb k' k then Some v else lookup rest k
  end.

(** [d[k] = v] *)
Fixpoint assign (d : params) (k : string) (v : V) : params :=
  match d with
  | [] => [(k, v)]
  | (k', v') :: rest =>
      if String.eqb k' k then (k', v) :: rest
      else (k', v') :: assign rest k v
  end.

(** [{**a, **b}]: the entries of [a], then those of [b] written over them. *)
Definition unpack (into from : params) : params :=
  fold_left (fun d kv => assign d (fst kv) (snd kv)) from into.

(** One step of [sorted]: the keys of a dict are distinct, so its items
    are ordered by their keys alone. *)
Fixpoint insert_item (x : string * V) (l : params) : params :=
  match l with
  | [] => [x]
  | y :: rest =>
      if String.ltb (fst y) (fst x) then y :: insert_item x rest
      else x :: y :: rest
  end.

(** The order of the sorted items: by key, as strings compare. *)
Definition key_lt (x y : string * V) : Prop :=
  OrderedTypeEx.String_as_OT.lt (fst x) (fst y).

(** [sorted(params.items())] *)
Definition sorted_items (d : params) : params :=
  fold_right insert_item [] d.

(** The string that is signed. *)
Definition query (d : params) : string :=
  String.concat "&"
    (map (fun kv => fst kv ++ "=" ++ render (snd kv))%string (sorted_items d)).

(** [sign(self, params=None)] *)
Definition sign (api_secret : string) (p : option params) : string :=
  let d := match p with
           | Some d => d
           | None => []
           end in
  hmac_sha256_hex api_secret (query d).

(** [all_params] of [_sign_and_request], with [ts] the value of
    [now_ts()]. *)
Definition all_params (p data : option params) (ts : V) : params :=
  let p := match p with Some d => d | None => [] end in
  let data := match data with Some d => d | None => [] end in
  assign (unpack (unpack [] p) data) "timestamp" ts.

(** The [MSG-SIGNATURE] header of [_sign_and_request]. *)
Definition signature (api_secret : string) (p data : option params) (ts : V)
    : string :=
  sign api_secret (Some (all_params p data ts)).

End Signing.

(** The answer to [GET /v3/balance] as [get_balance] reads it: whether
    ["Success"] is truthy, and the ["Wallet"] object if there is one, each
    coin with its own dict of amounts. *)
Record balance_response : Type := {
  Success : bool;
  Wallet : option (list (string * dict))
}.

(** What [get_balance] logs. *)
Inductive balance_log : Type :=
| BalanceRefused       (* 获取余额失败 *)
| BalanceException (e : exn).   (* 获取余额异常 *)

(** [{coin: info.get("Free", 0) for coin, info in wallet.items()}] *)
Definition free_amounts (wallet : list (string * dict)) : dict :=
  fold_left
    (fun balances entry =>
       dict_set balances (fst entry) (dict_get_default (snd entry) "Free" 0))
    wallet [].

(** [get_balance], given what [_sign_and_request] did: raised, or returned
    an answer ([None] for a falsy one). *)
Definition get_balance (request : result (option balance_response))
    : dict * list balance_log :=
  match request with
  | Raise e => ([], [BalanceException e])
  | Ok None => ([], [BalanceRefused])
  | Ok (Some resp) =>
      if Success resp then
        (free_amounts (match Wallet resp with
                       | Some wallet => wallet
                       | None => []
                       end), [])
      else ([], [BalanceRefused])
  end.

End Roostoo.

(* ===================================================================== *)
(** ** Vocabulary for the simulator *)

(** The prices after one [update] that starts at draw [n]: the price at
    position [i] of the dict is multiplied by [1 + draws (n + i)]. *)
Fixpoint moved_prices (draws : nat -> Q) (n : nat) (d : dict) : dict :=
  match d with
  | [] => []
  | (k, p) :: rest => (k, p * (1 + draws n)) :: moved_prices draws (S n) rest
  end.

(* ===================================================================== *)
(** ** Kinds of events *)

(** The informative log lines of a cycle. *)
Definition plain_event (ev : event) : bool :=
  match ev with
  | HorusFailed _ _ | LogPrices _ | LogTotal _ _
  | LogReturns _ | LogTargets _ => true
  | _ => false
  end.

(** The warnings of the risk manager. *)
Definition risk_event (ev : event) : bool :=
  match ev with
  | RiskWarning _ => true
  | _ => false
  end.

(** What the rebalance loop logs: orders, their failures, their reports. *)
Definition trade_event (ev : event) : bool :=
  match ev with
  | DryOrder _ _ _ | LiveOrder _ _ _ | OrderFailed _ _ | LogOrder _ _ _ _ => true
  | _ => false
  end.

(** What tells that the risk manager stopped the cycle. *)
Definition veto_event (ev : event) : bool :=
  match ev with
  | RiskWarning _ | LogRiskPause => true
  | _ => false
  end.

(** The symbols of the orders of a log, in the order of the log. *)
Definition order_symbols (log : list event) : list string :=
  flat_map (fun ev => match order_of ev with
                      | Some (sym, _) => [sym]
                      | None => []
                      end) log.

(** [l1] is [l2] with some of its elements left out. *)
Inductive subseq {A : Type} : list A -> list A -> Prop :=
| subseq_nil : subseq [] []
| subseq_skip (x : A) (l1 l2 : list A) : subseq l1 l2 -> subseq l1 (x :: l2)
| subseq_take (x : A) (l1 l2 : list A) :
    subseq l1 l2 -> subseq (x :: l1) (x :: l2).

(** The order event of [place_order] in the given mode. *)
Definition order_event (cfg : Config) (symbol : string) (sd : side)
    (quantity : Q) : event :=
  if DRY_RUN cfg then DryOrder sd quantity symbol
  else LiveOrder symbol sd quantity.

(* ===================================================================== *)
(** ** The risk gates, the cap and the simulator in binary64 *)

(** [RiskManager.check], the cap of the rebalance loop and [MockMarket]
    once more, this time on the numbers Python computes with: binary64 floats, with their
    rounding, their infinities and NaN.  The operations are Rocq's
    primitive floats, which are IEEE 754 binary64 with rounding to nearest,
    ties to even, as Python's [float] is; the literals of the source are the
    nearest floats, as in Python, and the integer [1_000_000] is the float
    of the same value.  A comparison with NaN is false, as in Python. *)
Module Float64.

Import Floats.
#[local] Open Scope float_scope.
#[local] Set Warnings "-inexact-float".

(** Builtin [max(a, b)]: the first argument unless the second is larger. *)
Definition pymax (a b : float) : float := if a <? b then b else a.

(** [x / y]: a divisor equal to zero ([0.0] or [-0.0]) raises. *)
Definition pydiv (x y : float) : result float :=
  if y =? 0 then Raise ZeroDivisionError else Ok (x / y).

Definition dict : Type := list (string * float).

Definition dict_values (d : dict) : list float := map snd d.

(** The rational a finite float stands for. *)
Definition exact (x : float) : option Q :=
  match Prim2SF x with
  | S754_zero _ => Some 0%Q
  | S754_finite s m e => Some (inject_Z (cond_Zopp s (Zpos m)) * Qpower 2 e)%Q
  | _ => None
  end.

Definition INITIAL_CASH : float := 1000000.

Module RiskManager.

Record t : Type := Make {
  max_drawdown : float;
  max_per_asset : float;
  daily_loss_limit : float;
  peak : float;
  today_pnl : float
}.

(** [__init__] *)
Definition init : t := {|
  max_drawdown := 0.10;
  max_per_asset := 0.35;
  daily_loss_limit := 0.04;
  peak := INITIAL_CASH;
  today_pnl := 0
|}.

Definition set_peak (p : float) (self : t) : t := {|
  max_drawdown := max_drawdown self;
  max_per_asset := max_per_asset self;
  daily_loss_limit := daily_loss_limit self;
  peak := p;
  today_pnl := today_pnl self
|}.

(** The loop [for value in positions.values()]. *)
Fixpoint check_exposure (values : list float) (total_value : float)
    : M t bool :=
  match values with
  | [] => ret true
  | value :: rest =>
      self <- get ;;
      share <- lift (pydiv value total_value) ;;
      if max_per_asset self <? share then
        logger (RiskWarning MaxPerAsset) ;;
        ret false
      else check_exposure rest total_value
  end.

Definition check (total_value : float) (positions : dict) : M t bool :=
  self <- get ;;
  put (set_peak (pymax (peak self) total_value) self) ;;
  self <- get ;;
  drawdown <- lift (pydiv (peak self - total_value) (peak self)) ;;
  if max_drawdown self <? drawdown then
    logger (RiskWarning MaxDrawdown) ;;
    ret false
  else
    within <- check_exposure (dict_values positions) total_value ;;
    if negb within then ret false
    else if today_pnl self <? - daily_loss_limit self * INITIAL_CASH then
      logger (RiskWarning DailyLoss) ;;
      ret false
    else ret true.

End RiskManager.

(** The cap on [diff_usd] in the rebalance loop of [step]. *)
Definition cap_diff (total_value current_usd diff_usd : float) : float :=
  if total_value * 0.35 <? current_usd + diff_usd
  then total_value * 0.35 - current_usd
  else diff_usd.

(** A [RiskManager] as the program can hold it: built by [__init__], then
    only ever touched by [check], with any floats for arguments. *)
Inductive reachable : RiskManager.t -> Prop :=
| reachable_init : reachable RiskManager.init
| reachable_check (rm : RiskManager.t) (total_value : float)
    (positions : dict) :
    reachable rm ->
    reachable (out_state (RiskManager.check total_value positions rm)).

(** The attributes set once in [__init__] keep their values, and the peak
    compares at or above the initial cash (so it is not NaN). *)
Definition settled (rm : RiskManager.t) : Prop :=
  RiskManager.max_drawdown rm = 0.10 /\
  RiskManager.max_per_asset rm = 0.35 /\
  RiskManager.daily_loss_limit rm = 0.04 /\
  RiskManager.today_pnl rm = 0 /\
  (INITIAL_CASH <=? RiskManager.peak rm) = true.

(** What the exposure loop decides when it can divide: no share compares
    above the limit. *)
Definition within_limit (total_value : float) (values : list float) : bool :=
  forallb (fun value => negb (0.35 <? value / total_value)) values.

(** The drawdown that [check] computes for a total, from the peak before
    the call. *)
Definition drawdown (peak total_value : float) : float :=
  (pymax peak total_value - total_value) / pymax peak total_value.

(** *** The simulator in binary64 *)

(** [MockMarket] on the numbers Python computes with.  The integer prices
    of [__init__] are the floats of the same value: they are far below
    [2^53], where [int * float] and [int / int] give what the floats
    give. *)
Fixpoint dict_get (d : dict) (k : string) : option float :=
  match d with
  | [] => None
  | (k', v) :: rest => if String.eqb k' k then Some v else dict_get rest k
  end.

(** [d[k]] *)
Definition dict_item (d : dict) (k : string) : result float :=
  match dict_get d k with
  | Some v => Ok v
  | None => Raise (KeyError k)
  end.

(** [d[k] = v] *)
Fixpoint dict_set (d : dict) (k : string) (v : float) : dict :=
  match d with
  | [] => [(k, v)]
  | (k', v') :: rest =>
      if String.eqb k' k then (k', v) :: rest
      else (k', v') :: dict_set rest k v
  end.

Definition dict_keys (d : dict) : list string := map fst d.

(** [random.uniform(-0.01, 0.01)]: the [n]-th call returns [draws n]. *)
Definition uniform (draws : nat -> float) : M Random.state float :=
  fun n => Out (S n) [] (Ok (draws n)).

Module MockMarket.

Record t : Type := Make {
  prices : dict;
  prev_prices : dict
}.

(** [__init__] *)
Definition init : t :=
  let p := [("BTC/USD", 68000); ("ETH/USD", 3500); ("SOL/USD", 180)]%string in
  {| prices := p; prev_prices := p |}.

Definition set_prices (p : dict) (self : t) : t :=
  {| prices := p; prev_prices := prev_prices self |}.

(** The loop [for sym in self.prices] of [update]. *)
Fixpoint update_loop (draws : nat -> float) (syms : list string)
    : M (t * Random.state) unit :=
  match syms with
  | [] => ret tt
  | sym :: rest =>
      change <- zoom snd (fun n s => (fst s, n)) (uniform draws) ;;
      self <- get ;;
      p <- lift (dict_item (prices (fst self)) sym) ;;
      put (set_prices (dict_set (prices (fst self)) sym (p * (1 + change)))
             (fst self), snd self) ;;
      update_loop draws rest
  end.

Definition update (draws : nat -> float) : M (t * Random.state) dict :=
  self <- get ;;
  put ({| prices := prices (fst self); prev_prices := prices (fst self) |},
       snd self) ;;
  update_loop draws (dict_keys (prices (fst self))) ;;
  self <- get ;;
  ret (prices (fst self)).

Definition get_price (sym : string) (self : t) : result float :=
  dict_item (prices self) sym.

Definition get_return (sym : string) (self : t) : result float :=
  match dict_item (prices self) sym with
  | Raise e => Raise e
  | Ok p =>
      match dict_item (prev_prices self) sym with
      | Raise e => Raise e
      | Ok q =>
          match pydiv p q with
          | Raise e => Raise e
          | Ok r => Ok (r - 1)
          end
      end
  end.

End MockMarket.

(** The prices after one [update] that starts at draw [n]. *)
Fixpoint moved_prices (draws : nat -> float) (n : nat) (d : dict) : dict :=
  match d with
  | [] => []
  | (k, p) :: rest => (k, p * (1 + draws n)) :: moved_prices draws (S n) rest
  end.

End Float64.

(* ===================================================================== *)
(** ** The values of binary64 floats *)

(** Vocabulary for the rounding of sums and differences.  A finite float
    [S754_finite s m e] stands for [(-1)^s * m * 2^e]; with [e >= -1074]
    every float is an integer multiple of [2^-1074], and values are kept
    as these integers. *)
Module Binary64.

Import Floats.
#[local] Open Scope Z_scope.

(** Scaled magnitude: a finite float is [m * 2^e] with [e >= -1074], an
    integer multiple of [2^-1074]. *)
Definition mag (m : positive) (e : Z) : Z := (Z.pos m * 2 ^ (e + 1074))%Z.

Definition sval (x : spec_float) : Z :=
  match x with
  | S754_finite s m e => cond_Zopp s (mag m e)
  | _ => 0%Z
  end.

Definition canonical (m : positive) (e : Z) : Prop :=
  (-1074 <= e <= 971 /\ Z.pos m < 2 ^ 53 /\ (-1074 < e -> 2 ^ 52 <= Z.pos m))%Z.

(** Zero or finite, and a float. *)
Definition fin (x : spec_float) : Prop :=
  match x with
  | S754_zero _ => True
  | S754_finite _ m e => canonical m e
  | _ => False
  end.

(** [r] is [mrs] shifted right by [n] bits: the mantissa is divided by
    [2^n], and nothing is recorded as lost if nothing was. *)
Definition shifted (n : Z) (mrs r : shr_record) : Prop :=
  0 <= shr_m r /\ shr_m r = shr_m mrs / 2 ^ n /\
  (shr_r mrs = false -> shr_s mrs = false -> shr_m mrs mod 2 ^ n = 0 ->
   shr_r r = false /\ shr_s r = false).

(** What rounding the value [x] (scaled) with sign [s] may give: a float
    that no float lies strictly between it and [x], or, when [x] is above
    every float, the infinity. *)
Definition rounds_to (s : bool) (x : Z) (r : spec_float) : Prop :=
  (exists m e,
      r = S754_finite s m e /\ canonical m e /\
      (forall mz ez, canonical mz ez -> x <= mag mz ez ->
                     mag m e <= mag mz ez) /\
      (forall mz ez, canonical mz ez -> mag mz ez <= x ->
                     mag mz ez <= mag m e))
  \/ (r = S754_infinity s /\ forall mz ez, canonical mz ez -> mag mz ez < x).

(** What an exact operation followed by rounding returns: a float, or an
    infinity; never NaN. *)
Definition rounded (r : spec_float) : Prop :=
  fin r \/ exists s, r = S754_infinity s.

(** A result [r] for the exact value [v] (scaled): every float at or above
    [v] is at or above [r], and every float at or below [v] is at or below
    [r]. *)
Definition nearest (v : Z) (r : spec_float) : Prop :=
  rounded r /\
  (forall b, fin b -> v <= sval b -> SFleb r b = true) /\
  (forall b, fin b -> sval b <= v -> SFleb b r = true).

End Binary64.

(* ===================================================================== *)
(** ** Sample runs *)

(** A cycle on a funded account: BTC is bought for 10,000 USD, and ETH,
    of which nothing is held, is sold for 5,000 USD. *)
Example live_cycle_places_orders :
  exists q1 q2,
    filter is_order
      (out_log (DynamicMomentumBot.step live_forced late_draws funded_client
                  init_world))
    = [LiveOrder "BTC/USD" buy q1; LiveOrder "ETH/USD" sell q2] /\
    q1 == 10000 / 68000 /\ q2 == 5000 / 3500.
Proof.
  eexists. eexists. split; [vm_compute; reflexivity|].
  split; vm_compute; reflexivity.
Qed.

(** A cycle whose body raises: the division by a price of 0 is caught and
    logged by [step]. *)
Example zero_price_cycle :
  out_res (DynamicMomentumBot.step_body live steady_draws zero_price_client
             init_world) = Raise ZeroDivisionError /\
  out_res (DynamicMomentumBot.step live steady_draws zero_price_client
             init_world) = Ok tt /\
  In (StepError ZeroDivisionError)
     (out_log (DynamicMomentumBot.step live steady_draws zero_price_client
                 init_world)).
Proof.
  split; [vm_compute; reflexivity|]. split; [vm_compute; reflexivity|].
  vm_compute. tauto.
Qed.

(** In dry-run mode the fixed balance is worth about 724,700 USD, more than
    10% below the initial peak: the cycle is vetoed. *)
Example dry_run_cycle_is_vetoed :
  filter (fun ev => match ev with RiskWarning _ => true | _ => false end)
    (out_log (DynamicMomentumBot.step dry_live steady_draws quoting_client
                init_world))
  = [RiskWarning MaxDrawdown].
Proof. vm_compute. reflexivity. Qed.

(** The formatting of a message: text without braces and the keyword
    [exc_info] go through, doubled braces are braces, an empty or numbered
    field asks for a positional argument, another name for a keyword that
    is not there. *)
Example format_samples :
  Loguru.format "float division by zero" = Ok "float division by zero"%string /\
  Loguru.format "{exc_info}" = Ok "True"%string /\
  Loguru.format "{{}}" = Ok "{}"%string /\
  Loguru.format "{}" = Raise IndexError /\
  Loguru.format "{0}" = Raise IndexError /\
  Loguru.format "{detail}" = Raise (KeyError "detail") /\
  Loguru.format "{code: 422}" = Raise (KeyError "code") /\
  Loguru.format "}"
  = Raise (ValueError "Single '}' encountered in format string").
Proof. repeat split; reflexivity. Qed.

Example check_scenario_drawdown :
  out_res (RiskManager.check 1000000 [("BTC/USD"%string, 136000)]
             (RiskManager.set_peak 1136000 RiskManager.init)) = Ok false.
Proof. reflexivity. Qed.

(* ===================================================================== *)
(** ** Arithmetic of the comparisons *)

Lemma Qltb_true (x y : Q) : Qltb x y = true <-> x < y.
Proof.
  unfold Qltb. rewrite negb_true_iff.
  split; intros H.
  - apply Qnot_le_lt. intros Hle. apply Qle_bool_iff in Hle. congruence.
  - destruct (Qle_bool y x) eqn:E; [|reflexivity].
    apply Qle_bool_iff in E. lra.
Qed.

Lemma Qltb_false (x y : Q) : Qltb x y = false <-> y <= x.
Proof.
  unfold Qltb. rewrite negb_false_iff. apply Qle_bool_iff.
Qed.

Lemma pymax_spec (a b : Q) :
  (a < b /\ pymax a b = b) \/ (b <= a /\ pymax a b = a).
Proof.
  unfold pymax. destruct (Qltb a b) eqn:E.
  - left. split; [now apply Qltb_true | reflexivity].
  - right. split; [now apply Qltb_false | reflexivity].
Qed.

Lemma pydiv_ok (x y : Q) : ~ y == 0 -> pydiv x y = Ok (x / y).
Proof.
  intros H. unfold pydiv. destruct (Qeq_bool y 0) eqn:E; [|reflexivity].
  apply Qeq_bool_iff in E. contradiction.
Qed.

Lemma pydiv_zero (x y : Q) : y == 0 -> pydiv x y = Raise ZeroDivisionError.
Proof.
  intros H. unfold pydiv. now rewrite (Qeq_eq_bool _ _ H).
Qed.

(** For a positive denominator a quotient compares like its numerator. *)
Lemma Qdiv_gt_iff (x y c : Q) : 0 < y -> (c < x / y <-> c * y < x).
Proof.
  intros Hy. split; intros H.
  - assert (E : x / y * y == x) by (field; lra).
    rewrite <- E. apply Qmult_lt_r; assumption.
  - apply Qlt_shift_div_l; assumption.
Qed.

(* ===================================================================== *)
(** ** RiskManager.check *)

Section RiskManagerFacts.

Import RiskManager.

Lemma check_exposure_state (values : list Q) (total_value : Q) (rm : t) :
  out_state (check_exposure values total_value rm) = rm.
Proof.
  induction values as [|v values IH]; simpl; [reflexivity|].
  unfold bind, get, lift; simpl.
  destruct (pydiv v total_value) as [share|e]; simpl; [|reflexivity].
  destruct (Qltb (max_per_asset rm) share); simpl; [reflexivity|].
  specialize IH.
  destruct (check_exposure values total_value rm) as [s l r] eqn:E.
  simpl in *. exact IH.
Qed.

(** What the exposure loop answers when the total is not zero. *)
Lemma check_exposure_spec (values : list Q) (total_value : Q) (rm : t) :
  ~ total_value == 0 ->
  exists within : bool,
    check_exposure values total_value rm
    = Out rm (if within then [] else [RiskWarning MaxPerAsset]) (Ok within)
    /\ (within = true <->
        forall v, In v values -> v / total_value <= max_per_asset rm).
Proof.
  intros Hnz.
  induction values as [|v values IH]; simpl.
  - exists true. split; [reflexivity|]. split; [intros _ v []|reflexivity].
  - unfold bind, get, lift; simpl.
    rewrite (pydiv_ok v Hnz); simpl.
    destruct (Qltb (max_per_asset rm) (v / total_value)) eqn:E; simpl.
    + exists false. split; [reflexivity|].
      split; [discriminate|]. intros H.
      apply Qltb_true in E. specialize (H v (or_introl eq_refl)). lra.
    + destruct IH as [within [Hrun Hiff]]. exists within.
      rewrite Hrun. simpl. split; [reflexivity|].
      apply Qltb_false in E. rewrite Hiff. split.
      * intros H w [<-|Hin]; [exact E|now apply H].
      * intros H w Hin. apply H. now right.
Qed.

Lemma check_state (total_value : Q) (positions : dict) (rm : t) :
  out_state (check total_value positions rm)
  = set_peak (pymax (peak rm) total_value) rm.
Proof.
  unfold check, bind, get, put, lift; simpl.
  destruct (pydiv _ _) as [dd|e]; simpl; [|reflexivity].
  destruct (Qltb _ dd); simpl; [reflexivity|].
  pose proof (check_exposure_state (dict_values positions) total_value
                (set_peak (pymax (peak rm) total_value) rm)) as Hst.
  destruct (check_exposure _ _ _) as [s l [within|e]]; simpl in *;
    [|exact Hst].
  destruct within; simpl; [|exact Hst].
  destruct (Qltb _ _); simpl; exact Hst.
Qed.

Lemma settled_check (total_value : Q) (positions : dict) (rm : t) :
  settled rm -> settled (out_state (check total_value positions rm)).
Proof.
  intros (Hd & Ha & Hl & Hp & Hpk). rewrite check_state.
  unfold settled; simpl. repeat split; try assumption.
  unfold INITIAL_CASH in *.
  destruct (pymax_spec (peak rm) total_value) as [[H E]|[H E]];
    rewrite E; lra.
Qed.

Lemma reachable_settled (rm : t) : reachable rm -> settled rm.
Proof.
  induction 1 as [|rm total_value positions _ IH].
  - unfold settled; simpl. repeat split; try reflexivity.
    unfold INITIAL_CASH. lra.
  - now apply settled_check.
Qed.

(** The three ways a call to [check] can end on a reachable manager. *)
Lemma check_cases (total_value : Q) (positions : dict) (rm : t) :
  settled rm ->
  let pk := pymax (peak rm) total_value in
  let rm' := set_peak pk rm in
  0 < pk /\
  ((total_value < (9 # 10) * pk /\
    check total_value positions rm
    = Out rm' [RiskWarning MaxDrawdown] (Ok false))
   \/
   ((9 # 10) * pk <= total_value /\
    (exists v, In v (dict_values positions) /\ (35 # 100) < v / total_value) /\
    check total_value positions rm
    = Out rm' [RiskWarning MaxPerAsset] (Ok false))
   \/
   ((9 # 10) * pk <= total_value /\
    (forall v, In v (dict_values positions) -> v / total_value <= 35 # 100) /\
    check total_value positions rm = Out rm' [] (Ok true))).
Proof.
  intros (Hd & Ha & Hl & Hp & Hpk) pk rm'.
  assert (Hpos : 0 < pk).
  { subst pk. unfold INITIAL_CASH in Hpk.
    destruct (pymax_spec (peak rm) total_value) as [[H E]|[H E]];
      rewrite E; lra. }
  split; [exact Hpos|].
  unfold check, bind, get, put, lift; simpl. fold pk. fold rm'.
  rewrite pydiv_ok by lra. simpl. rewrite Hd.
  destruct (Qltb (10 # 100) ((pk - total_value) / pk)) eqn:Edd; simpl.
  - left. split; [|reflexivity].
    apply Qltb_true in Edd. apply Qdiv_gt_iff in Edd; [lra|exact Hpos].
  - right.
    apply Qltb_false in Edd.
    assert (Hge : (9 # 10) * pk <= total_value).
    { destruct (Qlt_le_dec total_value ((9 # 10) * pk)) as [Hlt|Hle];
        [|exact Hle].
      exfalso.
      assert (10 # 100 < (pk - total_value) / pk)
        by (apply Qdiv_gt_iff; [exact Hpos|lra]).
      lra. }
    assert (Hnz : ~ total_value == 0) by lra.
    destruct (check_exposure_spec (dict_values positions) rm' Hnz)
      as [within [Hrun Hiff]].
    rewrite Hrun. simpl. replace (max_per_asset rm') with (35 # 100) in Hiff
      by (symmetry; exact Ha).
    destruct within; simpl.
    + right. split; [exact Hge|]. split; [now apply Hiff|].
      rewrite Hp, Hl.
      replace (Qltb 0 (- (4 # 100) * INITIAL_CASH)) with false
        by reflexivity.
      reflexivity.
    + left. split; [exact Hge|]. split; [|reflexivity].
      destruct (existsb (fun v => Qltb (35 # 100) (v / total_value))
                  (dict_values positions)) eqn:Ex.
      * apply existsb_exists in Ex. destruct Ex as [v [Hin Hv]].
        exists v. split; [exact Hin|now apply Qltb_true].
      * exfalso.
        assert (false = true); [|discriminate].
        apply Hiff. intros v Hin.
        apply Qltb_false.
        destruct (Qltb (35 # 100) (v / total_value)) eqn:Ev; [|reflexivity].
        assert (existsb (fun v => Qltb (35 # 100) (v / total_value))
                  (dict_values positions) = true)
          by (apply existsb_exists; exists v; now split).
        congruence.
Qed.

End RiskManagerFacts.

(* ===================================================================== *)
(** ** The risk gates *)

(** C6.  On a manager the program can hold, if the value of some position
    divided by [total_value] exceeds 0.35 then [check] returns [False]. *)
Theorem check_vetoes_on_exposure
    (rm : RiskManager.t) (total_value : Q) (positions : dict)
    (sym : string) (value share : Q) :
  reachable rm ->
  In (sym, value) positions ->
  pydiv value total_value = Ok share ->
  35 # 100 < share ->
  out_res (RiskManager.check total_value positions rm) = Ok false.
Proof.
  intros Hreach Hin Hdiv Hshare.
  pose proof (reachable_settled Hreach) as Hset.
  destruct (check_cases total_value positions Hset)
    as [Hpos [[_ ->]|[[_ [_ ->]]|[Hge [Hall _]]]]]; try reflexivity.
  exfalso.
  assert (Hnz : ~ total_value == 0) by lra.
  rewrite (pydiv_ok value Hnz) in Hdiv. injection Hdiv as <-.
  assert (Hv : In value (dict_values positions))
    by (apply (in_map snd) in Hin; exact Hin).
  specialize (Hall value Hv). lra.
Qed.

Lemma check_vetoes_on_exposure_witness :
  out_res (RiskManager.check 1000000
             [("BTC/USD"%string, 400000); ("ETH/USD"%string, 100000)]
             RiskManager.init) = Ok false.
Proof.
  apply (@check_vetoes_on_exposure RiskManager.init 1000000
           [("BTC/USD"%string, 400000); ("ETH/USD"%string, 100000)]
           "BTC/USD"%string 400000 (400000 / 1000000)).
  - apply reachable_init.
  - simpl. left. reflexivity.
  - reflexivity.
  - vm_compute. reflexivity.
Defined.

Lemma run_checks_peak_monotone (calls : list (Q * dict)) (rm : RiskManager.t) :
  RiskManager.peak rm <= RiskManager.peak (run_checks calls rm).
Proof.
  revert rm. induction calls as [|[total_value positions] calls IH];
    intros rm; simpl; [lra|].
  eapply Qle_trans; [|apply IH].
  rewrite check_state. simpl.
  destruct (pymax_spec (RiskManager.peak rm) total_value) as [[H E]|[H E]];
    rewrite E; lra.
Qed.

(** C8.  [peak] is a high-water mark.  Whatever a call to [check] returns
    (also [False], also an exception), it leaves
    [peak = max(previous peak, total_value)]: the peak never decreases, it
    increases exactly when [total_value] exceeds it, and across any sequence
    of calls it stays at or above its value before the sequence, so never
    below the initial cash. *)
Theorem peak_is_high_water_mark
    (calls : list (Q * dict)) (rm : RiskManager.t)
    (total_value : Q) (positions : dict) :
  let rm' := out_state (RiskManager.check total_value positions rm) in
  RiskManager.peak rm' = pymax (RiskManager.peak rm) total_value /\
  RiskManager.peak rm <= RiskManager.peak rm' /\
  total_value <= RiskManager.peak rm' /\
  (RiskManager.peak rm < RiskManager.peak rm'
   <-> RiskManager.peak rm < total_value) /\
  RiskManager.peak rm <= RiskManager.peak (run_checks calls rm) /\
  INITIAL_CASH <= RiskManager.peak (run_checks calls RiskManager.init).
Proof.
  intros rm'. subst rm'. rewrite check_state. simpl.
  split; [reflexivity|].
  pose proof (run_checks_peak_monotone calls rm) as Hmono.
  pose proof (run_checks_peak_monotone calls RiskManager.init) as Hinit.
  simpl in Hinit.
  destruct (pymax_spec (RiskManager.peak rm) total_value) as [[H E]|[H E]];
    rewrite E; repeat split; try assumption; try lra.
Qed.

(* ===================================================================== *)
(** ** The cap of the rebalance loop *)



(* ===================================================================== *)
(** ** Reasoning about methods *)

Section Triples.

Context {S : Type} (I : S -> Prop) (P : event -> Prop).

Lemma triple_ret {A : Type} (a : A) : triple I P (ret a).
Proof. intros s H. split; [exact H|constructor]. Qed.

Lemma triple_lift {A : Type} (r : result A) : triple I P (lift r).
Proof. intros s H. split; [exact H|constructor]. Qed.

Lemma triple_get : triple I P get.
Proof. intros s H. split; [exact H|constructor]. Qed.

Lemma triple_logger (ev : event) : P ev -> triple I P (logger ev).
Proof. intros Hev s H. split; [exact H|]. repeat constructor. exact Hev. Qed.

(** A logging call that formats its message first. *)
Lemma triple_format_log (message : string) (ev : event) :
  P ev -> triple I P (lift (Loguru.format message) ;; logger ev).
Proof.
  intros Hev s H. unfold bind, lift, logger.
  destruct (Loguru.format message); simpl.
  - split; [exact H|]. repeat constructor. exact Hev.
  - split; [exact H|constructor].
Qed.

Lemma triple_bind {A B : Type} (m : M S A) (k : A -> M S B) :
  triple I P m -> (forall a, triple I P (k a)) -> triple I P (bind m k).
Proof.
  intros Hm Hk s H. unfold bind.
  destruct (Hm s H) as [H1 L1].
  destruct (m s) as [s1 l1 [a|e]]; simpl in *; [|now split].
  destruct (Hk a s1 H1) as [H2 L2].
  destruct (k a s1) as [s2 l2 r]; simpl in *.
  split; [exact H2|]. apply Forall_app. now split.
Qed.

Lemma triple_try_except {A : Type} (m : M S A) (h : exn -> M S A) :
  triple I P m -> (forall e, triple I P (h e)) -> triple I P (try_except m h).
Proof.
  intros Hm Hh s H. unfold try_except.
  destruct (Hm s H) as [H1 L1].
  destruct (m s) as [s1 l1 [a|e]]; simpl in *; [now split|].
  destruct (Hh e s1 H1) as [H2 L2].
  destruct (h e s1) as [s2 l2 r]; simpl in *.
  split; [exact H2|]. apply Forall_app. now split.
Qed.

Lemma triple_zoom {T A : Type} (I' : T -> Prop)
    (proj : S -> T) (upd : T -> S -> S) (m : M T A) :
  triple I' P m ->
  (forall s, I s -> I' (proj s)) ->
  (forall t s, I s -> I' t -> I (upd t s)) ->
  triple I P (zoom proj upd m).
Proof.
  intros Hm Hproj Hupd s H. unfold zoom.
  destruct (Hm (proj s) (Hproj s H)) as [H1 L1].
  destruct (m (proj s)) as [t l r]; simpl in *.
  split; [now apply Hupd|exact L1].
Qed.

End Triples.

Lemma triple_weaken {S A : Type} (I : S -> Prop) (P Q : event -> Prop)
    (m : M S A) :
  (forall ev, P ev -> Q ev) -> triple I P m -> triple I Q m.
Proof.
  intros HPQ Hm s H. destruct (Hm s H) as [H1 L1].
  split; [exact H1|]. eapply Forall_impl; [exact HPQ|exact L1].
Qed.

Lemma triple_put {S : Type} (P : event -> Prop) (s : S) :
  triple (fun _ => True) P (put s).
Proof. intros s0 _. split; [exact I|constructor]. Qed.

Create HintDb triples.
#[local] Hint Resolve triple_ret triple_lift triple_get triple_logger
  triple_bind triple_try_except triple_put : triples.

(** A method whose only effect on the world is on the simulator and on the
    random generator keeps every invariant of the risk manager. *)
Lemma triple_market {A : Type} (J : RiskManager.t -> Prop)
    (P : event -> Prop) (m : M (MockMarket.t * Random.state) A) :
  triple (fun _ => True) P m ->
  triple (fun w => J (risk w)) P (zoom market set_market m).
Proof.
  intros Hm.
  apply triple_zoom with (I' := fun _ => True); [exact Hm|auto|].
  intros t s H _. exact H.
Qed.

Lemma triple_risk {A : Type} (J : RiskManager.t -> Prop)
    (P : event -> Prop) (m : M RiskManager.t A) :
  triple J P m ->
  triple (fun w => J (risk w)) P (zoom risk set_risk m).
Proof.
  intros Hm.
  apply triple_zoom with (I' := J); [exact Hm|auto|].
  intros t s _ H. exact H.
Qed.

(* ===================================================================== *)
(** ** What each method does to the world and to the log *)

Section MethodFacts.

Variable cfg : Config.
Variable draws : nat -> Q.
Variable client : ExchangeClient.t.

(** [J] is an invariant of the risk manager that [check] keeps; [P] holds
    of every event that is not an order. *)
Variable J : RiskManager.t -> Prop.
Variable P : event -> Prop.
Hypothesis J_check :
  forall total_value positions rm,
    J rm -> J (out_state (RiskManager.check total_value positions rm)).
Hypothesis P_quiet : forall ev, order_of ev = None -> P ev.

Let W (w : World) : Prop := J (risk w).

Lemma update_loop_quiet (syms : list string) :
  triple (fun _ => True) P (MockMarket.update_loop draws syms).
Proof.
  induction syms as [|sym syms IH]; simpl; auto with triples.
  apply triple_bind.
  - apply triple_zoom with (I' := fun _ => True); auto.
    intros n _. split; [exact I|constructor].
  - intros change. repeat (apply triple_bind; auto with triples; intros).
Qed.

Lemma update_quiet : triple (fun _ => True) P (MockMarket.update draws).
Proof.
  unfold MockMarket.update.
  repeat (apply triple_bind; auto using update_loop_quiet with triples; intros).
Qed.

Lemma mock_price_triple (symbol : string) :
  triple W P (ExchangeClient.mock_price draws symbol).
Proof.
  unfold ExchangeClient.mock_price.
  apply triple_bind; [apply triple_market, update_quiet|intros].
  repeat (apply triple_bind; auto with triples; intros).
Qed.

Lemma fetch_price_triple (symbol : string) :
  triple W P (ExchangeClient.fetch_price cfg draws client symbol).
Proof.
  unfold ExchangeClient.fetch_price.
  destruct (FORCE_HORUS_422 cfg); [apply mock_price_triple|].
  apply triple_try_except; auto with triples.
  intros e. apply triple_bind; [|intros; apply mock_price_triple].
  apply triple_logger. now apply P_quiet.
Qed.

Lemma get_balance_triple :
  triple W P (ExchangeClient.get_balance cfg client).
Proof.
  unfold ExchangeClient.get_balance.
  destruct (DRY_RUN cfg); auto with triples.
Qed.

Lemma fetch_prices_triple (syms : list string) (prices : dict) :
  triple W P (DynamicMomentumBot.fetch_prices cfg draws client syms prices).
Proof.
  revert prices. induction syms as [|sym syms IH]; intros prices; simpl;
    auto using fetch_price_triple with triples.
Qed.

Lemma fill_positions_triple (syms : list string)
    (balance prices positions : dict) :
  triple W P (DynamicMomentumBot.fill_positions syms balance prices positions).
Proof.
  revert positions. induction syms as [|sym syms IH]; intros positions;
    simpl; auto with triples.
Qed.

Lemma momentum_return_triple (sym : string) :
  triple W P (DynamicMomentumBot.momentum_return cfg client sym).
Proof.
  unfold DynamicMomentumBot.momentum_return.
  destruct (FORCE_HORUS_422 cfg); [auto with triples|].
  apply triple_try_except; [|auto with triples].
  repeat (apply triple_bind; auto with triples; intros).
Qed.

Lemma fill_targets_triple (syms : list string) (positions targets : dict) :
  triple W P (DynamicMomentumBot.fill_targets cfg client syms positions targets).
Proof.
  revert targets. induction syms as [|sym syms IH]; intros targets; simpl;
    auto with triples.
  apply triple_bind; [apply momentum_return_triple|intros r].
  apply triple_bind; auto with triples.
Qed.

Lemma mock_returns_triple (syms : list string) (returns : dict) :
  triple W P (DynamicMomentumBot.mock_returns syms returns).
Proof.
  revert returns. induction syms as [|sym syms IH]; intros returns; simpl;
    auto with triples.
Qed.

Lemma check_exposure_quiet (values : list Q) (total_value : Q) :
  triple (fun _ => True) P (RiskManager.check_exposure values total_value).
Proof.
  induction values as [|v values IH]; simpl; auto with triples.
  apply triple_bind; auto with triples. intros self.
  apply triple_bind; auto with triples. intros share.
  destruct (Qltb _ _); auto with triples.
Qed.

Lemma check_triple (total_value : Q) (positions : dict) :
  triple W P (zoom risk set_risk (RiskManager.check total_value positions)).
Proof.
  apply triple_risk. intros rm Hrm. split; [now apply J_check|].
  assert (H : triple (fun _ => True) P
                (RiskManager.check total_value positions)).
  { unfold RiskManager.check.
    apply triple_bind; auto with triples. intros self.
    apply triple_bind; auto with triples. intros _.
    apply triple_bind; auto with triples. intros self'.
    apply triple_bind; auto with triples. intros dd.
    destruct (Qltb _ dd); auto with triples.
    apply triple_bind; [apply check_exposure_quiet|intros within].
    destruct within; simpl; auto with triples.
    destruct (Qltb _ _); auto with triples. }
  now apply H.
Qed.

(** The steps of a cycle before the rebalance loop, and the loop itself
    if it is given to satisfy the triple. *)
Lemma step_body_triple :
  (forall items positions prices total_value,
      triple W P (DynamicMomentumBot.rebalance cfg client items positions
                    prices total_value)) ->
  triple W P (DynamicMomentumBot.step_body cfg draws client).
Proof.
  intros Hreb. unfold DynamicMomentumBot.step_body.
  apply triple_bind; [apply fetch_prices_triple|intros prices].
  apply triple_bind; [auto with triples|intros _].
  apply triple_bind; [apply get_balance_triple|intros balance].
  apply triple_bind; [apply fill_positions_triple|intros positions].
  apply triple_bind; [auto with triples|intros _].
  apply triple_bind; [apply check_triple|intros allowed].
  destruct allowed; cbn [negb]; [|auto with triples].
  apply triple_bind; [apply fill_targets_triple|intros targets].
  apply triple_bind; [apply mock_returns_triple|intros returns].
  apply triple_bind; [auto with triples|intros _].
  apply triple_bind; [auto with triples|intros _].
  apply Hreb.
Qed.

Lemma step_triple :
  (forall items positions prices total_value,
      triple W P (DynamicMomentumBot.rebalance cfg client items positions
                    prices total_value)) ->
  triple W P (DynamicMomentumBot.step cfg draws client).
Proof.
  intros Hreb. unfold DynamicMomentumBot.step.
  apply triple_try_except; [now apply step_body_triple|].
  intros e. auto with triples.
Qed.

End MethodFacts.

Section RebalanceState.

Variable cfg : Config.
Variable client : ExchangeClient.t.
Variable J : RiskManager.t -> Prop.

Let W (w : World) : Prop := J (risk w).
Let any (_ : event) : Prop := True.

Lemma place_order_state (symbol : string) (sd : side) (amount : Q) :
  triple W any (ExchangeClient.place_order cfg client symbol sd amount).
Proof.
  unfold ExchangeClient.place_order.
  destruct (Qeq_bool amount 0); auto with triples.
  destruct (DRY_RUN cfg).
  - apply triple_logger. exact I.
  - apply triple_try_except.
    + apply triple_bind; [apply triple_logger; exact I|auto with triples].
    + intros e. apply triple_logger. exact I.
Qed.

Lemma rebalance_one_state (positions prices : dict) (total_value : Q)
    (sym : string) (target_usd : Q) :
  triple W any (DynamicMomentumBot.rebalance_one cfg client positions prices
                  total_value sym target_usd).
Proof.
  unfold DynamicMomentumBot.rebalance_one.
  apply triple_bind; [auto with triples|intros current_usd].
  destruct (Qltb _ _); [|auto with triples].
  apply triple_bind; [auto with triples|intros price].
  apply triple_bind; [auto with triples|intros amount].
  apply triple_bind; [apply place_order_state|intros _].
  apply triple_logger. exact I.
Qed.

Lemma rebalance_state (items : list (string * Q)) (positions prices : dict)
    (total_value : Q) :
  triple W any (DynamicMomentumBot.rebalance cfg client items positions
                  prices total_value).
Proof.
  induction items as [|[sym target_usd] items IH]; simpl;
    [auto with triples|].
  apply triple_bind; [apply rebalance_one_state|intros _; exact IH].
Qed.

End RebalanceState.

(** A cycle leaves the risk manager in a state the program can hold. *)
Lemma step_reachable (cfg : Config) (draws : nat -> Q)
    (client : ExchangeClient.t) (w : World) :
  reachable (risk w) ->
  reachable (risk (out_state (DynamicMomentumBot.step cfg draws client w))).
Proof.
  intros H.
  apply (@step_triple cfg draws client reachable (fun _ => True)); auto.
  - intros. now constructor.
  - intros. apply rebalance_state.
Qed.

Lemma run_reachable (cfg : Config) (draws : nat -> Q)
    (clients : nat -> ExchangeClient.t) (n k : nat) (w : World) :
  reachable (risk w) ->
  reachable (risk (out_state (DynamicMomentumBot.run cfg draws clients k n w))).
Proof.
  revert k w. induction n as [|n IH]; intros k w H; simpl; [exact H|].
  unfold bind.
  pose proof (@step_reachable cfg draws (clients k) w H) as Hstep.
  destruct (DynamicMomentumBot.step cfg draws (clients k) w) as [w1 l1 [u|e]];
    simpl in *; [|exact Hstep].
  specialize (IH (Datatypes.S k) w1 Hstep).
  destruct (DynamicMomentumBot.run cfg draws clients (Datatypes.S k) n w1);
    simpl in *. exact IH.
Qed.

(* ===================================================================== *)
(** ** The cycle and the loop *)

(** A message without braces is formatted to itself. *)
Lemma format_brace_free (s : string) :
  brace_free s -> Loguru.format s = Ok s.
Proof.
  unfold Loguru.format, brace_free.
  induction s as [|c s IH]; intros H; [reflexivity|].
  assert (Hc : c <> "{"%char /\ c <> "}"%char) by (apply H; now left).
  destruct Hc as [Ho Hc].
  apply Ascii.eqb_neq in Ho. apply Ascii.eqb_neq in Hc.
  simpl. rewrite Ho, Hc.
  rewrite IH; [reflexivity|]. intros c' Hin. apply H. now right.
Qed.

(** What [step] makes of its body: the outcome of the body if it returns;
    if it raises [e], the log line of the handler when the message can be
    formatted, and otherwise the exception of the formatting, which leaves
    [step]. *)
Lemma step_outcome (cfg : Config) (draws : nat -> Q)
    (client : ExchangeClient.t) (w : World) :
  let body := DynamicMomentumBot.step_body cfg draws client w in
  DynamicMomentumBot.step cfg draws client w
  = match out_res body with
    | Ok _ => body
    | Raise e =>
        match Loguru.format ("step 错误: " ++ str e) with
        | Ok _ => Out (out_state body) (out_log body ++ [StepError e]) (Ok tt)
        | Raise e' => Out (out_state body) (out_log body ++ []) (Raise e')
        end
    end.
Proof.
  intros body. subst body.
  unfold DynamicMomentumBot.step, try_except.
  destruct (DynamicMomentumBot.step_body cfg draws client w)
    as [w1 l1 [[]|e]]; simpl; [reflexivity|].
  unfold bind, lift, logger.
  destruct (Loguru.format _); reflexivity.
Qed.

(** The handler adds at most its one line to the log of the body, and
    leaves the state as the body left it. *)
Lemma step_log_state (cfg : Config) (draws : nat -> Q)
    (client : ExchangeClient.t) (w : World) :
  let body := DynamicMomentumBot.step_body cfg draws client w in
  let cycle := DynamicMomentumBot.step cfg draws client w in
  out_state cycle = out_state body /\
  (out_log cycle = out_log body \/
   exists e, out_res body = Raise e /\
             out_log cycle = out_log body ++ [StepError e]).
Proof.
  intros body cycle. subst cycle. rewrite step_outcome. fold body.
  destruct (out_res body) as [u|e] eqn:E; [now split; [|left]|].
  destruct (Loguru.format _); cbn [out_state out_log].
  - split; [reflexivity|]. right. now exists e.
  - rewrite app_nil_r. split; [reflexivity|now left].
Qed.


Lemma handler_message_brace_free (e : exn) :
  brace_free (str e) -> brace_free ("step 错误: " ++ str e).
Proof.
  unfold brace_free. intros H c Hin. simpl in Hin.
  repeat (destruct Hin as [<-|Hin]; [split; discriminate|]).
  now apply H.
Qed.

(** X22.  [step] lets an exception out only from its handler.  When the
    body returns, [step] is its body.  When the body raises an exception
    whose text holds no brace, [step] returns normally, and its log is the
    log of the body followed by the line of the handler.  And when [step]
    raises, its body raised an exception whose text holds a brace, what
    leaves [step] is the exception of formatting the handler's message, and
    the handler has logged nothing. *)
Theorem step_raises_only_from_handler (cfg : Config) (draws : nat -> Q)
    (client : ExchangeClient.t) (w : World) :
  let body := DynamicMomentumBot.step_body cfg draws client w in
  let cycle := DynamicMomentumBot.step cfg draws client w in
  (forall u, out_res body = Ok u -> cycle = body) /\
  (forall e, out_res body = Raise e -> brace_free (str e) ->
             out_res cycle = Ok tt /\
             out_log cycle = out_log body ++ [StepError e]) /\
  (forall e', out_res cycle = Raise e' ->
              exists e, out_res body = Raise e /\
                        ~ brace_free (str e) /\
                        Loguru.format ("step 错误: " ++ str e) = Raise e' /\
                        out_log cycle = out_log body).
Proof.
  intros body cycle. subst cycle. rewrite step_outcome. fold body.
  destruct (out_res body) as [u|e] eqn:E.
  - split; [reflexivity|]. split; [discriminate|].
    intros e' H. rewrite E in H. discriminate.
  - split; [discriminate|]. split.
    + intros e0 H Hfree. injection H as <-.
      rewrite (@format_brace_free _ (@handler_message_brace_free e Hfree)).
      now split.
    + intros e' H. exists e. split; [reflexivity|].
      destruct (Loguru.format ("step 错误: " ++ str e)) as [m|e0] eqn:F;
        [discriminate|].
      cbn [out_res out_log] in *. injection H as ->.
      split; [|split; [reflexivity|apply app_nil_r]].
      intros Hfree.
      rewrite (@format_brace_free _ (@handler_message_brace_free e Hfree)) in F.
      discriminate.
Qed.

(** C9.  In every state the program reaches, after any number of cycles
    with any collaborators, [today_pnl] still has its initial value 0: the
    daily-loss test is false, and a call to [check] never logs the
    daily-loss warning; when it returns [False] it is the drawdown rule or
    the exposure rule that fired. *)
Theorem daily_loss_rule_never_fires (cfg : Config) (draws : nat -> Q)
    (clients : nat -> ExchangeClient.t) (k n : nat)
    (total_value : Q) (positions : dict) :
  let w := out_state (DynamicMomentumBot.run cfg draws clients k n init_world) in
  let after := RiskManager.check total_value positions (risk w) in
  RiskManager.today_pnl (risk w) = 0 /\
  RiskManager.today_pnl (risk (out_state
     (DynamicMomentumBot.step cfg draws (clients (k + n)%nat) w))) = 0 /\
  Qltb (RiskManager.today_pnl (risk w))
       (- RiskManager.daily_loss_limit (risk w) * INITIAL_CASH) = false /\
  ~ In (RiskWarning DailyLoss) (out_log after) /\
  (out_res after = Ok false ->
   out_log after = [RiskWarning MaxDrawdown] \/
   out_log after = [RiskWarning MaxPerAsset]).
Proof.
  intros w after.
  assert (Hreach : reachable (risk w))
    by (apply run_reachable; apply reachable_init).
  pose proof (reachable_settled Hreach) as Hset.
  pose proof (reachable_settled
                (@step_reachable cfg draws (clients (k + n)%nat) w Hreach))
    as Hset'.
  destruct Hset as (Hd & Ha & Hl & Hp & Hpk).
  destruct Hset' as (_ & _ & _ & Hp' & _).
  split; [exact Hp|]. split; [exact Hp'|].
  split; [rewrite Hp, Hl; reflexivity|].
  assert (Hset : settled (risk w)) by (repeat split; assumption).
  subst after.
  destruct (check_cases total_value positions Hset)
    as [_ [[_ E]|[[_ [_ E]]|[_ [_ E]]]]]; rewrite E; simpl.
  - split; [intros [H|[]]; discriminate|]. intros _. now left.
  - split; [intros [H|[]]; discriminate|]. intros _. now right.
  - split; [intros []|]. discriminate.
Qed.


(* ===================================================================== *)
(** ** Dictionaries *)



Lemma dict_item_ok (d : dict) (k : string) (v : Q) :
  dict_get d k = Some v -> dict_item d k = Ok v.
Proof. intros H. unfold dict_item. now rewrite H. Qed.

(* ===================================================================== *)
(** ** Momentum targets *)

(** Case analysis on the innermost scrutinee, until no [match] is left. *)
Ltac split_matches :=
  repeat match goal with
         | |- context [match ?x with _ => _ end] =>
             lazymatch x with
             | context [match _ with _ => _ end] => fail
             | _ => destruct x; simpl
             end
         end.


(** With forced fallback off, a failure of the quote service is a return
    of 0, never an exception. *)
Lemma momentum_return_live (cfg : Config) (client : ExchangeClient.t)
    (sym : string) (w : World) :
  FORCE_HORUS_422 cfg = false ->
  exists r, out_res (DynamicMomentumBot.momentum_return cfg client sym w) = Ok r.
Proof.
  intros Hlive. unfold DynamicMomentumBot.momentum_return. rewrite Hlive.
  unfold try_except, bind, lift, ret.
  split_matches; eexists; reflexivity.
Qed.




Example scenario_btc_target :
  exists targets t,
    out_res (DynamicMomentumBot.fill_targets dry_forced quiet_client SYMBOLS
               scenario_positions [] scenario_world) = Ok targets /\
    dict_get targets "BTC/USD" = Some t /\ t == 146000.
Proof.
  eexists. eexists. split; [vm_compute; reflexivity|].
  split; [vm_compute; reflexivity|]. vm_compute. reflexivity.
Qed.

(* ===================================================================== *)
(** ** The dead-band of the rebalance loop *)

Lemma triple_bind_lift {S A B : Type} (I : S -> Prop) (P : event -> Prop)
    (r : result A) (k : A -> M S B) :
  (forall a, r = Ok a -> triple I P (k a)) -> triple I P (bind (lift r) k).
Proof.
  intros Hk s H. unfold bind, lift.
  destruct r as [a|e]; simpl; [|split; [exact H|constructor]].
  destruct (Hk a eq_refl s H) as [H2 L2].
  destruct (k a s) as [s2 l2 r2]; simpl in *. now split.
Qed.

Lemma place_order_events (cfg : Config) (client : ExchangeClient.t)
    (symbol : string) (sd : side) (amount : Q) :
  triple (fun _ : World => True)
    (fun ev => forall sym quantity,
         order_of ev = Some (sym, quantity) ->
         sym = symbol /\ quantity = Qabs amount)
    (ExchangeClient.place_order cfg client symbol sd amount).
Proof.
  unfold ExchangeClient.place_order.
  destruct (Qeq_bool amount 0); auto with triples.
  destruct (DRY_RUN cfg).
  - apply triple_logger. simpl. intros sym quantity H.
    injection H as <- <-. now split.
  - apply triple_try_except.
    + apply triple_bind; [|auto with triples].
      apply triple_logger. simpl. intros sym quantity H.
      injection H as <- <-. now split.
    + intros e. apply triple_logger. simpl. discriminate.
Qed.

Lemma rebalance_one_events (cfg : Config) (client : ExchangeClient.t)
    (positions prices : dict) (total_value : Q)
    (sym : string) (target_usd : Q) :
  triple (fun _ : World => True)
    (order_justified [(sym, target_usd)] positions prices total_value)
    (DynamicMomentumBot.rebalance_one cfg client positions prices total_value
       sym target_usd).
Proof.
  unfold DynamicMomentumBot.rebalance_one.
  apply triple_bind_lift. intros current_usd Hcur.
  destruct (Qltb 500 _) eqn:Eband; [|auto with triples].
  apply Qltb_true in Eband.
  apply triple_bind_lift. intros price Hprice.
  apply triple_bind_lift. intros amount Hamount.
  assert (Eamount : amount = DynamicMomentumBot.cap_diff total_value current_usd
                               (target_usd - current_usd) / price).
  { unfold pydiv in Hamount. destruct (Qeq_bool price 0); [discriminate|].
    now injection Hamount as <-. }
  apply triple_bind.
  - eapply triple_weaken; [|apply place_order_events].
    intros ev Hev s q Hord. destruct (Hev s q Hord) as [-> ->].
    exists target_usd, current_usd, price.
    split; [now left|]. split; [exact Hcur|]. split; [exact Hprice|].
    split; [exact Eband|now rewrite Eamount].
  - intros _. apply triple_logger. intros s q Hord. discriminate.
Qed.

Lemma order_justified_more (item : string * Q) (items : list (string * Q))
    (positions prices : dict) (total_value : Q) (ev : event) :
  order_justified [item] positions prices total_value ev \/
  order_justified items positions prices total_value ev ->
  order_justified (item :: items) positions prices total_value ev.
Proof.
  intros [H|H] sym q Hord; destruct (H sym q Hord) as (t & c & p & Hin & Hrest);
    exists t, c, p; (split; [|exact Hrest]).
  - destruct Hin as [<-|[]]. now left.
  - now right.
Qed.

Lemma rebalance_events (cfg : Config) (client : ExchangeClient.t)
    (items : list (string * Q)) (positions prices : dict) (total_value : Q) :
  triple (fun _ : World => True)
    (order_justified items positions prices total_value)
    (DynamicMomentumBot.rebalance cfg client items positions prices total_value).
Proof.
  induction items as [|[sym target_usd] items IH]; simpl;
    [auto with triples|].
  apply triple_bind.
  - eapply triple_weaken; [|apply rebalance_one_events].
    intros ev H. apply order_justified_more. now left.
  - intros _. eapply triple_weaken; [|exact IH].
    intros ev H. apply order_justified_more. now right.
Qed.

(** Inside the dead-band the loop body does nothing at all. *)
Lemma rebalance_one_skips (cfg : Config) (client : ExchangeClient.t)
    (positions prices : dict) (total_value : Q)
    (sym : string) (target_usd current_usd : Q) (w : World) :
  dict_item positions sym = Ok current_usd ->
  Qabs (DynamicMomentumBot.cap_diff total_value current_usd
          (target_usd - current_usd)) <= 500 ->
  DynamicMomentumBot.rebalance_one cfg client positions prices total_value
    sym target_usd w = Out w [] (Ok tt).
Proof.
  intros Hcur Hband. unfold DynamicMomentumBot.rebalance_one, bind, lift.
  rewrite Hcur. simpl.
  apply Qltb_false in Hband. rewrite Hband. reflexivity.
Qed.

(** C7.  The rebalance loop places an order for a symbol only when the
    capped difference of that symbol exceeds 500 in absolute value: every
    order in its log is justified by its inputs, a symbol whose capped
    difference is within the dead-band leaves no trace at all, and every
    order logged by a cycle is logged by its rebalance loop. *)
Theorem no_order_within_dead_band (cfg : Config) (draws : nat -> Q)
    (client : ExchangeClient.t) :
  (forall items positions prices total_value w ev,
      In ev (out_log (DynamicMomentumBot.rebalance cfg client items positions
                        prices total_value w)) ->
      order_justified items positions prices total_value ev) /\
  (forall positions prices total_value sym target_usd current_usd w,
      dict_item positions sym = Ok current_usd ->
      Qabs (DynamicMomentumBot.cap_diff total_value current_usd
              (target_usd - current_usd)) <= 500 ->
      DynamicMomentumBot.rebalance_one cfg client positions prices total_value
        sym target_usd w = Out w [] (Ok tt)) /\
  (forall w ev,
      In ev (out_log (DynamicMomentumBot.step cfg draws client w)) ->
      order_of ev <> None ->
      exists items positions prices total_value w',
        In ev (out_log (DynamicMomentumBot.rebalance cfg client items positions
                          prices total_value w')) /\
        order_justified items positions prices total_value ev).
Proof.
  split; [|split].
  - intros items positions prices total_value w ev Hin.
    pose proof (rebalance_events cfg client items positions prices
                  total_value) as Hreb.
    destruct (Hreb w I) as [_ Hall].
    rewrite Forall_forall in Hall. now apply Hall.
  - intros. now apply rebalance_one_skips with (current_usd := current_usd).
  - intros w ev Hin Hord.
    set (P := fun ev =>
           order_of ev <> None ->
           exists items positions prices total_value w',
             In ev (out_log (DynamicMomentumBot.rebalance cfg client items
                               positions prices total_value w')) /\
             order_justified items positions prices total_value ev).
    assert (Hstep : triple (fun w : World => (fun _ => True) (risk w)) P
                      (DynamicMomentumBot.step cfg draws client)).
    { apply (@step_triple cfg draws client (fun _ => True) P).
      - intros; exact I.
      - intros ev0 Hnone Hsome. contradiction.
      - intros items positions prices total_value s _. split; [exact I|].
        apply Forall_forall. intros ev0 Hin0 _.
        exists items, positions, prices, total_value, s.
        split; [exact Hin0|].
        pose proof (rebalance_events cfg client items positions prices
                      total_value) as Hreb.
        destruct (Hreb s I) as [_ Hall].
        rewrite Forall_forall in Hall. now apply Hall. }
    destruct (Hstep w I) as [_ Hall].
    rewrite Forall_forall in Hall. now apply (Hall ev Hin).
Qed.

(* ===================================================================== *)
(** ** Price resolution *)

Lemma dict_get_in (d : dict) (k : string) :
  In k (dict_keys d) -> exists v, dict_get d k = Some v.
Proof.
  induction d as [|[k' v'] d IH]; simpl; [intros []|].
  intros [->|Hin].
  - rewrite String.eqb_refl. now exists v'.
  - destruct (String.eqb k' k); [now exists v'|now apply IH].
Qed.

Lemma dict_set_keys (d : dict) (k : string) (v : Q) :
  In k (dict_keys d) -> dict_keys (dict_set d k v) = dict_keys d.
Proof.
  induction d as [|[k' v'] d IH]; simpl; [intros []|].
  intros Hin. destruct (String.eqb_spec k' k) as [->|Hne]; simpl;
    [reflexivity|].
  f_equal. apply IH. destruct Hin as [E|Hin]; [contradiction|exact Hin].
Qed.

(** The loop of [update] draws once per key, never raises, and leaves the
    keys and the previous prices as they are. *)
Lemma update_loop_run (draws : nat -> Q) (syms : list string)
    (m : MockMarket.t) (n : nat) :
  (forall s, In s syms -> In s (dict_keys (MockMarket.prices m))) ->
  exists prices',
    MockMarket.update_loop draws syms (m, n)
    = Out ({| MockMarket.prices := prices';
              MockMarket.prev_prices := MockMarket.prev_prices m |},
           (n + List.length syms)%nat) [] (Ok tt) /\
    dict_keys prices' = dict_keys (MockMarket.prices m).
Proof.
  revert m n. induction syms as [|sym syms IH]; intros m n Hkeys; simpl.
  - exists (MockMarket.prices m). rewrite Nat.add_0_r.
    destruct m; split; reflexivity.
  - assert (Hsym : In sym (dict_keys (MockMarket.prices m)))
      by (apply Hkeys; now left).
    destruct (dict_get_in _ _ Hsym) as [p Hp].
    unfold bind, zoom, Random.uniform, get, put, lift; simpl.
    rewrite (dict_item_ok _ _ Hp). simpl.
    set (m1 := MockMarket.set_prices
                 (dict_set (MockMarket.prices m) sym (p * (1 + draws n))) m).
    destruct (IH m1 (Datatypes.S n)) as [prices' [Hrun Hk]].
    { intros s Hs. subst m1; simpl. rewrite dict_set_keys by exact Hsym.
      apply Hkeys. now right. }
    exists prices'. unfold Random.state in *. rewrite Hrun. simpl.
    replace (n + Datatypes.S (List.length syms))%nat
      with (Datatypes.S (n + List.length syms))%nat by lia.
    split; [reflexivity|].
    rewrite Hk. subst m1; simpl. now apply dict_set_keys.
Qed.

(** A price taken from the simulator moves the simulator first: the prices
    of all symbols become the previous prices, every symbol gets a new
    price from a fresh draw, and the risk manager is not touched. *)
Lemma mock_price_moves_market (draws : nat -> Q) (symbol : string) (w : World) :
  exists prices',
    ExchangeClient.mock_price draws symbol w
    = Out {| risk := risk w;
             mock := {| MockMarket.prices := prices';
                        MockMarket.prev_prices := MockMarket.prices (mock w) |};
             random_state :=
               (random_state w + List.length (MockMarket.prices (mock w)))%nat |}
          [] (dict_item prices' symbol) /\
    dict_keys prices' = dict_keys (MockMarket.prices (mock w)).
Proof.
  unfold ExchangeClient.mock_price, MockMarket.update.
  destruct (@update_loop_run draws (dict_keys (MockMarket.prices (mock w)))
              {| MockMarket.prices := MockMarket.prices (mock w);
                 MockMarket.prev_prices := MockMarket.prices (mock w) |}
              (random_state w)) as [prices' [Hrun Hk]]; [auto|].
  exists prices'. simpl in Hk. split; [|exact Hk].
  unfold bind, zoom, get, put, lift, ret, market, set_market; simpl.
  unfold Random.state in *.
  rewrite Hrun. simpl. unfold dict_keys. rewrite length_map.
  unfold MockMarket.get_price. simpl.
  destruct (dict_item prices' symbol); reflexivity.
Qed.

(** C2, as the code has it.  With forced fallback off and the quote
    service answering for both symbols, resolving their prices in either
    order gives each symbol the same price, logs nothing and leaves the
    world (simulator and generator included) as it was. *)
Theorem live_price_resolution_order_independent
    (cfg : Config) (draws : nat -> Q) (client : ExchangeClient.t)
    (s1 s2 : string) (w : World) (p1 p2 : Q) :
  FORCE_HORUS_422 cfg = false ->
  HorusClient.get_latest_price (ExchangeClient.horus client) (split_head s1)
  = Ok p1 ->
  HorusClient.get_latest_price (ExchangeClient.horus client) (split_head s2)
  = Ok p2 ->
  fetch_two cfg draws client s1 s2 w = Out w [] (Ok (p1, p2)) /\
  fetch_two cfg draws client s2 s1 w = Out w [] (Ok (p2, p1)) /\
  ExchangeClient.fetch_price cfg draws client s1 w = Out w [] (Ok p1) /\
  ExchangeClient.fetch_price cfg draws client s2 w = Out w [] (Ok p2).
Proof.
  intros Hlive H1 H2.
  assert (F1 : ExchangeClient.fetch_price cfg draws client s1 w
               = Out w [] (Ok p1)).
  { unfold ExchangeClient.fetch_price, try_except, lift.
    now rewrite Hlive, H1. }
  assert (F2 : ExchangeClient.fetch_price cfg draws client s2 w
               = Out w [] (Ok p2)).
  { unfold ExchangeClient.fetch_price, try_except, lift.
    now rewrite Hlive, H2. }
  split; [|split; [|split; assumption]]; unfold fetch_two, bind, ret.
  - rewrite F1. simpl. rewrite F2. reflexivity.
  - rewrite F2. simpl. rewrite F1. reflexivity.
Qed.

Lemma live_price_resolution_order_independent_witness :
  fetch_two dry_live steady_draws quoting_client "BTC/USD" "ETH/USD" init_world
  = Out init_world [] (Ok (68000, 3500)) /\
  fetch_two dry_live steady_draws quoting_client "ETH/USD" "BTC/USD" init_world
  = Out init_world [] (Ok (3500, 68000)) /\
  ExchangeClient.fetch_price dry_live steady_draws quoting_client "BTC/USD"
    init_world = Out init_world [] (Ok 68000) /\
  ExchangeClient.fetch_price dry_live steady_draws quoting_client "ETH/USD"
    init_world = Out init_world [] (Ok 3500).
Proof.
  apply (@live_price_resolution_order_independent dry_live steady_draws
           quoting_client "BTC/USD" "ETH/USD" init_world 68000 3500);
    reflexivity.
Defined.

(** C2, as the specification states it, fails in forced-fallback mode.
    From the initial world, with every draw at +0.5%: resolved first, ETH is
    3500 * 1.005 = 3517.5; resolved after BTC, the simulator has moved
    twice and ETH is 3500 * 1.005 * 1.005 = 3535.0875 (and likewise for
    BTC: 68340 first, 68681.7 second). *)
Lemma forced_price_resolution_depends_on_order :
  (forall n, - (1 # 100) <= steady_draws n /\ steady_draws n <= 1 # 100) /\
  (exists p1 p2 q1 q2,
      out_res (fetch_two dry_forced steady_draws quiet_client
                 "BTC/USD" "ETH/USD" init_world) = Ok (p1, p2) /\
      out_res (fetch_two dry_forced steady_draws quiet_client
                 "ETH/USD" "BTC/USD" init_world) = Ok (q2, q1) /\
      p1 == 68340 /\ p2 == 3535.0875 /\ q2 == 3517.5 /\ q1 == 68681.7 /\
      ~ p1 == q1 /\ ~ p2 == q2) /\
  (exists q2,
      out_res (ExchangeClient.fetch_price dry_forced steady_draws quiet_client
                 "ETH/USD" init_world) = Ok q2 /\ q2 == 3517.5) /\
  ~ price_resolution_order_independent.
Proof.
  assert (Hrange : forall n, - (1 # 100) <= steady_draws n /\
                             steady_draws n <= 1 # 100).
  { intros n. unfold steady_draws. split; lra. }
  split; [exact Hrange|]. split; [|split].
  - eexists. eexists. eexists. eexists.
    split; [vm_compute; reflexivity|]. split; [vm_compute; reflexivity|].
    repeat split; try (vm_compute; reflexivity);
      intros H; vm_compute in H; discriminate.
  - eexists. split; [vm_compute; reflexivity|]. vm_compute. reflexivity.
  - intros Hclaim.
    assert (H : 141403500 # 40000 == 703500 # 200).
    { apply (Hclaim dry_forced steady_draws quiet_client
               "BTC/USD"%string "ETH/USD"%string init_world
               (13668000 # 200) (141403500 # 40000)
               (2747268000 # 40000) (703500 # 200) Hrange).
      - discriminate.
      - vm_compute. reflexivity.
      - vm_compute. reflexivity. }
    vm_compute in H. discriminate.
Qed.


(* ===================================================================== *)
(** ** The simulator *)

Lemma dict_get_app_out (pre d : dict) (k : string) :
  ~ In k (dict_keys pre) -> dict_get (pre ++ d) k = dict_get d k.
Proof.
  induction pre as [|[k' v'] pre IH]; simpl; [reflexivity|].
  intros Hout. destruct (String.eqb_spec k' k) as [->|Hne].
  - exfalso. apply Hout. now left.
  - apply IH. intros H. apply Hout. now right.
Qed.

Lemma dict_set_app_out (pre d : dict) (k : string) (v : Q) :
  ~ In k (dict_keys pre) -> dict_set (pre ++ d) k v = pre ++ dict_set d k v.
Proof.
  induction pre as [|[k' v'] pre IH]; simpl; [reflexivity|].
  intros Hout. destruct (String.eqb_spec k' k) as [->|Hne].
  - exfalso. apply Hout. now left.
  - f_equal. apply IH. intros H. apply Hout. now right.
Qed.

Lemma moved_prices_keys (draws : nat -> Q) (n : nat) (d : dict) :
  dict_keys (moved_prices draws n d) = dict_keys d.
Proof.
  revert n. induction d as [|[k p] d IH]; intros n; simpl; [reflexivity|].
  f_equal. apply IH.
Qed.

Lemma moved_prices_length (draws : nat -> Q) (n : nat) (d : dict) :
  List.length (moved_prices draws n d) = List.length d.
Proof.
  revert n. induction d as [|[k p] d IH]; intros n; simpl; [reflexivity|].
  f_equal. apply IH.
Qed.

(** The loop of [update] over the keys not yet visited: the entries before
    them are left alone, each visited price is moved by its own draw. *)
Lemma update_loop_exact (draws : nat -> Q) (rest pre prev : dict) (n : nat) :
  NoDup (dict_keys (pre ++ rest)) ->
  MockMarket.update_loop draws (dict_keys rest)
    ({| MockMarket.prices := pre ++ rest; MockMarket.prev_prices := prev |}, n)
  = Out ({| MockMarket.prices := pre ++ moved_prices draws n rest;
            MockMarket.prev_prices := prev |},
         (n + List.length rest)%nat) [] (Ok tt).
Proof.
  revert pre n. induction rest as [|[k p] rest IH]; intros pre n Hnd; simpl.
  - rewrite Nat.add_0_r. reflexivity.
  - assert (Hout : ~ In k (dict_keys pre)).
    { unfold dict_keys in Hnd. rewrite map_app in Hnd. simpl in Hnd.
      apply NoDup_remove_2 in Hnd. intros H. apply Hnd.
      apply in_or_app. now left. }
    unfold bind, zoom, Random.uniform, get, put, lift; simpl.
    unfold dict_item. rewrite (@dict_get_app_out pre _ k Hout). simpl.
    rewrite String.eqb_refl. simpl.
    unfold MockMarket.set_prices; simpl.
    rewrite (@dict_set_app_out pre _ k _ Hout). simpl. rewrite String.eqb_refl.
    specialize (IH (pre ++ [(k, p * (1 + draws n))]) (Datatypes.S n)).
    rewrite <- !app_assoc in IH. simpl in IH.
    unfold Random.state in *. rewrite IH.
    + simpl. replace (n + Datatypes.S (List.length rest))%nat
        with (Datatypes.S (n + List.length rest))%nat by lia.
      reflexivity.
    + unfold dict_keys in *. rewrite map_app in *. simpl in *. exact Hnd.
Qed.

Lemma update_run (draws : nat -> Q) (m : MockMarket.t) (n : nat) :
  NoDup (dict_keys (MockMarket.prices m)) ->
  MockMarket.update draws (m, n)
  = Out ({| MockMarket.prices := moved_prices draws n (MockMarket.prices m);
            MockMarket.prev_prices := MockMarket.prices m |},
         (n + List.length (MockMarket.prices m))%nat)
        [] (Ok (moved_prices draws n (MockMarket.prices m))).
Proof.
  intros Hnd.
  unfold MockMarket.update, bind, get, put, ret; simpl.
  pose proof (@update_loop_exact draws (MockMarket.prices m) []
                (MockMarket.prices m) n Hnd) as Hloop.
  simpl in Hloop. unfold Random.state in *. rewrite Hloop. reflexivity.
Qed.

(** X1.  On a simulator whose keys are distinct (as the keys of a dict are),
    [update] never raises and logs nothing; it saves the current prices as
    the previous ones, multiplies the price at each position by one plus a
    fresh draw of its own, keeps the keys and their order, and consumes one
    draw per symbol. *)
Theorem update_moves_every_price (draws : nat -> Q) (m : MockMarket.t)
    (n : nat) :
  NoDup (dict_keys (MockMarket.prices m)) ->
  MockMarket.update draws (m, n)
  = Out ({| MockMarket.prices := moved_prices draws n (MockMarket.prices m);
            MockMarket.prev_prices := MockMarket.prices m |},
         (n + List.length (MockMarket.prices m))%nat)
        [] (Ok (moved_prices draws n (MockMarket.prices m))) /\
  dict_keys (moved_prices draws n (MockMarket.prices m))
  = dict_keys (MockMarket.prices m).
Proof.
  intros Hnd. split; [now apply update_run|apply moved_prices_keys].
Qed.

Lemma update_moves_every_price_witness :
  MockMarket.update steady_draws (MockMarket.init, 0%nat)
  = Out ({| MockMarket.prices :=
              moved_prices steady_draws 0 (MockMarket.prices MockMarket.init);
            MockMarket.prev_prices := MockMarket.prices MockMarket.init |},
         (0 + List.length (MockMarket.prices MockMarket.init))%nat)
        [] (Ok (moved_prices steady_draws 0
                  (MockMarket.prices MockMarket.init))) /\
  dict_keys (moved_prices steady_draws 0 (MockMarket.prices MockMarket.init))
  = dict_keys (MockMarket.prices MockMarket.init).
Proof.
  apply (@update_moves_every_price steady_draws MockMarket.init 0%nat).
  simpl. repeat constructor; simpl; intuition discriminate.
Defined.

Lemma dict_get_nth (d : dict) (i : nat) (k : string) (p : Q) :
  NoDup (dict_keys d) -> nth_error d i = Some (k, p) -> dict_get d k = Some p.
Proof.
  revert i. induction d as [|[k' p'] d IH]; intros i Hnd Hnth.
  - destruct i; discriminate.
  - simpl in Hnd. apply NoDup_cons_iff in Hnd. destruct Hnd as [Hout Hnd].
    destruct i as [|i]; simpl in *.
    + injection Hnth as -> ->. now rewrite String.eqb_refl.
    + destruct (String.eqb_spec k' k) as [->|Hne]; [|now apply IH with i].
      exfalso. apply Hout. apply nth_error_In in Hnth.
      now apply (in_map fst) in Hnth.
Qed.

Lemma SYMBOLS_NoDup : NoDup SYMBOLS.
Proof.
  unfold SYMBOLS. repeat constructor; simpl; intuition discriminate.
Qed.

(* ===================================================================== *)
(** ** The exchange client *)

Lemma dict_get_out (d : dict) (k : string) :
  ~ In k (dict_keys d) -> dict_get d k = None.
Proof.
  induction d as [|[k' v'] d IH]; simpl; [reflexivity|].
  intros Hout. destruct (String.eqb_spec k' k) as [->|Hne].
  - exfalso. apply Hout. now left.
  - apply IH. intros H. apply Hout. now right.
Qed.

(** X4.  For a symbol the simulator knows, [fetch_price] never raises,
    whatever the mode and whatever the quote service answers or raises; and
    with forced fallback on, the quote service has no influence at all on
    the outcome. *)
Theorem fetch_price_never_raises_on_known_symbol
    (cfg : Config) (draws : nat -> Q) (client : ExchangeClient.t)
    (symbol : string) (w : World) :
  In symbol (dict_keys (MockMarket.prices (mock w))) ->
  (exists p, out_res (ExchangeClient.fetch_price cfg draws client symbol w)
             = Ok p) /\
  (FORCE_HORUS_422 cfg = true ->
   forall client',
     ExchangeClient.fetch_price cfg draws client' symbol w
     = ExchangeClient.fetch_price cfg draws client symbol w).
Proof.
  intros Hin.
  destruct (mock_price_moves_market draws symbol w) as [prices' [Hrun Hk]].
  assert (Hknown : exists p, dict_item prices' symbol = Ok p).
  { rewrite <- Hk in Hin. destruct (dict_get_in _ _ Hin) as [p Hp].
    exists p. now apply dict_item_ok. }
  destruct Hknown as [p Hp].
  split.
  - unfold ExchangeClient.fetch_price.
    destruct (FORCE_HORUS_422 cfg).
    + rewrite Hrun. simpl. now exists p.
    + unfold try_except, lift.
      destruct (HorusClient.get_latest_price _ _) as [q|e]; simpl;
        [now exists q|].
      unfold bind, logger. rewrite Hrun. simpl. now exists p.
  - intros Hforce client'. unfold ExchangeClient.fetch_price.
    now rewrite Hforce.
Qed.

Lemma fetch_price_never_raises_on_known_symbol_witness :
  (exists p, out_res (ExchangeClient.fetch_price dry_live steady_draws
                        quiet_client "SOL/USD" init_world) = Ok p) /\
  (FORCE_HORUS_422 dry_live = true ->
   forall client',
     ExchangeClient.fetch_price dry_live steady_draws client' "SOL/USD"
       init_world
     = ExchangeClient.fetch_price dry_live steady_draws quiet_client
         "SOL/USD" init_world).
Proof.
  apply (@fetch_price_never_raises_on_known_symbol dry_live steady_draws
           quiet_client "SOL/USD"%string init_world).
  simpl. tauto.
Defined.

(** X5.  For a symbol the simulator does not know, a fetch that falls back
    to the simulator (forced fallback, or a quote service that raises)
    raises [KeyError] for that symbol, after the simulator has been moved
    and, in the second case, the failure of the quote service logged. *)
Theorem fetch_price_unknown_symbol_raises
    (cfg : Config) (draws : nat -> Q) (client : ExchangeClient.t)
    (symbol : string) (w : World) :
  ~ In symbol (dict_keys (MockMarket.prices (mock w))) ->
  FORCE_HORUS_422 cfg = true \/
  (exists e, HorusClient.get_latest_price (ExchangeClient.horus client)
               (split_head symbol) = Raise e) ->
  let after := ExchangeClient.fetch_price cfg draws client symbol w in
  out_res after = Raise (KeyError symbol) /\
  random_state (out_state after)
  = (random_state w + List.length (MockMarket.prices (mock w)))%nat /\
  MockMarket.prev_prices (mock (out_state after)) = MockMarket.prices (mock w) /\
  (FORCE_HORUS_422 cfg = false ->
   exists e, out_log after = [HorusFailed symbol e]).
Proof.
  intros Hout Hfall after. subst after.
  destruct (mock_price_moves_market draws symbol w) as [prices' [Hrun Hk]].
  assert (Hmiss : dict_item prices' symbol = Raise (KeyError symbol)).
  { unfold dict_item. rewrite dict_get_out; [reflexivity|now rewrite Hk]. }
  unfold ExchangeClient.fetch_price.
  destruct (FORCE_HORUS_422 cfg) eqn:Ef.
  - rewrite Hrun. simpl. rewrite Hmiss.
    repeat split; try reflexivity. discriminate.
  - destruct Hfall as [Hf|[e He]]; [discriminate|].
    unfold try_except, lift. rewrite He. simpl.
    unfold bind, logger. rewrite Hrun. simpl. rewrite Hmiss.
    repeat split; try reflexivity. intros _. now exists e.
Qed.

Lemma fetch_price_unknown_symbol_raises_witness :
  let after := ExchangeClient.fetch_price dry_live steady_draws quiet_client
                 "DOGE/USD" init_world in
  out_res after = Raise (KeyError "DOGE/USD") /\
  random_state (out_state after)
  = (random_state init_world
     + List.length (MockMarket.prices (mock init_world)))%nat /\
  MockMarket.prev_prices (mock (out_state after))
  = MockMarket.prices (mock init_world) /\
  (FORCE_HORUS_422 dry_live = false ->
   exists e, out_log after = [HorusFailed "DOGE/USD" e]).
Proof.
  apply (@fetch_price_unknown_symbol_raises dry_live steady_draws quiet_client
           "DOGE/USD"%string init_world).
  - simpl. intuition discriminate.
  - right. eexists. reflexivity.
Defined.

Lemma bind_out {S A B : Type} (m : M S A) (k : A -> M S B) (s : S) :
  bind m k s
  = match out_res (m s) with
    | Ok a =>
        Out (out_state (k a (out_state (m s))))
            (out_log (m s) ++ out_log (k a (out_state (m s))))
            (out_res (k a (out_state (m s))))
    | Raise e => Out (out_state (m s)) (out_log (m s)) (Raise e)
    end.
Proof.
  unfold bind. destruct (m s) as [s1 l1 [a|e]]; simpl; [|reflexivity].
  destruct (k a s1); reflexivity.
Qed.

(** [place_order] never raises and never changes the world; it hands at
    most one order over, none for an amount of 0. *)
Lemma place_order_contained (cfg : Config) (client : ExchangeClient.t)
    (symbol : string) (sd : side) (amount : Q) (w : World) :
  out_state (ExchangeClient.place_order cfg client symbol sd amount w) = w /\
  out_res (ExchangeClient.place_order cfg client symbol sd amount w) = Ok tt /\
  filter is_order
    (out_log (ExchangeClient.place_order cfg client symbol sd amount w))
  = (if Qeq_bool amount 0 then []
     else [order_event cfg symbol sd (Qabs amount)]).
Proof.
  unfold ExchangeClient.place_order, order_event.
  destruct (Qeq_bool amount 0); [now repeat split|].
  destruct (DRY_RUN cfg); [now repeat split|].
  unfold try_except, bind, logger, lift; simpl.
  destruct (RoostooClient.place_order _ _ _ _) as [[]|e]; now repeat split.
Qed.

Lemma rebalance_one_venue_free (cfg : Config) (client client' : ExchangeClient.t)
    (positions prices : dict) (total_value : Q)
    (sym : string) (target_usd : Q) (w : World) :
  let o := DynamicMomentumBot.rebalance_one cfg client positions prices
             total_value sym target_usd w in
  let o' := DynamicMomentumBot.rebalance_one cfg client' positions prices
              total_value sym target_usd w in
  out_state o = w /\ out_res o = out_res o' /\
  filter is_order (out_log o) = filter is_order (out_log o').
Proof.
  unfold DynamicMomentumBot.rebalance_one.
  rewrite !bind_out. unfold lift at 1 3 5 7 9 11; simpl.
  destruct (dict_item positions sym) as [current_usd|e]; simpl;
    [|now repeat split].
  destruct (Qltb 500 _); [|now repeat split].
  rewrite !bind_out. simpl.
  destruct (dict_item prices sym) as [price|e]; simpl; [|now repeat split].
  rewrite !bind_out. simpl.
  destruct (pydiv _ price) as [amount|e]; simpl; [|now repeat split].
  rewrite !bind_out.
  set (sd := if Qltb 0 amount then buy else sell).
  destruct (place_order_contained cfg client sym sd amount w)
    as (Hs & Hr & Hl).
  destruct (place_order_contained cfg client' sym sd amount w)
    as (Hs' & Hr' & Hl').
  rewrite Hr, Hr'. simpl. rewrite Hs.
  split; [reflexivity|]. split; [reflexivity|].
  rewrite !filter_app, Hl, Hl'. reflexivity.
Qed.

(** X6.  The rebalance loop does not depend on what the venue answers: with
    any two clients, it attempts the same orders in the same sequence and
    ends the same way, and it leaves the world unchanged.  In particular a
    failed submission for one symbol does not keep the later symbols from
    being submitted. *)
Theorem rebalance_orders_independent_of_venue
    (cfg : Config) (client client' : ExchangeClient.t)
    (items : list (string * Q)) (positions prices : dict)
    (total_value : Q) (w : World) :
  let o := DynamicMomentumBot.rebalance cfg client items positions prices
             total_value w in
  let o' := DynamicMomentumBot.rebalance cfg client' items positions prices
              total_value w in
  out_state o = w /\ out_res o = out_res o' /\
  filter is_order (out_log o) = filter is_order (out_log o').
Proof.
  induction items as [|[sym target_usd] items IH]; simpl;
    [now repeat split|].
  rewrite !bind_out.
  destruct (rebalance_one_venue_free cfg client client' positions prices
              total_value sym target_usd w) as (Hs & Hr & Hl).
  simpl in Hs, Hr, Hl. rewrite Hs.
  assert (Hs' : out_state (DynamicMomentumBot.rebalance_one cfg client'
                             positions prices total_value sym target_usd w)
                = w).
  { apply (rebalance_one_venue_free cfg client' client positions prices
             total_value sym target_usd w). }
  rewrite Hs', <- Hr.
  destruct (out_res (DynamicMomentumBot.rebalance_one cfg client positions
                       prices total_value sym target_usd w)) as [[]|e]; simpl.
  - destruct IH as (IHs & IHr & IHl).
    split; [exact IHs|]. split; [exact IHr|].
    rewrite !filter_app, Hl, IHl. reflexivity.
  - now repeat split.
Qed.

(* ===================================================================== *)
(** ** The snapshot of a cycle *)



(** A missing price stops the snapshot with [KeyError]. *)
Lemma fill_positions_missing_price (syms : list string)
    (balance prices positions : dict) (sym : string) (w : World) :
  dict_get prices sym = None ->
  DynamicMomentumBot.fill_positions (sym :: syms) balance prices positions w
  = Out w [] (Raise (KeyError sym)).
Proof.
  intros Hnone. simpl. unfold bind, lift, dict_item. now rewrite Hnone.
Qed.

(* ===================================================================== *)
(** ** The rebalance loop *)







(** X10.  A price of 0 for a symbol whose capped difference is outside the
    dead-band stops the rebalance loop there with [ZeroDivisionError]: no
    order is placed for that symbol, and none for the symbols after it,
    whatever their targets. *)
Theorem rebalance_stops_at_zero_price
    (cfg : Config) (client : ExchangeClient.t)
    (rest : list (string * Q)) (positions prices : dict) (total_value : Q)
    (sym : string) (target_usd current_usd price : Q) (w : World) :
  dict_item positions sym = Ok current_usd ->
  dict_item prices sym = Ok price ->
  price == 0 ->
  500 < Qabs (DynamicMomentumBot.cap_diff total_value current_usd
                (target_usd - current_usd)) ->
  DynamicMomentumBot.rebalance cfg client ((sym, target_usd) :: rest)
    positions prices total_value w
  = Out w [] (Raise ZeroDivisionError).
Proof.
  intros Hcur Hprice Hzero Hband. simpl.
  unfold DynamicMomentumBot.rebalance_one, bind, lift.
  rewrite Hcur. apply Qltb_true in Hband. rewrite Hband.
  rewrite Hprice. rewrite (pydiv_zero _ Hzero). reflexivity.
Qed.

Lemma rebalance_stops_at_zero_price_witness :
  DynamicMomentumBot.rebalance live quiet_client
    [("BTC/USD", 10000); ("ETH/USD", 10000)]%string
    [("BTC/USD", 0); ("ETH/USD", 0)]%string
    [("BTC/USD", 0); ("ETH/USD", 3500)]%string 1000000 init_world
  = Out init_world [] (Raise ZeroDivisionError).
Proof.
  apply (@rebalance_stops_at_zero_price live quiet_client
           [("ETH/USD"%string, 10000)]
           [("BTC/USD", 0); ("ETH/USD", 0)]%string
           [("BTC/USD", 0); ("ETH/USD", 3500)]%string 1000000
           "BTC/USD"%string 10000 0 0 init_world).
  - reflexivity.
  - reflexivity.
  - reflexivity.
  - vm_compute. reflexivity.
Defined.

(* ===================================================================== *)
(** ** The stages of a cycle *)

Lemma triple_pure_any {S A : Type} (I : S -> Prop) (P : event -> Prop)
    (m : M S A) :
  (forall s0, triple (eq s0) P m) -> triple I P m.
Proof.
  intros Hm s Hs. destruct (Hm s s eq_refl) as [E L].
  rewrite <- E. now split.
Qed.

Section Stages.

Variable cfg : Config.
Variable draws : nat -> Q.
Variable client : ExchangeClient.t.

(** The stages that only read: they leave the world as it is and log
    informative lines only. *)
Lemma get_balance_plain (w0 : World) :
  triple (eq w0) (fun ev => plain_event ev = true)
    (ExchangeClient.get_balance cfg client).
Proof.
  unfold ExchangeClient.get_balance. destruct (DRY_RUN cfg); auto with triples.
Qed.

Lemma fill_positions_plain (syms : list string)
    (balance prices positions : dict) (w0 : World) :
  triple (eq w0) (fun ev => plain_event ev = true)
    (DynamicMomentumBot.fill_positions syms balance prices positions).
Proof.
  revert positions. induction syms as [|sym syms IH]; intros positions;
    simpl; auto with triples.
Qed.

Lemma momentum_return_plain (sym : string) (w0 : World) :
  triple (eq w0) (fun ev => plain_event ev = true)
    (DynamicMomentumBot.momentum_return cfg client sym).
Proof.
  unfold DynamicMomentumBot.momentum_return.
  destruct (FORCE_HORUS_422 cfg); [auto with triples|].
  apply triple_try_except; [|auto with triples].
  repeat (apply triple_bind; auto with triples; intros).
Qed.

Lemma fill_targets_plain (syms : list string) (positions targets : dict)
    (w0 : World) :
  triple (eq w0) (fun ev => plain_event ev = true)
    (DynamicMomentumBot.fill_targets cfg client syms positions targets).
Proof.
  revert targets. induction syms as [|sym syms IH]; intros targets; simpl;
    auto with triples.
  apply triple_bind; [apply momentum_return_plain|intros r].
  apply triple_bind; auto with triples.
Qed.

Lemma mock_returns_plain (syms : list string) (returns : dict) (w0 : World) :
  triple (eq w0) (fun ev => plain_event ev = true)
    (DynamicMomentumBot.mock_returns syms returns).
Proof.
  revert returns. induction syms as [|sym syms IH]; intros returns; simpl;
    auto with triples.
Qed.

(** The rebalance loop leaves the world as it is and logs trades only. *)
Lemma place_order_trade (symbol : string) (sd : side) (amount : Q)
    (w0 : World) :
  triple (eq w0) (fun ev => trade_event ev = true)
    (ExchangeClient.place_order cfg client symbol sd amount).
Proof.
  unfold ExchangeClient.place_order.
  destruct (Qeq_bool amount 0); auto with triples.
  destruct (DRY_RUN cfg); [now apply triple_logger|].
  apply triple_try_except.
  - apply triple_bind; [now apply triple_logger|auto with triples].
  - intros e. now apply triple_logger.
Qed.

Lemma rebalance_trade (items : list (string * Q)) (positions prices : dict)
    (total_value : Q) (w0 : World) :
  triple (eq w0) (fun ev => trade_event ev = true)
    (DynamicMomentumBot.rebalance cfg client items positions prices
       total_value).
Proof.
  induction items as [|[sym target_usd] items IH]; simpl;
    [auto with triples|].
  apply triple_bind; [|intros _; exact IH].
  unfold DynamicMomentumBot.rebalance_one.
  apply triple_bind; [auto with triples|intros current_usd].
  destruct (Qltb _ _); [|auto with triples].
  apply triple_bind; [auto with triples|intros price].
  apply triple_bind; [auto with triples|intros amount].
  apply triple_bind; [apply place_order_trade|intros _].
  now apply triple_logger.
Qed.

(** Resolving the prices touches the simulator and the generator only. *)
Lemma fetch_prices_plain (I : World -> Prop) (syms : list string)
    (prices : dict) :
  (forall m w, I w -> I (set_market m w)) ->
  triple I (fun ev => plain_event ev = true)
    (DynamicMomentumBot.fetch_prices cfg draws client syms prices).
Proof.
  intros Hframe.
  assert (Hmock : forall symbol,
             triple I (fun ev => plain_event ev = true)
               (ExchangeClient.mock_price draws symbol)).
  { intros symbol. unfold ExchangeClient.mock_price.
    apply triple_bind; [|intros; auto with triples].
    apply triple_zoom with (I' := fun _ => True);
      [apply update_quiet|auto|].
    intros t s Hs _. now apply Hframe. }
  revert prices. induction syms as [|sym syms IH]; intros prices; simpl;
    [auto with triples|].
  apply triple_bind; [|intros p; apply IH].
  unfold ExchangeClient.fetch_price.
  destruct (FORCE_HORUS_422 cfg); [apply Hmock|].
  apply triple_try_except; [auto with triples|].
  intros e. apply triple_bind; [now apply triple_logger|intros _; apply Hmock].
Qed.

(** The risk check touches the risk manager only and logs warnings only. *)
Lemma check_risk_events (I : World -> Prop) (total_value : Q)
    (positions : dict) :
  (forall r w, I w -> I (set_risk r w)) ->
  triple I (fun ev => risk_event ev = true)
    (zoom risk set_risk (RiskManager.check total_value positions)).
Proof.
  intros Hframe.
  apply triple_zoom with (I' := fun _ => True); [|auto|].
  - assert (Hloop : forall values,
               triple (fun _ : RiskManager.t => True)
                 (fun ev => risk_event ev = true)
                 (RiskManager.check_exposure values total_value)).
    { induction values as [|v values IH]; simpl; auto with triples.
      apply triple_bind; auto with triples. intros self.
      apply triple_bind; auto with triples. intros share.
      destruct (Qltb _ _); auto with triples. }
    unfold RiskManager.check.
    apply triple_bind; auto with triples. intros self.
    apply triple_bind; auto with triples. intros _.
    apply triple_bind; auto with triples. intros self'.
    apply triple_bind; auto with triples. intros dd.
    destruct (Qltb _ dd); auto with triples.
    apply triple_bind; [apply Hloop|intros within].
    destruct within; simpl; auto with triples.
    destruct (Qltb _ _); auto with triples.
  - intros t s Hs _. now apply Hframe.
Qed.

End Stages.

(** A check that allows the cycle has logged nothing. *)
Lemma check_allowed_silent (total_value : Q) (positions : dict)
    (rm : RiskManager.t) :
  out_res (RiskManager.check total_value positions rm) = Ok true ->
  out_log (RiskManager.check total_value positions rm) = [].
Proof.
  assert (Hloop : forall values s,
             out_res (RiskManager.check_exposure values total_value s)
             = Ok true ->
             out_log (RiskManager.check_exposure values total_value s) = []).
  { induction values as [|v values IH]; intros s; simpl; [reflexivity|].
    unfold bind, get, lift; simpl.
    destruct (pydiv v total_value) as [share|e]; simpl; [|discriminate].
    destruct (Qltb _ share); simpl; [discriminate|].
    specialize (IH s).
    destruct (RiskManager.check_exposure values total_value s)
      as [s1 l1 r1]; simpl in *. exact IH. }
  unfold RiskManager.check, bind, get, put, lift; simpl.
  destruct (pydiv _ _) as [dd|e]; simpl; [|discriminate].
  destruct (Qltb _ dd); simpl; [discriminate|].
  specialize (Hloop (dict_values positions)
                (RiskManager.set_peak
                   (pymax (RiskManager.peak rm) total_value) rm)).
  destruct (RiskManager.check_exposure _ _ _) as [s1 l1 [within|e]];
    simpl in *; [|discriminate].
  destruct within; simpl; [|discriminate].
  destruct (Qltb _ _); simpl; [discriminate|].
  intros _. rewrite Hloop by reflexivity. reflexivity.
Qed.

(* ===================================================================== *)
(** ** A vetoed cycle *)

Lemma dichotomy_bind {S A B : Type} (P Q : event -> Prop)
    (m : M S A) (k : A -> M S B) :
  triple (fun _ => True) (fun ev => P ev /\ Q ev) m ->
  (forall a s, Forall P (out_log (k a s)) \/ Forall Q (out_log (k a s))) ->
  forall s, Forall P (out_log (bind m k s)) \/ Forall Q (out_log (bind m k s)).
Proof.
  intros Hm Hk s. rewrite bind_out.
  destruct (Hm s I) as [_ Hl].
  assert (HP : Forall P (out_log (m s)))
    by (eapply Forall_impl; [|exact Hl]; now intros ev [H _]).
  assert (HQ : Forall Q (out_log (m s)))
    by (eapply Forall_impl; [|exact Hl]; now intros ev [_ H]).
  destruct (out_res (m s)) as [a|e]; simpl; [|now left].
  destruct (Hk a (out_state (m s))) as [H|H]; [left|right];
    apply Forall_app; now split.
Qed.

Lemma plain_is_harmless (ev : event) :
  plain_event ev = true -> is_order ev = false /\ veto_event ev = false.
Proof. destruct ev; simpl; intros H; try discriminate; now split. Qed.

Lemma trade_is_no_veto (ev : event) :
  trade_event ev = true -> veto_event ev = false.
Proof. destruct ev; simpl; intros H; try discriminate; reflexivity. Qed.

Lemma risk_is_no_order (ev : event) :
  risk_event ev = true -> is_order ev = false.
Proof. destruct ev; simpl; intros H; try discriminate; reflexivity. Qed.

(** The part of a cycle that follows an allowing risk check logs no veto. *)
Lemma after_check_no_veto (cfg : Config) (client : ExchangeClient.t)
    (positions prices : dict) (total_value : Q) :
  triple (fun _ : World => True) (fun ev => veto_event ev = false)
    (momentum_targets <-
       DynamicMomentumBot.fill_targets cfg client SYMBOLS positions [] ;;
     returns <- DynamicMomentumBot.mock_returns SYMBOLS [] ;;
     logger (LogReturns returns) ;;
     logger (LogTargets momentum_targets) ;;
     DynamicMomentumBot.rebalance cfg client momentum_targets positions prices
       total_value).
Proof.
  apply triple_bind.
  { apply triple_pure_any. intros s0.
    eapply triple_weaken; [|apply fill_targets_plain].
    intros ev H. now apply plain_is_harmless. }
  intros targets. apply triple_bind.
  { apply triple_pure_any. intros s0.
    eapply triple_weaken; [|apply mock_returns_plain].
    intros ev H. now apply plain_is_harmless. }
  intros returns.
  apply triple_bind; [now apply triple_logger|intros _].
  apply triple_bind; [now apply triple_logger|intros _].
  apply triple_pure_any. intros s0.
  eapply triple_weaken; [|apply rebalance_trade].
  intros ev H. now apply trade_is_no_veto.
Qed.

Lemma step_log_dichotomy (cfg : Config) (draws : nat -> Q)
    (client : ExchangeClient.t) (w : World) :
  Forall (fun ev => is_order ev = false)
    (out_log (DynamicMomentumBot.step cfg draws client w)) \/
  Forall (fun ev => veto_event ev = false)
    (out_log (DynamicMomentumBot.step cfg draws client w)).
Proof.
  assert (Hbody :
    Forall (fun ev => is_order ev = false)
      (out_log (DynamicMomentumBot.step_body cfg draws client w)) \/
    Forall (fun ev => veto_event ev = false)
      (out_log (DynamicMomentumBot.step_body cfg draws client w))).
  { unfold DynamicMomentumBot.step_body.
    apply dichotomy_bind.
    { eapply triple_weaken; [|apply fetch_prices_plain; auto].
      intros ev H. now apply plain_is_harmless. }
    intros prices s1. apply dichotomy_bind.
    { apply triple_logger. now split. }
    intros _ s2. apply dichotomy_bind.
    { apply triple_pure_any. intros s0.
      eapply triple_weaken; [|apply get_balance_plain].
      intros ev H. now apply plain_is_harmless. }
    intros balance s3. apply dichotomy_bind.
    { apply triple_pure_any. intros s0.
      eapply triple_weaken; [|apply fill_positions_plain].
      intros ev H. now apply plain_is_harmless. }
    intros positions s4. apply dichotomy_bind.
    { apply triple_logger. now split. }
    intros _ s5. rewrite bind_out.
    set (total_value :=
           dict_get_default balance "USD" 0 + pysum (dict_values positions)).
    destruct (@check_risk_events (fun _ => True) total_value positions
                (fun _ _ _ => I) s5 I) as [_ Hrisk].
    assert (Hno : Forall (fun ev => is_order ev = false)
                    (out_log (zoom risk set_risk
                                (RiskManager.check total_value positions) s5))).
    { eapply Forall_impl; [|exact Hrisk].
      intros ev H. now apply risk_is_no_order. }
    destruct (out_res (zoom risk set_risk
                         (RiskManager.check total_value positions) s5))
      as [[|]|e] eqn:Eres; cbn [negb out_log].
    - right.
      assert (Hsilent : out_log (zoom risk set_risk
                           (RiskManager.check total_value positions) s5) = []).
      { unfold zoom in *.
        pose proof (@check_allowed_silent total_value positions (risk s5))
          as Hs.
        destruct (RiskManager.check total_value positions (risk s5))
          as [t l r]; simpl in *. subst r. now apply Hs. }
      rewrite Hsilent. simpl.
      now apply after_check_no_veto.
    - left. apply Forall_app. split; [exact Hno|]. now repeat constructor.
    - left. exact Hno. }
  destruct (step_log_state cfg draws client w) as [_ [E|[e [_ E]]]];
    rewrite E; [exact Hbody|].
  destruct Hbody as [H|H]; [left|right]; apply Forall_app; split;
    try exact H; now repeat constructor.
Qed.

(** X11.  A cycle that the risk manager stops places no order: when the log
    of [step] has a risk warning or the pause line, it has no order event,
    in any mode and whatever the collaborators do. *)
Theorem vetoed_cycle_places_no_order (cfg : Config) (draws : nat -> Q)
    (client : ExchangeClient.t) (w : World) (ev : event) :
  In ev (out_log (DynamicMomentumBot.step cfg draws client w)) ->
  veto_event ev = true ->
  filter is_order (out_log (DynamicMomentumBot.step cfg draws client w)) = [].
Proof.
  intros Hin Hveto.
  destruct (step_log_dichotomy cfg draws client w) as [H|H].
  - clear Hin. induction H as [|x l Hx _ IH]; simpl; [reflexivity|].
    now rewrite Hx.
  - rewrite Forall_forall in H. specialize (H ev Hin). congruence.
Qed.

Lemma vetoed_cycle_places_no_order_witness :
  filter is_order
    (out_log (DynamicMomentumBot.step dry_live steady_draws quoting_client
                init_world)) = [].
Proof.
  apply (@vetoed_cycle_places_no_order dry_live steady_draws quoting_client
           init_world (RiskWarning MaxDrawdown)).
  - vm_compute. tauto.
  - reflexivity.
Defined.

(* ===================================================================== *)
(** ** What a cycle leaves alone *)

(** Whatever invariant of the world the price resolution keeps and the risk
    manager cannot break, a whole cycle keeps. *)
Lemma step_frame (cfg : Config) (draws : nat -> Q) (client : ExchangeClient.t)
    (I : World -> Prop) :
  triple I (fun _ => True)
    (DynamicMomentumBot.fetch_prices cfg draws client SYMBOLS []) ->
  (forall r w, I w -> I (set_risk r w)) ->
  triple I (fun _ => True) (DynamicMomentumBot.step cfg draws client).
Proof.
  intros Hprices Hrisk.
  unfold DynamicMomentumBot.step.
  apply triple_try_except; [|intros e; now apply triple_format_log].
  unfold DynamicMomentumBot.step_body.
  apply triple_bind; [exact Hprices|intros prices].
  apply triple_bind; [now apply triple_logger|intros _].
  apply triple_bind.
  { apply triple_pure_any. intros s0.
    eapply triple_weaken; [|apply get_balance_plain]. auto. }
  intros balance. apply triple_bind.
  { apply triple_pure_any. intros s0.
    eapply triple_weaken; [|apply fill_positions_plain]. auto. }
  intros positions.
  apply triple_bind; [now apply triple_logger|intros _].
  apply triple_bind.
  { eapply triple_weaken; [|apply check_risk_events; exact Hrisk]. auto. }
  intros allowed. destruct allowed; cbn [negb];
    [|now apply triple_logger].
  apply triple_bind.
  { apply triple_pure_any. intros s0.
    eapply triple_weaken; [|apply fill_targets_plain]. auto. }
  intros targets. apply triple_bind.
  { apply triple_pure_any. intros s0.
    eapply triple_weaken; [|apply mock_returns_plain]. auto. }
  intros returns.
  apply triple_bind; [now apply triple_logger|intros _].
  apply triple_bind; [now apply triple_logger|intros _].
  apply triple_pure_any. intros s0.
  eapply triple_weaken; [|apply rebalance_trade]. auto.
Qed.

(** X12.  With forced fallback off and the quote service answering for the
    three symbols, a cycle never touches the simulator nor the random
    generator, whatever else happens in it. *)
Theorem live_cycle_leaves_simulator_alone
    (cfg : Config) (draws : nat -> Q) (client : ExchangeClient.t)
    (w : World) (p_btc p_eth p_sol : Q) :
  FORCE_HORUS_422 cfg = false ->
  HorusClient.get_latest_price (ExchangeClient.horus client) "BTC" = Ok p_btc ->
  HorusClient.get_latest_price (ExchangeClient.horus client) "ETH" = Ok p_eth ->
  HorusClient.get_latest_price (ExchangeClient.horus client) "SOL" = Ok p_sol ->
  mock (out_state (DynamicMomentumBot.step cfg draws client w)) = mock w /\
  random_state (out_state (DynamicMomentumBot.step cfg draws client w))
  = random_state w.
Proof.
  intros Hlive Hb He Hs.
  apply (@step_frame cfg draws client
           (fun w' => mock w' = mock w /\ random_state w' = random_state w)).
  - intros s Hinv.
    assert (Hrun : DynamicMomentumBot.fetch_prices cfg draws client SYMBOLS [] s
                   = Out s [] (Ok [("BTC/USD", p_btc); ("ETH/USD", p_eth);
                                   ("SOL/USD", p_sol)]%string)).
    { unfold DynamicMomentumBot.fetch_prices, SYMBOLS,
        ExchangeClient.fetch_price, bind, try_except, lift, ret.
      rewrite Hlive. simpl. rewrite Hb, He, Hs. reflexivity. }
    rewrite Hrun. simpl. split; [exact Hinv|constructor].
  - intros r s Hinv. exact Hinv.
  - now split.
Qed.

Lemma live_cycle_leaves_simulator_alone_witness :
  mock (out_state (DynamicMomentumBot.step live steady_draws zero_price_client
                     init_world)) = mock init_world /\
  random_state (out_state (DynamicMomentumBot.step live steady_draws
                             zero_price_client init_world))
  = random_state init_world.
Proof.
  apply (@live_cycle_leaves_simulator_alone live steady_draws zero_price_client
           init_world 0 0 0); reflexivity.
Defined.

(* ===================================================================== *)
(** ** Cycles on the simulator *)

Lemma mock_price_run (draws : nat -> Q) (sym : string) (w : World) :
  NoDup (dict_keys (MockMarket.prices (mock w))) ->
  ExchangeClient.mock_price draws sym w
  = Out {| risk := risk w;
           mock := {| MockMarket.prices :=
                        moved_prices draws (random_state w)
                          (MockMarket.prices (mock w));
                      MockMarket.prev_prices := MockMarket.prices (mock w) |};
           random_state :=
             (random_state w + List.length (MockMarket.prices (mock w)))%nat |}
        []
        (dict_item (moved_prices draws (random_state w)
                      (MockMarket.prices (mock w))) sym).
Proof.
  intros Hnd.
  unfold ExchangeClient.mock_price, bind, zoom, market, set_market, get, lift.
  unfold Random.state in *.
  rewrite (@update_run draws (mock w) (random_state w) Hnd).
  reflexivity.
Qed.

(** One price taken from a simulator over the three symbols. *)
Lemma mock_price_three (draws : nat -> Q) (sym : string)
    (rm : RiskManager.t) (prev : dict) (n : nat) (a b c : Q) :
  let moved :=
    [("BTC/USD", a * (1 + draws n));
     ("ETH/USD", b * (1 + draws (n + 1)%nat));
     ("SOL/USD", c * (1 + draws (n + 2)%nat))]%string in
  let before := [("BTC/USD", a); ("ETH/USD", b); ("SOL/USD", c)]%string in
  ExchangeClient.mock_price draws sym
    {| risk := rm;
       mock := {| MockMarket.prices := before;
                  MockMarket.prev_prices := prev |};
       random_state := n |}
  = Out {| risk := rm;
           mock := {| MockMarket.prices := moved;
                      MockMarket.prev_prices := before |};
           random_state := (n + 3)%nat |}
        [] (dict_item moved sym).
Proof.
  intros moved before. subst moved before.
  rewrite mock_price_run by apply SYMBOLS_NoDup.
  cbn [risk mock random_state MockMarket.prices MockMarket.prev_prices
       moved_prices List.length].
  replace (S n) with (n + 1)%nat by lia.
  replace (S (n + 1)) with (n + 2)%nat by lia.
  reflexivity.
Qed.

(** X14.  In forced-fallback mode one price resolution moves the simulator
    three times and uses nine draws, and the three prices of the snapshot
    come from three different moves: starting at draw [n] from prices [a],
    [b], [c], BTC is taken after the first move, ETH after the second and
    SOL after the third, while the simulator ends with all three prices
    moved three times. *)
Theorem forced_prices_come_from_successive_moves
    (cfg : Config) (draws : nat -> Q) (client : ExchangeClient.t)
    (w : World) (a b c : Q) :
  FORCE_HORUS_422 cfg = true ->
  MockMarket.prices (mock w)
  = [("BTC/USD", a); ("ETH/USD", b); ("SOL/USD", c)]%string ->
  let n := random_state w in
  let d (i : nat) := 1 + draws (n + i)%nat in
  let after := DynamicMomentumBot.fetch_prices cfg draws client SYMBOLS [] w in
  out_res after
  = Ok [("BTC/USD", a * d 0%nat);
        ("ETH/USD", b * d 1%nat * d 4%nat);
        ("SOL/USD", c * d 2%nat * d 5%nat * d 8%nat)]%string /\
  out_log after = [] /\
  random_state (out_state after) = (n + 9)%nat /\
  risk (out_state after) = risk w /\
  MockMarket.prices (mock (out_state after))
  = [("BTC/USD", a * d 0%nat * d 3%nat * d 6%nat);
     ("ETH/USD", b * d 1%nat * d 4%nat * d 7%nat);
     ("SOL/USD", c * d 2%nat * d 5%nat * d 8%nat)]%string /\
  MockMarket.prev_prices (mock (out_state after))
  = [("BTC/USD", a * d 0%nat * d 3%nat);
     ("ETH/USD", b * d 1%nat * d 4%nat);
     ("SOL/USD", c * d 2%nat * d 5%nat)]%string.
Proof.
  intros Hforce Hprices n d after.
  destruct w as [rm [prices prev] n0].
  cbn [mock MockMarket.prices] in Hprices. subst prices.
  cbn [random_state] in n. subst n.
  assert (Hrun : after
    = Out {| risk := rm;
             mock := {| MockMarket.prices :=
                          [("BTC/USD", a * d 0%nat * d 3%nat * d 6%nat);
                           ("ETH/USD", b * d 1%nat * d 4%nat * d 7%nat);
                           ("SOL/USD", c * d 2%nat * d 5%nat * d 8%nat)]%string;
                        MockMarket.prev_prices :=
                          [("BTC/USD", a * d 0%nat * d 3%nat);
                           ("ETH/USD", b * d 1%nat * d 4%nat);
                           ("SOL/USD", c * d 2%nat * d 5%nat)]%string |};
             random_state := (n0 + 9)%nat |}
          []
          (Ok [("BTC/USD", a * d 0%nat);
               ("ETH/USD", b * d 1%nat * d 4%nat);
               ("SOL/USD", c * d 2%nat * d 5%nat * d 8%nat)]%string)).
  { subst after d.
    unfold DynamicMomentumBot.fetch_prices, SYMBOLS, ExchangeClient.fetch_price.
    rewrite Hforce.
    rewrite bind_out, mock_price_three.
    cbn [out_res out_state out_log dict_item dict_get String.eqb Ascii.eqb
         Bool.eqb dict_set app].
    rewrite bind_out, mock_price_three.
    cbn [out_res out_state out_log dict_item dict_get String.eqb Ascii.eqb
         Bool.eqb dict_set app].
    rewrite bind_out, mock_price_three.
    cbn [out_res out_state out_log dict_item dict_get String.eqb Ascii.eqb
         Bool.eqb dict_set app ret].
    replace (n0 + 0)%nat with n0 by lia.
    replace (n0 + 3 + 1)%nat with (n0 + 4)%nat by lia.
    replace (n0 + 3 + 2)%nat with (n0 + 5)%nat by lia.
    replace (n0 + 3 + 3)%nat with (n0 + 6)%nat by lia.
    replace (n0 + 6 + 1)%nat with (n0 + 7)%nat by lia.
    replace (n0 + 6 + 2)%nat with (n0 + 8)%nat by lia.
    replace (n0 + 6 + 3)%nat with (n0 + 9)%nat by lia.
    reflexivity. }
  rewrite Hrun. cbn [out_res out_state out_log risk mock random_state
                     MockMarket.prices MockMarket.prev_prices].
  repeat split; reflexivity.
Qed.

Lemma forced_prices_come_from_successive_moves_witness :
  let n := random_state init_world in
  let d (i : nat) := 1 + steady_draws (n + i)%nat in
  let after := DynamicMomentumBot.fetch_prices dry_forced steady_draws
                 quiet_client SYMBOLS [] init_world in
  out_res after
  = Ok [("BTC/USD", 68000 * d 0%nat);
        ("ETH/USD", 3500 * d 1%nat * d 4%nat);
        ("SOL/USD", 180 * d 2%nat * d 5%nat * d 8%nat)]%string /\
  out_log after = [] /\
  random_state (out_state after) = (n + 9)%nat /\
  risk (out_state after) = risk init_world /\
  MockMarket.prices (mock (out_state after))
  = [("BTC/USD", 68000 * d 0%nat * d 3%nat * d 6%nat);
     ("ETH/USD", 3500 * d 1%nat * d 4%nat * d 7%nat);
     ("SOL/USD", 180 * d 2%nat * d 5%nat * d 8%nat)]%string /\
  MockMarket.prev_prices (mock (out_state after))
  = [("BTC/USD", 68000 * d 0%nat * d 3%nat);
     ("ETH/USD", 3500 * d 1%nat * d 4%nat);
     ("SOL/USD", 180 * d 2%nat * d 5%nat)]%string.
Proof.
  apply (@forced_prices_come_from_successive_moves dry_forced steady_draws
           quiet_client init_world 68000 3500 180); reflexivity.
Defined.

(* ===================================================================== *)
(** ** Signing a request *)

Section SigningFacts.

Variable V : Type.
Variable render : V -> string.
Variable hmac_sha256_hex : string -> string -> string.

Let key_lt := @Roostoo.key_lt V.

Lemma ltb_lt (a b : string) :
  String.ltb a b = true <-> OrderedTypeEx.String_as_OT.lt a b.
Proof.
  unfold String.ltb. rewrite <- OrderedTypeEx.String_as_OT.cmp_lt.
  unfold OrderedTypeEx.String_as_OT.cmp.
  destruct (String.compare a b); split; intros H; congruence.
Qed.

Lemma not_ltb_lt (a b : string) :
  String.ltb a b = false -> a <> b -> OrderedTypeEx.String_as_OT.lt b a.
Proof.
  intros Hlt Hne. apply OrderedTypeEx.String_as_OT.cmp_lt.
  unfold OrderedTypeEx.String_as_OT.cmp, String.ltb in *.
  rewrite String.compare_antisym.
  destruct (String.compare a b) eqn:E; simpl; try reflexivity.
  - apply String.compare_eq_iff in E. contradiction.
  - discriminate.
Qed.

Lemma insert_item_perm (x : string * V) (l : Roostoo.params V) :
  Permutation (Roostoo.insert_item x l) (x :: l).
Proof.
  induction l as [|y l IH]; simpl; [reflexivity|].
  destruct (String.ltb (fst y) (fst x)); [|reflexivity].
  rewrite IH. apply perm_swap.
Qed.

Lemma sorted_items_perm (d : Roostoo.params V) :
  Permutation (Roostoo.sorted_items d) d.
Proof.
  induction d as [|x d IH]; simpl; [reflexivity|].
  rewrite insert_item_perm. now constructor.
Qed.

Lemma insert_item_sorted (x : string * V) (l : Roostoo.params V) :
  StronglySorted key_lt l ->
  ~ In (fst x) (map fst l) ->
  StronglySorted key_lt (Roostoo.insert_item x l).
Proof.
  induction l as [|y l IH]; intros Hs Hout; simpl.
  - constructor; constructor.
  - apply StronglySorted_inv in Hs. destruct Hs as [Hs Hy].
    destruct (String.ltb (fst y) (fst x)) eqn:E.
    + constructor.
      * apply IH; [exact Hs|]. intros H. apply Hout. now right.
      * apply ltb_lt in E.
        eapply Permutation_Forall;
          [symmetry; apply insert_item_perm|].
        constructor; [exact E|exact Hy].
    + assert (Hxy : key_lt x y).
      { apply not_ltb_lt; [exact E|]. intros Heq. apply Hout. now left. }
      constructor; [constructor; assumption|].
      constructor; [exact Hxy|].
      eapply Forall_impl; [|exact Hy].
      intros z Hz. eapply OrderedTypeEx.String_as_OT.lt_trans; eassumption.
Qed.

Lemma sorted_items_sorted (d : Roostoo.params V) :
  NoDup (map fst d) -> StronglySorted key_lt (Roostoo.sorted_items d).
Proof.
  induction d as [|x d IH]; intros Hnd; simpl; [constructor|].
  apply NoDup_cons_iff in Hnd. destruct Hnd as [Hout Hnd].
  apply insert_item_sorted; [now apply IH|].
  intros H. apply Hout.
  eapply Permutation_in; [|exact H].
  apply Permutation_map. apply sorted_items_perm.
Qed.

(** Two lists sorted by key with the same entries are the same list. *)
Lemma sorted_unique (l1 l2 : Roostoo.params V) :
  StronglySorted key_lt l1 -> StronglySorted key_lt l2 ->
  Permutation l1 l2 -> l1 = l2.
Proof.
  revert l2. induction l1 as [|a l1 IH]; intros l2 H1 H2 Hp.
  - apply Permutation_nil in Hp. now subst.
  - destruct l2 as [|b l2];
      [apply Permutation_sym, Permutation_nil in Hp; discriminate|].
    apply StronglySorted_inv in H1. destruct H1 as [H1 Ha].
    apply StronglySorted_inv in H2. destruct H2 as [H2 Hb].
    assert (Eab : a = b).
    { assert (Hina : In a (b :: l2))
        by (eapply Permutation_in; [exact Hp|now left]).
      assert (Hinb : In b (a :: l1))
        by (eapply Permutation_in; [symmetry; exact Hp|now left]).
      destruct Hina as [E|Hina]; [now symmetry|].
      destruct Hinb as [E|Hinb]; [exact E|].
      exfalso.
      rewrite Forall_forall in Ha, Hb.
      pose proof (Ha b Hinb) as Hab. pose proof (Hb a Hina) as Hba.
      pose proof (OrderedTypeEx.String_as_OT.lt_trans _ _ _ Hab Hba) as Haa.
      apply OrderedTypeEx.String_as_OT.lt_not_eq in Haa.
      apply Haa. reflexivity. }
    subst b. f_equal. apply IH; try assumption.
    now apply Permutation_cons_inv in Hp.
Qed.

(** X16.  The signature of a request does not depend on the order in which
    its parameters were put in the dict: two dicts with the same entries
    and distinct keys are signed over the same query string, which lists the
    entries by ascending key; no parameters at all, or [None], sign the
    empty string. *)
Theorem signature_ignores_insertion_order
    (api_secret : string) (d d' : Roostoo.params V) :
  NoDup (map fst d) ->
  Permutation d d' ->
  Roostoo.query render d = Roostoo.query render d' /\
  Roostoo.sign render hmac_sha256_hex api_secret (Some d)
  = Roostoo.sign render hmac_sha256_hex api_secret (Some d') /\
  StronglySorted key_lt (Roostoo.sorted_items d) /\
  Permutation (Roostoo.sorted_items d) d /\
  Roostoo.sign render hmac_sha256_hex api_secret None
  = hmac_sha256_hex api_secret EmptyString.
Proof.
  intros Hnd Hperm.
  assert (Hnd' : NoDup (map fst d')).
  { eapply Permutation_NoDup; [|exact Hnd]. now apply Permutation_map. }
  assert (E : Roostoo.sorted_items d = Roostoo.sorted_items d').
  { apply sorted_unique; try now apply sorted_items_sorted.
    rewrite !sorted_items_perm. exact Hperm. }
  unfold Roostoo.sign, Roostoo.query. rewrite E.
  repeat split; try reflexivity.
  - rewrite <- E. now apply sorted_items_sorted.
  - rewrite <- E. apply sorted_items_perm.
Qed.

End SigningFacts.

Lemma signature_ignores_insertion_order_witness :
  let render := fun v : string => v in
  let mac := fun key msg : string => (key ++ ":" ++ msg)%string in
  let d := [("pair", "BTC/USD"); ("side", "BUY"); ("timestamp", "17")]%string in
  let d' := [("side", "BUY"); ("pair", "BTC/USD"); ("timestamp", "17")]%string in
  Roostoo.query render d = Roostoo.query render d' /\
  Roostoo.sign render mac "secret" (Some d)
  = Roostoo.sign render mac "secret" (Some d') /\
  StronglySorted (@Roostoo.key_lt string) (Roostoo.sorted_items d) /\
  Permutation (Roostoo.sorted_items d) d /\
  Roostoo.sign render mac "secret" None = mac "secret"%string EmptyString.
Proof.
  intros render mac d d'.
  apply (@signature_ignores_insertion_order string render mac
           "secret"%string d d').
  - subst d. simpl. repeat constructor; simpl; intuition discriminate.
  - subst d d'. apply perm_swap.
Defined.

Example query_is_sorted_by_key :
  Roostoo.query (fun v : string => v)
    [("timestamp", "17"); ("side", "BUY"); ("pair", "BTC/USD")]%string
  = "pair=BTC/USD&side=BUY&timestamp=17"%string.
Proof. reflexivity. Qed.

Section RequestFacts.

Variable V : Type.

Lemma lookup_assign_same (d : Roostoo.params V) (k : string) (v : V) :
  Roostoo.lookup (Roostoo.assign d k v) k = Some v.
Proof.
  induction d as [|[k' v'] d IH]; simpl.
  - now rewrite String.eqb_refl.
  - destruct (String.eqb k' k) eqn:E; simpl; rewrite E; [reflexivity|exact IH].
Qed.

Lemma lookup_assign_other (d : Roostoo.params V) (k k' : string) (v : V) :
  k <> k' ->
  Roostoo.lookup (Roostoo.assign d k v) k' = Roostoo.lookup d k'.
Proof.
  intros Hne. induction d as [|[k0 v0] d IH]; simpl.
  - destruct (String.eqb_spec k k'); [contradiction|reflexivity].
  - destruct (String.eqb_spec k0 k) as [->|Hk]; simpl.
    + destruct (String.eqb_spec k k'); [contradiction|reflexivity].
    + destruct (String.eqb k0 k'); [reflexivity|exact IH].
Qed.

Lemma lookup_out (d : Roostoo.params V) (k : string) :
  ~ In k (map fst d) -> Roostoo.lookup d k = None.
Proof.
  induction d as [|[k' v'] d IH]; simpl; [reflexivity|].
  intros Hout. destruct (String.eqb_spec k' k) as [->|Hne].
  - exfalso. apply Hout. now left.
  - apply IH. intros H. apply Hout. now right.
Qed.

Lemma assign_keys (d : Roostoo.params V) (k : string) (v : V) :
  (In k (map fst d) /\ map fst (Roostoo.assign d k v) = map fst d) \/
  (~ In k (map fst d) /\ map fst (Roostoo.assign d k v) = map fst d ++ [k]).
Proof.
  induction d as [|[k' v'] d IH]; simpl.
  - right. split; [tauto|reflexivity].
  - destruct (String.eqb_spec k' k) as [->|Hne]; simpl.
    + left. split; [now left|reflexivity].
    + destruct IH as [[Hin E]|[Hout E]]; rewrite E.
      * left. split; [now right|reflexivity].
      * right. split; [|reflexivity]. intros [H|H]; contradiction.
Qed.

Lemma assign_NoDup (d : Roostoo.params V) (k : string) (v : V) :
  NoDup (map fst d) -> NoDup (map fst (Roostoo.assign d k v)).
Proof.
  intros Hnd. destruct (assign_keys d k v) as [[_ E]|[Hout E]]; rewrite E.
  - exact Hnd.
  - apply NoDup_app; [exact Hnd|repeat constructor; simpl; tauto|].
    intros x Hx [<-|[]]. contradiction.
Qed.

Lemma unpack_NoDup (into from : Roostoo.params V) :
  NoDup (map fst into) -> NoDup (map fst (Roostoo.unpack into from)).
Proof.
  revert into. induction from as [|[k v] from IH]; intros into Hnd; simpl;
    [exact Hnd|].
  apply IH. now apply assign_NoDup.
Qed.

Lemma unpack_lookup (into from : Roostoo.params V) (k : string) :
  NoDup (map fst from) ->
  Roostoo.lookup (Roostoo.unpack into from) k
  = match Roostoo.lookup from k with
    | Some v => Some v
    | None => Roostoo.lookup into k
    end.
Proof.
  revert into. induction from as [|[k0 v0] from IH]; intros into Hnd; simpl;
    [reflexivity|].
  apply NoDup_cons_iff in Hnd. destruct Hnd as [Hout Hnd].
  fold (Roostoo.unpack (Roostoo.assign into k0 v0) from).
  rewrite IH by exact Hnd.
  destruct (String.eqb_spec k0 k) as [->|Hne].
  - rewrite (@lookup_out from k Hout). apply lookup_assign_same.
  - destruct (Roostoo.lookup from k); [reflexivity|].
    now apply lookup_assign_other.
Qed.

(** X17.  The parameters that [_sign_and_request] signs and sends always
    carry the fresh timestamp, also when the caller passed a ["timestamp"]
    of its own; for every other key the value of [data] wins over that of
    [params]; and the keys stay distinct. *)
Theorem signed_params_carry_fresh_timestamp
    (p data : Roostoo.params V) (ts : V) :
  NoDup (map fst p) ->
  NoDup (map fst data) ->
  let all := Roostoo.all_params (Some p) (Some data) ts in
  Roostoo.lookup all "timestamp" = Some ts /\
  (forall k, k <> "timestamp"%string ->
     Roostoo.lookup all k
     = match Roostoo.lookup data k with
       | Some v => Some v
       | None => Roostoo.lookup p k
       end) /\
  NoDup (map fst all) /\
  Roostoo.all_params None None ts = [("timestamp"%string, ts)].
Proof.
  intros Hp Hd all. subst all. unfold Roostoo.all_params.
  split; [apply lookup_assign_same|]. split; [|split].
  - intros k Hk. rewrite lookup_assign_other by congruence.
    rewrite !unpack_lookup by assumption. simpl.
    destruct (Roostoo.lookup data k); [reflexivity|].
    now destruct (Roostoo.lookup p k).
  - apply assign_NoDup, unpack_NoDup, unpack_NoDup. constructor.
  - reflexivity.
Qed.

End RequestFacts.

Lemma signed_params_carry_fresh_timestamp_witness :
  let p := [("pair", "BTC/USD"); ("timestamp", "0")]%string in
  let data := [("pair", "ETH/USD"); ("side", "BUY")]%string in
  let all := Roostoo.all_params (Some p) (Some data) "17"%string in
  Roostoo.lookup all "timestamp" = Some "17"%string /\
  (forall k, k <> "timestamp"%string ->
     Roostoo.lookup all k
     = match Roostoo.lookup data k with
       | Some v => Some v
       | None => Roostoo.lookup p k
       end) /\
  NoDup (map fst all) /\
  Roostoo.all_params None None "17"%string = [("timestamp"%string, "17"%string)].
Proof.
  intros p data.
  apply (@signed_params_carry_fresh_timestamp string p data "17"%string).
  - subst p. simpl. repeat constructor; simpl; intuition discriminate.
  - subst data. simpl. repeat constructor; simpl; intuition discriminate.
Defined.

(* ===================================================================== *)
(** ** The balance request *)

Lemma dict_set_new (d : dict) (k : string) (v : Q) :
  ~ In k (dict_keys d) -> dict_set d k v = d ++ [(k, v)].
Proof.
  induction d as [|[k' v'] d IH]; simpl; [reflexivity|].
  intros Hout. destruct (String.eqb_spec k' k) as [->|Hne].
  - exfalso. apply Hout. now left.
  - f_equal. apply IH. intros H. apply Hout. now right.
Qed.

Lemma free_amounts_from (wallet : list (string * dict)) (balances : dict) :
  NoDup (dict_keys balances ++ map fst wallet) ->
  fold_left
    (fun balances entry =>
       dict_set balances (fst entry) (dict_get_default (snd entry) "Free" 0))
    wallet balances
  = balances
    ++ map (fun entry => (fst entry, dict_get_default (snd entry) "Free" 0))
         wallet.
Proof.
  revert balances. induction wallet as [|[coin info] wallet IH];
    intros balances Hnd; simpl.
  - now rewrite app_nil_r.
  - assert (Hout : ~ In coin (dict_keys balances)).
    { intros H. apply NoDup_remove_2 in Hnd. apply Hnd.
      apply in_or_app. now left. }
    rewrite (@dict_set_new balances coin _ Hout). rewrite IH.
    + now rewrite <- app_assoc.
    + unfold dict_keys in *. rewrite map_app. simpl.
      rewrite <- app_assoc. simpl. exact Hnd.
Qed.

(** X18.  [RoostooClient.get_balance] never raises.  When its request
    raises, or the answer is empty or not a success, it returns the empty
    dict and logs an error; on a success it returns one entry per coin of
    the wallet, in the wallet's order, with the coin's ["Free"] amount, or 0
    when the coin has none, and logs nothing. *)
Theorem get_balance_is_free_amounts_or_empty
    (resp : Roostoo.balance_response) (wallet : list (string * dict)) :
  Roostoo.Wallet resp = Some wallet ->
  NoDup (map fst wallet) ->
  (Roostoo.Success resp = true ->
   Roostoo.get_balance (Ok (Some resp))
   = (map (fun entry => (fst entry, dict_get_default (snd entry) "Free" 0))
        wallet, [])) /\
  (Roostoo.Success resp = false ->
   Roostoo.get_balance (Ok (Some resp)) = ([], [Roostoo.BalanceRefused])) /\
  Roostoo.get_balance (Ok None) = ([], [Roostoo.BalanceRefused]) /\
  (forall e, Roostoo.get_balance (Raise e)
             = ([], [Roostoo.BalanceException e])) /\
  (forall coin info,
      Roostoo.Success resp = true ->
      In (coin, info) wallet ->
      dict_get (fst (Roostoo.get_balance (Ok (Some resp)))) coin
      = Some (dict_get_default info "Free" 0)).
Proof.
  intros Hw Hnd.
  assert (Hrun : Roostoo.Success resp = true ->
                 Roostoo.get_balance (Ok (Some resp))
                 = (map (fun entry =>
                           (fst entry, dict_get_default (snd entry) "Free" 0))
                      wallet, [])).
  { intros Hs. unfold Roostoo.get_balance, Roostoo.free_amounts.
    rewrite Hs, Hw. now rewrite free_amounts_from. }
  split; [exact Hrun|]. split; [|split; [reflexivity|split; [reflexivity|]]].
  - intros Hs. unfold Roostoo.get_balance. now rewrite Hs.
  - intros coin info Hs Hin. rewrite (Hrun Hs). simpl.
    destruct (In_nth_error _ _ Hin) as [i Hi].
    apply dict_get_nth with i.
    + unfold dict_keys. rewrite map_map. simpl. exact Hnd.
    + rewrite nth_error_map, Hi. reflexivity.
Qed.

Lemma get_balance_is_free_amounts_or_empty_witness :
  let wallet := [("USD", [("Free", 1000000); ("Lock", 5)]);
                 ("BTC", [("Lock", 2)])]%string in
  let resp := {| Roostoo.Success := true; Roostoo.Wallet := Some wallet |} in
  (Roostoo.Success resp = true ->
   Roostoo.get_balance (Ok (Some resp))
   = (map (fun entry => (fst entry, dict_get_default (snd entry) "Free" 0))
        wallet, [])) /\
  (Roostoo.Success resp = false ->
   Roostoo.get_balance (Ok (Some resp)) = ([], [Roostoo.BalanceRefused])) /\
  Roostoo.get_balance (Ok None) = ([], [Roostoo.BalanceRefused]) /\
  (forall e, Roostoo.get_balance (Raise e)
             = ([], [Roostoo.BalanceException e])) /\
  (forall coin info,
      Roostoo.Success resp = true ->
      In (coin, info) wallet ->
      dict_get (fst (Roostoo.get_balance (Ok (Some resp)))) coin
      = Some (dict_get_default info "Free" 0)).
Proof.
  intros wallet resp.
  apply (@get_balance_is_free_amounts_or_empty resp wallet).
  - reflexivity.
  - subst wallet. simpl. repeat constructor; simpl; intuition discriminate.
Defined.

(* ===================================================================== *)
(** ** Dry-run mode *)

Lemma bind_ext {S A B : Type} (m m' : M S A) (k k' : A -> M S B) (s : S) :
  m s = m' s ->
  (forall a s1, k a s1 = k' a s1) ->
  bind m k s = bind m' k' s.
Proof.
  intros Hm Hk. rewrite !bind_out, Hm.
  destruct (out_res (m' s)); [now rewrite Hk|reflexivity].
Qed.

Section DryRun.

Variable cfg : Config.
Variable draws : nat -> Q.
Variables client client' : ExchangeClient.t.
Hypothesis dry : DRY_RUN cfg = true.
Hypothesis same_horus :
  ExchangeClient.horus client = ExchangeClient.horus client'.

Lemma fetch_prices_same_horus (syms : list string) (prices : dict) (w : World) :
  DynamicMomentumBot.fetch_prices cfg draws client syms prices w
  = DynamicMomentumBot.fetch_prices cfg draws client' syms prices w.
Proof.
  revert prices w. induction syms as [|sym syms IH]; intros prices w; simpl;
    [reflexivity|].
  apply bind_ext; [|intros; apply IH].
  unfold ExchangeClient.fetch_price. now rewrite same_horus.
Qed.

Lemma fill_targets_same_horus (syms : list string) (positions targets : dict)
    (w : World) :
  DynamicMomentumBot.fill_targets cfg client syms positions targets w
  = DynamicMomentumBot.fill_targets cfg client' syms positions targets w.
Proof.
  revert targets w. induction syms as [|sym syms IH]; intros targets w; simpl;
    [reflexivity|].
  apply bind_ext.
  - unfold DynamicMomentumBot.momentum_return. now rewrite same_horus.
  - intros r s1. apply bind_ext; [reflexivity|intros; apply IH].
Qed.

Lemma rebalance_dry (items : list (string * Q)) (positions prices : dict)
    (total_value : Q) (w : World) :
  DynamicMomentumBot.rebalance cfg client items positions prices total_value w
  = DynamicMomentumBot.rebalance cfg client' items positions prices
      total_value w.
Proof.
  revert w. induction items as [|[sym target_usd] items IH]; intros w; simpl;
    [reflexivity|].
  apply bind_ext; [|intros; apply IH].
  unfold DynamicMomentumBot.rebalance_one.
  apply bind_ext; [reflexivity|intros current_usd s1].
  destruct (Qltb _ _); [|reflexivity].
  apply bind_ext; [reflexivity|intros price s2].
  apply bind_ext; [reflexivity|intros amount s3].
  apply bind_ext; [|reflexivity].
  unfold ExchangeClient.place_order. now rewrite dry.
Qed.

Lemma step_dry (w : World) :
  DynamicMomentumBot.step cfg draws client w
  = DynamicMomentumBot.step cfg draws client' w.
Proof.
  unfold DynamicMomentumBot.step, try_except.
  assert (E : DynamicMomentumBot.step_body cfg draws client w
              = DynamicMomentumBot.step_body cfg draws client' w);
    [|now rewrite E].
  unfold DynamicMomentumBot.step_body.
  apply bind_ext; [apply fetch_prices_same_horus|intros prices s1].
  apply bind_ext; [reflexivity|intros _ s2].
  apply bind_ext.
  { unfold ExchangeClient.get_balance. now rewrite dry. }
  intros balance s3.
  apply bind_ext; [reflexivity|intros positions s4].
  apply bind_ext; [reflexivity|intros _ s5].
  apply bind_ext; [reflexivity|intros allowed s6].
  destruct allowed; cbn [negb]; [|reflexivity].
  apply bind_ext; [apply fill_targets_same_horus|intros targets s7].
  apply bind_ext; [reflexivity|intros returns s8].
  apply bind_ext; [reflexivity|intros _ s9].
  apply bind_ext; [reflexivity|intros _ s10].
  apply rebalance_dry.
Qed.

(** In dry-run mode the rebalance loop logs no call to the venue. *)
Lemma rebalance_dry_events (items : list (string * Q))
    (positions prices : dict) (total_value : Q) (J : RiskManager.t -> Prop) :
  triple (fun w : World => J (risk w))
    (fun ev => match ev with
               | LiveOrder _ _ _ | OrderFailed _ _ => False
               | _ => True
               end)
    (DynamicMomentumBot.rebalance cfg client items positions prices
       total_value).
Proof.
  induction items as [|[sym target_usd] items IH]; simpl;
    [auto with triples|].
  apply triple_bind; [|intros _; exact IH].
  unfold DynamicMomentumBot.rebalance_one.
  apply triple_bind; [auto with triples|intros current_usd].
  destruct (Qltb _ _); [|auto with triples].
  apply triple_bind; [auto with triples|intros price].
  apply triple_bind; [auto with triples|intros amount].
  apply triple_bind; [|intros _; now apply triple_logger].
  unfold ExchangeClient.place_order. rewrite dry.
  destruct (Qeq_bool amount 0); [auto with triples|now apply triple_logger].
Qed.

End DryRun.

(** The events of a cycle are informative lines, risk warnings, the pause
    line, the error line, and what the rebalance loop logs. *)
Lemma step_events (cfg : Config) (draws : nat -> Q) (client : ExchangeClient.t)
    (P : event -> Prop) :
  (forall ev, plain_event ev = true -> P ev) ->
  (forall ev, risk_event ev = true -> P ev) ->
  P LogRiskPause ->
  (forall e, P (StepError e)) ->
  (forall items positions prices total_value,
      triple (fun _ : World => True) P
        (DynamicMomentumBot.rebalance cfg client items positions prices
           total_value)) ->
  triple (fun _ : World => True) P (DynamicMomentumBot.step cfg draws client).
Proof.
  intros Hplain Hrisk Hpause Herror Hreb.
  unfold DynamicMomentumBot.step.
  apply triple_try_except; [|intros e; now apply triple_format_log].
  unfold DynamicMomentumBot.step_body.
  apply triple_bind.
  { eapply triple_weaken; [exact Hplain|]. apply fetch_prices_plain. auto. }
  intros prices.
  apply triple_bind; [apply triple_logger; now apply Hplain|intros _].
  apply triple_bind.
  { apply triple_pure_any. intros s0.
    eapply triple_weaken; [exact Hplain|apply get_balance_plain]. }
  intros balance. apply triple_bind.
  { apply triple_pure_any. intros s0.
    eapply triple_weaken; [exact Hplain|apply fill_positions_plain]. }
  intros positions.
  apply triple_bind; [apply triple_logger; now apply Hplain|intros _].
  apply triple_bind.
  { eapply triple_weaken; [exact Hrisk|]. apply check_risk_events. auto. }
  intros allowed. destruct allowed; cbn [negb];
    [|now apply triple_logger].
  apply triple_bind.
  { apply triple_pure_any. intros s0.
    eapply triple_weaken; [exact Hplain|apply fill_targets_plain]. }
  intros targets. apply triple_bind.
  { apply triple_pure_any. intros s0.
    eapply triple_weaken; [exact Hplain|apply mock_returns_plain]. }
  intros returns.
  apply triple_bind; [apply triple_logger; now apply Hplain|intros _].
  apply triple_bind; [apply triple_logger; now apply Hplain|intros _].
  apply Hreb.
Qed.

(** X19.  In dry-run mode a cycle never reaches the venue: its log has no
    order handed to the venue and no venue failure, and its whole outcome
    (state, log, result) is the same with any other venue client behind the
    same quote service. *)
Theorem dry_run_never_reaches_venue (cfg : Config) (draws : nat -> Q)
    (client client' : ExchangeClient.t) (w : World) :
  DRY_RUN cfg = true ->
  ExchangeClient.horus client = ExchangeClient.horus client' ->
  DynamicMomentumBot.step cfg draws client w
  = DynamicMomentumBot.step cfg draws client' w /\
  forall ev, In ev (out_log (DynamicMomentumBot.step cfg draws client w)) ->
             match ev with
             | LiveOrder _ _ _ | OrderFailed _ _ => False
             | _ => True
             end.
Proof.
  intros Hdry Hhorus. split; [now apply step_dry|].
  assert (H : triple (fun _ : World => True)
                (fun ev => match ev with
                           | LiveOrder _ _ _ | OrderFailed _ _ => False
                           | _ => True
                           end)
                (DynamicMomentumBot.step cfg draws client)).
  { apply step_events.
    - intros ev; destruct ev; simpl; intros; try discriminate; exact I.
    - intros ev; destruct ev; simpl; intros; try discriminate; exact I.
    - exact I.
    - intros e. exact I.
    - intros items positions prices total_value.
      apply (@rebalance_dry_events cfg client Hdry items positions prices
               total_value (fun _ => True)). }
  destruct (H w I) as [_ Hall]. rewrite Forall_forall in Hall. exact Hall.
Qed.

Lemma dry_run_never_reaches_venue_witness :
  DynamicMomentumBot.step dry_forced steady_draws quiet_client init_world
  = DynamicMomentumBot.step dry_forced steady_draws funded_client init_world /\
  forall ev,
    In ev (out_log (DynamicMomentumBot.step dry_forced steady_draws
                      quiet_client init_world)) ->
    match ev with
    | LiveOrder _ _ _ | OrderFailed _ _ => False
    | _ => True
    end.
Proof.
  apply (@dry_run_never_reaches_venue dry_forced steady_draws quiet_client
           funded_client init_world); reflexivity.
Defined.

(* ===================================================================== *)
(** ** The orders of a cycle *)

Lemma subseq_empty {A : Type} (l : list A) : subseq [] l.
Proof. induction l; constructor; assumption. Qed.

Lemma subseq_In {A : Type} (l1 l2 : list A) (x : A) :
  subseq l1 l2 -> In x l1 -> In x l2.
Proof.
  induction 1 as [|y l1 l2 _ IH|y l1 l2 _ IH]; intros Hin.
  - exact Hin.
  - right. now apply IH.
  - destruct Hin as [->|Hin]; [now left|right; now apply IH].
Qed.

Lemma subseq_NoDup {A : Type} (l1 l2 : list A) :
  subseq l1 l2 -> NoDup l2 -> NoDup l1.
Proof.
  induction 1 as [|y l1 l2 Hs IH|y l1 l2 Hs IH]; intros Hnd.
  - constructor.
  - apply IH. now apply NoDup_cons_iff in Hnd.
  - apply NoDup_cons_iff in Hnd. destruct Hnd as [Hout Hnd].
    constructor; [|now apply IH].
    intros Hin. apply Hout. now apply (@subseq_In A l1 l2 y Hs).
Qed.

Lemma subseq_length {A : Type} (l1 l2 : list A) :
  subseq l1 l2 -> (List.length l1 <= List.length l2)%nat.
Proof. induction 1; simpl; lia. Qed.

Lemma order_symbols_app (l1 l2 : list event) :
  order_symbols (l1 ++ l2) = order_symbols l1 ++ order_symbols l2.
Proof. unfold order_symbols. apply flat_map_app. Qed.

Lemma order_symbols_quiet (l : list event) :
  Forall (fun ev => order_of ev = None) l -> order_symbols l = [].
Proof.
  induction 1 as [|ev l Hev _ IH]; simpl; [reflexivity|].
  now rewrite Hev.
Qed.

Lemma order_symbols_filter (l : list event) :
  order_symbols l = order_symbols (filter is_order l).
Proof.
  induction l as [|ev l IH]; simpl; [reflexivity|].
  unfold is_order. destruct (order_of ev) as [[sym q]|] eqn:E; simpl.
  - rewrite E. simpl. now f_equal.
  - exact IH.
Qed.

Lemma subseq_bind {S A B : Type} (m : M S A) (k : A -> M S B) (s : S)
    (L : list string) :
  order_symbols (out_log (m s)) = [] ->
  (forall a, out_res (m s) = Ok a ->
             subseq (order_symbols (out_log (k a (out_state (m s))))) L) ->
  subseq (order_symbols (out_log (bind m k s))) L.
Proof.
  intros Hm Hk. rewrite bind_out.
  destruct (out_res (m s)) as [a|e]; simpl.
  - rewrite order_symbols_app, Hm. simpl. now apply Hk.
  - rewrite Hm. apply subseq_empty.
Qed.

Lemma rebalance_one_order_symbols (cfg : Config) (client : ExchangeClient.t)
    (positions prices : dict) (total_value : Q)
    (sym : string) (target_usd : Q) (w : World) :
  subseq
    (order_symbols
       (out_log (DynamicMomentumBot.rebalance_one cfg client positions prices
                   total_value sym target_usd w))) [sym].
Proof.
  unfold DynamicMomentumBot.rebalance_one.
  apply subseq_bind; [reflexivity|intros current_usd _].
  destruct (Qltb _ _); [|apply subseq_empty].
  apply subseq_bind; [reflexivity|intros price _].
  apply subseq_bind; [reflexivity|intros amount _].
  rewrite bind_out.
  match goal with
  | |- context [ExchangeClient.place_order cfg client sym ?sd ?a ?s] =>
      destruct (place_order_contained cfg client sym sd a s) as (_ & Hr & Hl);
      rewrite Hr
  end.
  cbn [out_log logger]. rewrite order_symbols_app.
  rewrite order_symbols_filter, Hl. cbn [order_symbols flat_map order_of app].
  destruct (Qeq_bool amount 0); [apply subseq_empty|].
  unfold order_event. destruct (DRY_RUN cfg); simpl.
  all: apply subseq_take; apply subseq_nil.
Qed.

Lemma subseq_single {A : Type} (l : list A) (x : A) :
  subseq l [x] -> l = [] \/ l = [x].
Proof.
  intros H. inversion H as [|y l1 l2 Hs|y l1 l2 Hs]; subst.
  - inversion Hs; subst. now left.
  - inversion Hs; subst. now right.
Qed.

Lemma rebalance_order_symbols (cfg : Config) (client : ExchangeClient.t)
    (items : list (string * Q)) (positions prices : dict)
    (total_value : Q) (w : World) :
  subseq
    (order_symbols
       (out_log (DynamicMomentumBot.rebalance cfg client items positions prices
                   total_value w))) (map fst items).
Proof.
  revert w. induction items as [|[sym target_usd] items IH]; intros w; simpl;
    [constructor|].
  rewrite bind_out.
  pose proof (rebalance_one_order_symbols cfg client positions prices
                total_value sym target_usd w) as Hone.
  destruct (out_res (DynamicMomentumBot.rebalance_one cfg client positions
                       prices total_value sym target_usd w)) as [[]|e];
    cbn [out_log].
  - rewrite order_symbols_app.
    specialize (IH (out_state (DynamicMomentumBot.rebalance_one cfg client
                                 positions prices total_value sym target_usd w))).
    destruct (subseq_single Hone) as [E|E]; rewrite E; simpl;
      now constructor.
  - destruct (subseq_single Hone) as [E|E]; rewrite E.
    + apply subseq_empty.
    + apply subseq_take, subseq_empty.
Qed.

(** The targets of a cycle are those of the three symbols, in order. *)
Lemma fill_targets_shape (cfg : Config) (client : ExchangeClient.t)
    (positions : dict) (w : World) (targets : dict) :
  out_res (DynamicMomentumBot.fill_targets cfg client SYMBOLS positions [] w)
  = Ok targets ->
  map fst targets = SYMBOLS.
Proof.
  unfold DynamicMomentumBot.fill_targets, SYMBOLS.
  rewrite bind_out.
  destruct (out_res (DynamicMomentumBot.momentum_return cfg client "BTC/USD" w))
    as [r1|e]; [|discriminate].
  cbn [out_res]. rewrite bind_out. unfold lift at 1 2.
  destruct (dict_item positions "BTC/USD") as [c1|e]; [|discriminate].
  cbn [out_res out_state]. rewrite bind_out.
  destruct (out_res (DynamicMomentumBot.momentum_return cfg client "ETH/USD" _))
    as [r2|e]; [|discriminate].
  cbn [out_res]. rewrite bind_out. unfold lift at 1 2.
  destruct (dict_item positions "ETH/USD") as [c2|e]; [|discriminate].
  cbn [out_res out_state]. rewrite bind_out.
  destruct (out_res (DynamicMomentumBot.momentum_return cfg client "SOL/USD" _))
    as [r3|e]; [|discriminate].
  cbn [out_res]. rewrite bind_out. unfold lift at 1 2.
  destruct (dict_item positions "SOL/USD") as [c3|e]; [|discriminate].
  cbn [out_res out_state ret]. intros H. injection H as <-. reflexivity.
Qed.

Lemma plain_no_order (ev : event) :
  plain_event ev = true -> order_of ev = None.
Proof. destruct ev; simpl; intros H; try discriminate; reflexivity. Qed.

Lemma risk_no_order (ev : event) :
  risk_event ev = true -> order_of ev = None.
Proof. destruct ev; simpl; intros H; try discriminate; reflexivity. Qed.

Lemma quiet_stage {S A : Type} (I : S -> Prop) (P : event -> Prop)
    (m : M S A) (s : S) :
  triple I P m -> I s ->
  (forall ev, P ev -> order_of ev = None) ->
  order_symbols (out_log (m s)) = [].
Proof.
  intros Hm Hs HP. destruct (Hm s Hs) as [_ Hl].
  apply order_symbols_quiet. eapply Forall_impl; [exact HP|exact Hl].
Qed.

(** X21.  A cycle places at most one order per symbol, and the orders come
    in the configured order of the symbols (BTC, ETH, SOL): the symbols of
    the orders in the log of [step] are the configured list with some
    symbols left out, so they are distinct and at most three. *)
Theorem cycle_orders_follow_symbols (cfg : Config) (draws : nat -> Q)
    (client : ExchangeClient.t) (w : World) :
  let log := out_log (DynamicMomentumBot.step cfg draws client w) in
  subseq (order_symbols log) SYMBOLS /\
  NoDup (order_symbols log) /\
  (List.length (filter is_order log) <= 3)%nat.
Proof.
  intros log.
  assert (Hbody : subseq
            (order_symbols
               (out_log (DynamicMomentumBot.step_body cfg draws client w)))
            SYMBOLS).
  { unfold DynamicMomentumBot.step_body.
    apply subseq_bind.
    { apply quiet_stage with (I := fun _ => True)
                             (P := fun ev => plain_event ev = true);
        [apply fetch_prices_plain; auto|exact I|apply plain_no_order]. }
    intros prices _. apply subseq_bind; [reflexivity|intros _ _].
    apply subseq_bind.
    { eapply quiet_stage;
        [apply get_balance_plain|reflexivity|apply plain_no_order]. }
    intros balance _. apply subseq_bind.
    { eapply quiet_stage;
        [apply fill_positions_plain|reflexivity|apply plain_no_order]. }
    intros positions _. apply subseq_bind; [reflexivity|intros _ _].
    apply subseq_bind.
    { apply quiet_stage with (I := fun _ => True)
                             (P := fun ev => risk_event ev = true);
        [apply check_risk_events; auto|exact I|apply risk_no_order]. }
    intros allowed _. destruct allowed; cbn [negb]; [|apply subseq_empty].
    apply subseq_bind.
    { eapply quiet_stage;
        [apply fill_targets_plain|reflexivity|apply plain_no_order]. }
    intros targets Htargets. apply fill_targets_shape in Htargets.
    apply subseq_bind.
    { eapply quiet_stage;
        [apply mock_returns_plain|reflexivity|apply plain_no_order]. }
    intros returns _. apply subseq_bind; [reflexivity|intros _ _].
    apply subseq_bind; [reflexivity|intros _ _].
    rewrite <- Htargets. apply rebalance_order_symbols. }
  assert (Hstep : subseq (order_symbols log) SYMBOLS).
  { subst log.
    destruct (step_log_state cfg draws client w) as [_ [E|[e [_ E]]]];
      rewrite E; [exact Hbody|].
    rewrite order_symbols_app. simpl. now rewrite app_nil_r. }
  split; [exact Hstep|]. split.
  - apply (subseq_NoDup Hstep). apply SYMBOLS_NoDup.
  - apply subseq_length in Hstep. simpl in Hstep.
    rewrite order_symbols_filter in Hstep.
    assert (E : forall l, Forall (fun ev => is_order ev = true) l ->
                List.length (order_symbols l) = List.length l).
    { induction 1 as [|ev l Hev _ IH]; simpl; [reflexivity|].
      unfold is_order in Hev. destruct (order_of ev) as [[s q]|];
        [simpl; now f_equal|discriminate]. }
    rewrite E in Hstep; [exact Hstep|].
    apply Forall_forall. intros ev Hin. now apply filter_In in Hin.
Qed.

(* ===================================================================== *)
(** ** Binary64: order and the exact cases of the arithmetic *)

Section Binary64Facts.

Import Floats.
#[local] Open Scope float_scope.
#[local] Set Warnings "-inexact-float".

(** Case analysis on the comparisons of exponents and mantissas. *)
Ltac order_cases :=
  change (PosDef.Pos.compare_cont Eq) with Pos.compare in *;
  repeat match goal with
         | H : context [(?a ?= ?b)%Z] |- _ => destruct (Z.compare_spec a b)
         | |- context [(?a ?= ?b)%Z] => destruct (Z.compare_spec a b)
         | H : context [Pos.compare ?a ?b] |- _ =>
             destruct (Pos.compare_spec a b)
         | |- context [Pos.compare ?a ?b] => destruct (Pos.compare_spec a b)
         end;
  simpl in *; try reflexivity; try discriminate; try lia.

Lemma SFleb_ltb_trans (a p t : spec_float) :
  SFleb a p = true -> SFltb p t = true -> SFleb a t = true.
Proof.
  unfold SFleb, SFltb, SFcompare.
  destruct a as [sa|sa| |sa ma ea], p as [sp|sp| |sp mp ep],
           t as [st|st| |st mt et];
    try discriminate; try reflexivity;
    repeat match goal with s : bool |- _ => destruct s end;
    try discriminate; try reflexivity; intros H1 H2; order_cases.
Qed.

(** [a <= p] and [p < t] give [a <= t], also with infinities; a NaN
    satisfies neither hypothesis. *)
Lemma leb_ltb_trans (a p t : float) :
  (a <=? p) = true -> (p <? t) = true -> (a <=? t) = true.
Proof. rewrite !leb_spec, ltb_spec. apply SFleb_ltb_trans. Qed.

Lemma eqb_zero (z : float) :
  (z =? 0) = true <-> exists s, Prim2SF z = S754_zero s.
Proof.
  rewrite FloatAxioms.eqb_spec. change (Prim2SF 0) with (S754_zero false).
  unfold SFeqb, SFcompare.
  destruct (Prim2SF z) as [s|s| |s m e]; split; try discriminate;
    try (intros [s' H]; discriminate); try (destruct s; discriminate).
  - intros _. now exists s.
  - reflexivity.
Qed.

Lemma div_eucl_mul (m : positive) (k : Z) :
  Z.div_eucl (Z.pos m * k) (Z.pos m) = (k, 0%Z).
Proof.
  pose proof (Z.div_eucl_eq (Z.pos m * k) (Z.pos m)) as H.
  pose proof (Z.mod_pos_bound (Z.pos m * k) (Z.pos m)) as B.
  unfold Z.modulo in B.
  destruct (Z.div_eucl (Z.pos m * k) (Z.pos m)) as [q r].
  specialize (H ltac:(lia)). specialize (B ltac:(lia)).
  assert (q = k) by nia. subst q. f_equal. lia.
Qed.

(** A finite float divided by itself is 1: the quotient of the mantissas
    is a power of two, and nothing is rounded. *)
Lemma SFdiv_self (s : bool) (m : positive) (e : Z) :
  SF64div (S754_finite s m e) (S754_finite s m e) = Prim2SF 1.
Proof.
  unfold SF64div, SFdiv, SFdiv_core_binary.
  replace (Zdigits2 (Z.pos m) + e - (Zdigits2 (Z.pos m) + e))%Z with 0%Z by lia.
  replace (e - e)%Z with 0%Z by lia.
  change (IntDef.Z.min (fexp prec emax 0) 0)%Z with (-53)%Z.
  change (0 - -53)%Z with 53%Z. cbv iota.
  change IntDef.Z.shiftl with Z.shiftl.
  change IntDef.Z.div_eucl with Z.div_eucl.
  rewrite Z.shiftl_mul_pow2 by lia.
  rewrite div_eucl_mul, xorb_nilpotent.
  unfold new_location, new_location_even, new_location_odd.
  destruct (Z.even (Z.pos m)); vm_compute; reflexivity.
Qed.

Lemma div_self (x : float) (s : bool) (m : positive) (e : Z) :
  Prim2SF x = S754_finite s m e -> x / x = 1.
Proof.
  intros H. apply Prim2SF_inj. rewrite div_spec, H. apply SFdiv_self.
Qed.

Lemma sub_zero (x z : float) (s s' : bool) (m : positive) (e : Z) :
  Prim2SF x = S754_finite s m e -> Prim2SF z = S754_zero s' -> x - z = x.
Proof.
  intros H Hz. apply Prim2SF_inj. rewrite sub_spec, H, Hz. reflexivity.
Qed.

Lemma infinity_sub_zero (z : float) (s : bool) :
  Prim2SF z = S754_zero s -> infinity - z = infinity.
Proof.
  intros Hz. apply Prim2SF_inj. rewrite sub_spec, Hz. reflexivity.
Qed.

Lemma digits2_pos_bounds (m : positive) :
  (2 ^ (Z.pos (digits2_pos m) - 1) <= Z.pos m < 2 ^ Z.pos (digits2_pos m))%Z.
Proof.
  induction m as [m IH|m IH|]; cbn [digits2_pos].
  - change (PosDef.Pos.succ (digits2_pos m)) with (Pos.succ (digits2_pos m)).
    rewrite Pos2Z.inj_succ.
    replace (Z.succ (Z.pos (digits2_pos m)) - 1)%Z
      with (Z.succ (Z.pos (digits2_pos m) - 1)) by lia.
    rewrite !Z.pow_succ_r by lia. lia.
  - change (PosDef.Pos.succ (digits2_pos m)) with (Pos.succ (digits2_pos m)).
    rewrite Pos2Z.inj_succ.
    replace (Z.succ (Z.pos (digits2_pos m)) - 1)%Z
      with (Z.succ (Z.pos (digits2_pos m) - 1)) by lia.
    rewrite !Z.pow_succ_r by lia. lia.
  - cbn. lia.
Qed.

(** The mantissa of a float has at most 53 bits, and exactly 53 unless the
    exponent is the least one. *)
Lemma canonical_bounds (s : bool) (m : positive) (e : Z) :
  valid_binary (S754_finite s m e) = true ->
  (Z.pos m < 2 ^ 53 /\ (-1074 < e -> 2 ^ 52 <= Z.pos m))%Z.
Proof.
  cbn [SpecFloat.valid_binary]. unfold bounded, canonical_mantissa, fexp.
  intros H. apply andb_prop in H. destruct H as [H _].
  apply Z.eqb_eq in H.
  change (SpecFloat.emin prec emax) with (-1074)%Z in H.
  change prec with 53%Z in H. change IntDef.Z.max with Z.max in H.
  pose proof (digits2_pos_bounds m) as [Hlo Hhi].
  assert (Hd : (Z.pos (digits2_pos m) <= 53)%Z) by lia.
  split.
  - eapply Z.lt_le_trans; [exact Hhi|]. apply Z.pow_le_mono_r; lia.
  - intros He. assert (Z.pos (digits2_pos m) = 53%Z) by lia.
    rewrite H0 in Hlo. exact Hlo.
Qed.

Lemma shl_align_value (m : positive) (e ez : Z) :
  (ez <= e)%Z ->
  Z.pos (fst (shl_align m e ez)) = (Z.pos m * 2 ^ (e - ez))%Z.
Proof.
  intros Hle. unfold shl_align.
  destruct (ez - e)%Z as [|d|d] eqn:E; cbn [fst].
  - replace (e - ez)%Z with 0%Z by lia. lia.
  - lia.
  - change (PosDef.Pos.iter xO m d) with (Zpower.shift_pos d m).
    rewrite Zpower.shift_pos_correct, Z.pow_pos_fold.
    replace (e - ez)%Z with (Z.pos d) by lia. lia.
Qed.

Lemma binary_normalize_not_negative (z e : Z) :
  (0 <= z)%Z ->
  SFltb (binary_normalize prec emax z e false) (S754_zero false) = false.
Proof.
  intros Hz. destruct z as [|m|m]; [reflexivity| |lia].
  unfold binary_normalize, binary_round, binary_round_aux.
  destruct (shl_align _ _ _) as [mz ez].
  destruct (shr_fexp prec emax (Z.pos mz) ez loc_Exact) as [mrs' e'].
  destruct (shr_fexp prec emax _ e' loc_Exact) as [mrs'' e''].
  destruct (shr_m mrs''); [reflexivity| |reflexivity].
  destruct (_ <=? _)%Z; reflexivity.
Qed.

(** [b <= a] gives [a - b >= 0], or NaN when both are the same infinity:
    in no case does the difference compare below zero. *)
Lemma SFsub_not_negative (a b : spec_float) :
  valid_binary a = true -> valid_binary b = true ->
  SFleb b a = true ->
  SFltb (SF64sub a b) (S754_zero false) = false.
Proof.
  intros Va Vb. unfold SF64sub, SFsub, SFleb, SFcompare.
  destruct a as [sa|sa| |sa ma ea], b as [sb|sb| |sb mb eb];
    try discriminate;
    try (destruct sa, sb; (discriminate || reflexivity));
    try (destruct sa; (discriminate || reflexivity));
    try (destruct sb; (discriminate || reflexivity)).
  intros Hle. apply binary_normalize_not_negative.
  destruct (canonical_bounds _ _ _ Va) as [Ha1 Ha2].
  destruct (canonical_bounds _ _ _ Vb) as [Hb1 Hb2].
  assert (Hea : (-1074 <= ea)%Z).
  { cbn [SpecFloat.valid_binary] in Va. unfold bounded, canonical_mantissa, fexp in Va.
    apply andb_prop in Va. destruct Va as [H _]. apply Z.eqb_eq in H.
    change (SpecFloat.emin prec emax) with (-1074)%Z in H.
    change IntDef.Z.max with Z.max in H. lia. }
  assert (Heb : (-1074 <= eb)%Z).
  { cbn [SpecFloat.valid_binary] in Vb. unfold bounded, canonical_mantissa, fexp in Vb.
    apply andb_prop in Vb. destruct Vb as [H _]. apply Z.eqb_eq in H.
    change (SpecFloat.emin prec emax) with (-1074)%Z in H.
    change IntDef.Z.max with Z.max in H. lia. }
  change IntDef.Z.min with Z.min.
  rewrite (@shl_align_value ma ea (Z.min ea eb)) by lia.
  rewrite (@shl_align_value mb eb (Z.min ea eb)) by lia.
  change (PosDef.Pos.compare_cont Eq) with Pos.compare in Hle.
  destruct sa, sb; cbn [cond_Zopp]; try discriminate.
  - (* both negative: |b| >= |a| *)
    destruct (Z.compare_spec eb ea) as [E|E|E]; try discriminate.
    + subst eb. rewrite Z.min_id, Z.sub_diag, !Z.mul_1_r.
      destruct (Pos.compare_spec mb ma); cbn in Hle; try discriminate; lia.
    + (* eb > ea *)
      rewrite Z.min_l by lia. rewrite Z.sub_diag, Z.mul_1_r.
      assert (2 ^ 1 <= 2 ^ (eb - ea))%Z by (apply Z.pow_le_mono_r; lia).
      specialize (Hb2 ltac:(lia)). nia.
  - (* a positive, b negative *)
    assert (0 < 2 ^ (ea - Z.min ea eb))%Z by (apply Z.pow_pos_nonneg; lia).
    assert (0 < 2 ^ (eb - Z.min ea eb))%Z by (apply Z.pow_pos_nonneg; lia).
    nia.
  - (* both positive *)
    destruct (Z.compare_spec eb ea) as [E|E|E]; try discriminate.
    + subst eb. rewrite Z.min_id, Z.sub_diag, !Z.mul_1_r.
      destruct (Pos.compare_spec mb ma); cbn in Hle; try discriminate; lia.
    + rewrite Z.min_r by lia. rewrite Z.sub_diag, Z.mul_1_r.
      assert (2 ^ 1 <= 2 ^ (ea - eb))%Z by (apply Z.pow_le_mono_r; lia).
      specialize (Ha2 ltac:(lia)). nia.
Qed.

Lemma sub_not_negative (a b : float) :
  (b <=? a) = true -> (a - b <? 0) = false.
Proof.
  rewrite leb_spec, ltb_spec, sub_spec.
  change (Prim2SF 0) with (S754_zero false).
  apply SFsub_not_negative; apply Prim2SF_valid.
Qed.

(** *** Rounding to nearest *)

Section Rounding.

Import ZArith Floats Binary64.
#[local] Open Scope Z_scope.

Lemma digits2_pos_unique (m : positive) (n : Z) :
  (2 ^ (n - 1) <= Z.pos m < 2 ^ n)%Z -> Z.pos (digits2_pos m) = n.
Proof.
  intros [Hlo Hhi]. pose proof (digits2_pos_bounds m) as [Dlo Dhi].
  assert (Hn : (0 < n)%Z).
  { destruct (Z.lt_ge_cases 0 n) as [H|H]; [exact H|].
    exfalso. destruct (Z.eq_dec n 0) as [->|Hne].
    - cbn in Hhi. lia.
    - rewrite (Z.pow_neg_r 2 n) in Hhi by lia. lia. }
  assert (Z.pos (digits2_pos m) - 1 < n)%Z.
  { apply (Z.pow_lt_mono_r_iff 2); lia. }
  assert (n - 1 < Z.pos (digits2_pos m))%Z.
  { apply (Z.pow_lt_mono_r_iff 2); lia. }
  lia.
Qed.

Lemma valid_canonical (s : bool) (m : positive) (e : Z) :
  valid_binary (S754_finite s m e) = true -> canonical m e.
Proof.
  cbn [SpecFloat.valid_binary]. unfold bounded, canonical_mantissa, fexp.
  intros H. apply andb_prop in H. destruct H as [H H'].
  apply Z.eqb_eq in H. apply Z.leb_le in H'.
  change (SpecFloat.emin prec emax) with (-1074)%Z in H.
  change prec with 53%Z in *. change emax with 1024%Z in *.
  change IntDef.Z.max with Z.max in H.
  pose proof (digits2_pos_bounds m) as [Hlo Hhi].
  assert (Hd : (Z.pos (digits2_pos m) <= 53)%Z) by lia.
  split; [lia|]. split.
  - eapply Z.lt_le_trans; [exact Hhi|]. apply Z.pow_le_mono_r; lia.
  - intros He. assert (E : Z.pos (digits2_pos m) = 53%Z) by lia.
    rewrite E in Hlo. exact Hlo.
Qed.

Lemma canonical_valid (s : bool) (m : positive) (e : Z) :
  canonical m e -> valid_binary (S754_finite s m e) = true.
Proof.
  intros (He & Hm & Hn).
  cbn [SpecFloat.valid_binary]. unfold bounded, canonical_mantissa, fexp.
  change (SpecFloat.emin prec emax) with (-1074)%Z.
  change prec with 53%Z. change emax with 1024%Z.
  change IntDef.Z.max with Z.max.
  apply andb_true_intro. split; [|apply Z.leb_le; lia].
  apply Z.eqb_eq.
  pose proof (digits2_pos_bounds m) as [Hlo Hhi].
  assert (Hd : (Z.pos (digits2_pos m) <= 53)%Z).
  { destruct (Z_le_gt_dec (Z.pos (digits2_pos m)) 53) as [H|H]; [exact H|].
    exfalso.
    assert (2 ^ 53 <= 2 ^ (Z.pos (digits2_pos m) - 1))%Z
      by (apply Z.pow_le_mono_r; lia).
    lia. }
  destruct (Z.eq_dec e (-1074)) as [->|Hne]; [lia|].
  assert (Z.pos (digits2_pos m) = 53%Z).
  { apply digits2_pos_unique. split; [apply Hn; lia|exact Hm]. }
  lia.
Qed.

Lemma pow2_pos (n : Z) : (0 <= n -> 0 < 2 ^ n)%Z.
Proof. intros. apply Z.pow_pos_nonneg; lia. Qed.

Lemma pow2_split (a b : Z) : (0 <= a -> 0 <= b -> 2 ^ (a + b) = 2 ^ a * 2 ^ b)%Z.
Proof. intros. apply Z.pow_add_r; lia. Qed.

(** Among floats the order of the values is the order of the pairs
    (exponent, mantissa). *)
Lemma compare_mag (m1 m2 : positive) (e1 e2 : Z) :
  canonical m1 e1 -> canonical m2 e2 ->
  match (e1 ?= e2)%Z with
  | Eq => PosDef.Pos.compare_cont Eq m1 m2
  | Lt => Lt
  | Gt => Gt
  end = (mag m1 e1 ?= mag m2 e2)%Z.
Proof.
  intros (He1 & Hm1 & Hn1) (He2 & Hm2 & Hn2). unfold mag.
  change (PosDef.Pos.compare_cont Eq m1 m2) with (Pos.compare m1 m2).
  destruct (Z.compare_spec e1 e2) as [E|E|E].
  - subst e2. pose proof (@pow2_pos (e1 + 1074) ltac:(lia)).
    destruct (Pos.compare_spec m1 m2); symmetry;
      [apply Z.compare_eq_iff|apply Z.compare_lt_iff|apply Z.compare_gt_iff];
      nia.
  - symmetry. apply Z.compare_lt_iff.
    replace (e2 + 1074)%Z with ((e1 + 1074) + (e2 - e1))%Z by lia.
    rewrite (@pow2_split (e1 + 1074) (e2 - e1)) by lia.
    pose proof (@pow2_pos (e1 + 1074) ltac:(lia)).
    assert (2 ^ 1 <= 2 ^ (e2 - e1))%Z by (apply Z.pow_le_mono_r; lia).
    specialize (Hn2 ltac:(lia)).
    change (2 ^ 53) with 9007199254740992 in *.
    change (2 ^ 52) with 4503599627370496 in *.
    change (2 ^ 1) with 2 in *.
    assert (Z.pos m1 < Z.pos m2 * 2 ^ (e2 - e1)) by nia.
    nia.
  - symmetry. apply Z.compare_gt_iff.
    replace (e1 + 1074)%Z with ((e2 + 1074) + (e1 - e2))%Z by lia.
    rewrite (@pow2_split (e2 + 1074) (e1 - e2)) by lia.
    pose proof (@pow2_pos (e2 + 1074) ltac:(lia)).
    assert (2 ^ 1 <= 2 ^ (e1 - e2))%Z by (apply Z.pow_le_mono_r; lia).
    specialize (Hn1 ltac:(lia)).
    change (2 ^ 53) with 9007199254740992 in *.
    change (2 ^ 52) with 4503599627370496 in *.
    change (2 ^ 1) with 2 in *.
    assert (Z.pos m2 < Z.pos m1 * 2 ^ (e1 - e2)) by nia.
    nia.
Qed.

Lemma mag_pos (m : positive) (e : Z) : (-1074 <= e -> 0 < mag m e)%Z.
Proof. intros. unfold mag. pose proof (@pow2_pos (e + 1074) ltac:(lia)). nia. Qed.

Lemma SFcompare_sval (a b : spec_float) :
  fin a -> fin b -> SFcompare a b = Some (sval a ?= sval b)%Z.
Proof.
  destruct a as [sa|sa| |sa ma ea], b as [sb|sb| |sb mb eb];
    cbn [fin]; try contradiction; intros Ha Hb; cbn [SFcompare sval].
  - reflexivity.
  - pose proof (@mag_pos mb eb (proj1 (proj1 Hb))).
    destruct sb; cbn [cond_Zopp]; f_equal; symmetry.
    + apply Z.compare_gt_iff. lia.
    + apply Z.compare_lt_iff. lia.
  - pose proof (@mag_pos ma ea (proj1 (proj1 Ha))).
    destruct sa; cbn [cond_Zopp]; f_equal; symmetry.
    + apply Z.compare_lt_iff. lia.
    + apply Z.compare_gt_iff. lia.
  - pose proof (@mag_pos ma ea (proj1 (proj1 Ha))).
    pose proof (@mag_pos mb eb (proj1 (proj1 Hb))).
    destruct sa, sb; cbn [cond_Zopp]; f_equal.
    + rewrite Z.compare_opp. rewrite <- (@compare_mag mb ma eb ea Hb Ha).
      change (PosDef.Pos.compare_cont Eq) with Pos.compare.
      rewrite (Z.compare_antisym ea eb), (Pos.compare_antisym ma mb).
      destruct (ea ?= eb)%Z; reflexivity.
    + symmetry. apply Z.compare_lt_iff. lia.
    + symmetry. apply Z.compare_gt_iff. lia.
    + apply compare_mag; assumption.
Qed.

(** *** Shifting a mantissa to the right *)

Lemma shifted_1 (mrs : shr_record) :
  0 <= shr_m mrs -> shifted 1 mrs (shr_1 mrs).
Proof.
  destruct mrs as [m r s]. cbn [shr_m shr_r shr_s]. intros Hm.
  unfold shifted. change (2 ^ 1) with 2.
  destruct m as [|p|p]; [| |lia]; cbn [shr_1 shr_m shr_r shr_s].
  - split; [lia|]. split; [reflexivity|]. intros -> -> _. split; reflexivity.
  - destruct p as [p|p|]; cbn [shr_m shr_r shr_s].
    + split; [lia|]. split.
      * apply Z.div_unique with 1; lia.
      * intros _ _ H. exfalso.
        rewrite Pos2Z.inj_xI in H.
        rewrite Z.add_comm, Z.mul_comm, Z.mod_add in H by lia.
        discriminate.
    + split; [lia|]. split.
      * apply Z.div_unique with 0; lia.
      * intros -> -> _. split; reflexivity.
    + split; [lia|]. split; [reflexivity|].
      intros _ _ H. discriminate.
Qed.

Lemma shifted_compose (a b : Z) (x y z : shr_record) :
  0 < a -> 0 < b -> 0 <= shr_m x ->
  shifted a x y -> shifted b y z -> shifted (a + b) x z.
Proof.
  intros Ha Hb Hx (Hy0 & Hy & Hye) (Hz0 & Hz & Hze).
  pose proof (@pow2_pos a ltac:(lia)) as Pa.
  pose proof (@pow2_pos b ltac:(lia)) as Pb.
  split; [exact Hz0|]. split.
  - rewrite Hz, Hy, Z.div_div by lia. now rewrite pow2_split by lia.
  - intros Hr Hs Hmod.
    rewrite pow2_split in Hmod by lia.
    apply Z.mod_divide in Hmod; [|lia]. destruct Hmod as [q Hq].
    assert (Hma : shr_m x mod 2 ^ a = 0).
    { apply Z.mod_divide; [lia|]. exists (q * 2 ^ b). lia. }
    destruct (Hye Hr Hs Hma) as [Hyr Hys].
    apply Hze; [exact Hyr|exact Hys|].
    rewrite Hy. apply Z.mod_divide; [lia|]. exists q.
    rewrite Hq. replace (q * (2 ^ a * 2 ^ b)) with (q * 2 ^ b * 2 ^ a) by lia.
    apply Z.div_mul. lia.
Qed.

Lemma shifted_iter (p : positive) (mrs : shr_record) :
  0 <= shr_m mrs -> shifted (Z.pos p) mrs (iter_pos shr_1 p mrs).
Proof.
  revert mrs. induction p as [p IH|p IH|]; intros mrs Hm; cbn [iter_pos].
  - pose proof (@shifted_1 mrs Hm) as H1.
    pose proof (IH _ (proj1 H1)) as H2.
    pose proof (IH _ (proj1 H2)) as H3.
    replace (Z.pos p~1) with (1 + (Z.pos p + Z.pos p)) by lia.
    apply shifted_compose with (shr_1 mrs); try lia; [exact H1|].
    apply shifted_compose with (iter_pos shr_1 p (shr_1 mrs)); try lia;
      [apply H1|exact H2|exact H3].
  - pose proof (IH _ Hm) as H2.
    pose proof (IH _ (proj1 H2)) as H3.
    replace (Z.pos p~0) with (Z.pos p + Z.pos p) by lia.
    apply shifted_compose with (iter_pos shr_1 p mrs); try lia;
      [exact H2|exact H3].
  - now apply (@shifted_1 mrs).
Qed.

(** *** Rounding a positive value *)

Lemma fexp_max (z : Z) : fexp prec emax z = Z.max (z - 53) (-1074).
Proof. reflexivity. Qed.

Lemma canonical_below (mz : positive) (ez : Z) :
  canonical mz ez -> mag mz ez < 2 ^ 53 * 2 ^ (971 + 1074).
Proof.
  intros (He & Hm & _). unfold mag.
  assert (2 ^ (ez + 1074) <= 2 ^ (971 + 1074)) by (apply Z.pow_le_mono_r; lia).
  pose proof (@pow2_pos (ez + 1074) ltac:(lia)).
  change (2 ^ 53) with 9007199254740992 in *. nia.
Qed.

(** A value that is a float already is returned as it is. *)
Lemma rounds_to_itself (s : bool) (m : positive) (e : Z) :
  -1074 <= e -> Z.pos m < 2 ^ 53 -> (-1074 < e -> 2 ^ 52 <= Z.pos m) ->
  rounds_to s (mag m e)
    (if e <=? 971 then S754_finite s m e else S754_infinity s).
Proof.
  intros He Hm Hn. destruct (Z.leb_spec e 971) as [Hle|Hgt].
  - left. exists m, e. split; [reflexivity|]. split; [repeat split; lia|].
    split; intros mz ez _ H; exact H.
  - right. split; [reflexivity|]. intros mz ez Hz.
    pose proof (canonical_below Hz) as Hb. unfold mag.
    specialize (Hn ltac:(lia)).
    assert (2 ^ (972 + 1074) <= 2 ^ (e + 1074))
      by (apply Z.pow_le_mono_r; lia).
    replace (2 ^ (972 + 1074)) with (2 * 2 ^ (971 + 1074)) in H
      by (rewrite <- Z.pow_succ_r by lia; reflexivity).
    pose proof (@pow2_pos (971 + 1074) ltac:(lia)) as HA.
    unfold mag in Hb.
    set (A := 2 ^ (971 + 1074)) in *. set (E := 2 ^ (e + 1074)) in *.
    change (2 ^ 53) with (2 ^ 52 * 2) in Hb.
    assert (2 ^ 52 * (2 * A) <= Z.pos m * E)
      by (apply Z.mul_le_mono_nonneg; lia).
    lia.
Qed.

(** A float [z] against a value between two neighbours [m1 * g] and
    [(m1 + 1) * g] of the grid of step [g = 2^(e1 + 1074)], with [m1] of
    53 bits: [z] is on the grid, or below [m1 * g]. *)
Lemma float_on_grid (mz : positive) (ez e1 m1 : Z) :
  canonical mz ez -> -1074 <= e1 -> 2 ^ 52 <= m1 ->
  (exists c, mag mz ez = c * 2 ^ (e1 + 1074)) \/
  mag mz ez < m1 * 2 ^ (e1 + 1074).
Proof.
  intros (He & Hm & Hn) He1 Hm1. unfold mag.
  destruct (Z_le_gt_dec e1 ez) as [Hle|Hgt].
  - left. exists (Z.pos mz * 2 ^ (ez - e1)).
    replace (ez + 1074) with ((ez - e1) + (e1 + 1074)) by lia.
    rewrite (@pow2_split (ez - e1) (e1 + 1074)) by lia. lia.
  - right.
    replace (e1 + 1074) with ((e1 - ez - 1) + 1 + (ez + 1074)) by lia.
    rewrite (@pow2_split (e1 - ez - 1 + 1) (ez + 1074)) by lia.
    rewrite (@pow2_split (e1 - ez - 1) 1) by lia.
    pose proof (@pow2_pos (e1 - ez - 1) ltac:(lia)) as P1.
    pose proof (@pow2_pos (ez + 1074) ltac:(lia)) as P2.
    change (2 ^ 1) with 2. change (2 ^ 53) with (2 ^ 52 * 2) in Hm.
    set (A := 2 ^ (e1 - ez - 1)) in *. set (B := 2 ^ (ez + 1074)) in *.
    assert (Z.pos mz < m1 * (A * 2)) by nia.
    rewrite Z.mul_assoc. apply Z.mul_lt_mono_pos_r; assumption.
Qed.

(** The result of rounding [m * 2^e] down or up to the grid of step
    [2^k] in the mantissa. *)
Lemma grid_rounds (s : bool) (m : positive) (e : Z) (k : positive)
    (m2 : Z) (m3 : positive) (e3 : Z) :
  let m1 := Z.pos m / 2 ^ Z.pos k in
  -1074 <= e -> 2 ^ 52 <= m1 < 2 ^ 53 ->
  m2 = m1 \/ m2 = m1 + 1 ->
  (Z.pos m mod 2 ^ Z.pos k = 0 -> m2 = m1) ->
  (e3 = e + Z.pos k /\ Z.pos m3 = m2 /\ m2 < 2 ^ 53) \/
  (e3 = e + Z.pos k + 1 /\ Z.pos m3 = 2 ^ 52 /\ m2 = 2 ^ 53) ->
  rounds_to s (mag m e)
    (if e3 <=? 971 then S754_finite s m3 e3 else S754_infinity s).
Proof.
  intros m1 He Hm1 Hm2 Hexact Hcarry.
  pose proof (@pow2_pos (e + 1074) ltac:(lia)) as Pq.
  pose proof (@pow2_pos (Z.pos k) ltac:(lia)) as Pt.
  set (g := 2 ^ (e + Z.pos k + 1074)).
  assert (Eg : g = 2 ^ Z.pos k * 2 ^ (e + 1074)).
  { subst g. replace (e + Z.pos k + 1074) with (Z.pos k + (e + 1074)) by lia.
    apply pow2_split; lia. }
  assert (Pg : 0 < g) by (rewrite Eg; nia).
  pose proof (Z.div_mod (Z.pos m) (2 ^ Z.pos k) ltac:(lia)) as Hdm.
  pose proof (Z.mod_pos_bound (Z.pos m) (2 ^ Z.pos k) Pt) as Hrem.
  fold m1 in Hdm. set (rem := Z.pos m mod 2 ^ Z.pos k) in *.
  assert (EX : mag m e = m1 * g + rem * 2 ^ (e + 1074)).
  { unfold mag. rewrite Eg. rewrite Hdm at 1. ring. }
  assert (Hlo : m1 * g <= mag m e) by (rewrite EX; nia).
  assert (Hhi : mag m e < (m1 + 1) * g).
  { rewrite EX, Eg.
    assert (rem * 2 ^ (e + 1074) < 2 ^ Z.pos k * 2 ^ (e + 1074))
      by (apply Z.mul_lt_mono_pos_r; lia).
    lia. }
  assert (Hup : m2 = m1 + 1 -> m1 * g < mag m e).
  { intros E2. destruct (Z.eq_dec rem 0) as [E0|Hne].
    - specialize (Hexact E0). lia.
    - rewrite EX. assert (0 < rem * 2 ^ (e + 1074)) by nia. lia. }
  assert (ER : mag m3 e3 = m2 * g).
  { unfold mag. destruct Hcarry as [(-> & -> & _)|(-> & -> & ->)].
    - reflexivity.
    - subst g. replace (e + Z.pos k + 1 + 1074) with (1 + (e + Z.pos k + 1074))
        by lia.
      rewrite (@pow2_split 1 (e + Z.pos k + 1074)) by lia.
      change (2 ^ 53) with (2 ^ 52 * 2 ^ 1). ring. }
  assert (H3 : 2 ^ 52 <= Z.pos m3 < 2 ^ 53).
  { destruct Hcarry as [(_ & -> & ?)|(_ & -> & _)]; [lia|].
    change (2 ^ 52) with 4503599627370496.
    change (2 ^ 53) with 9007199254740992. lia. }
  assert (He3 : e + Z.pos k <= e3) by (destruct Hcarry as [(-> & _)|(-> & _)]; lia).
  destruct (Z.leb_spec e3 971) as [Hle|Hgt].
  - left. exists m3, e3. split; [reflexivity|].
    split; [repeat split; lia|]. rewrite ER. split.
    + intros mz ez Hz HX.
      pose proof (@float_on_grid mz ez (e + Z.pos k) m1 Hz ltac:(lia)
                    ltac:(lia)) as F.
      fold g in F. destruct F as [[c Hc]|Hbelow]; [|lia].
      rewrite Hc in *.
      destruct Hm2 as [->| ->].
      * lia.
      * specialize (Hup eq_refl).
        assert (m1 < c) by nia. nia.
    + intros mz ez Hz HX.
      pose proof (@float_on_grid mz ez (e + Z.pos k) m1 Hz ltac:(lia)
                    ltac:(lia)) as F.
      fold g in F. destruct F as [[c Hc]|Hbelow].
      * rewrite Hc in *. assert (c < m1 + 1) by nia.
        destruct Hm2 as [->| ->]; nia.
      * destruct Hm2 as [->| ->]; nia.
  - right. split; [reflexivity|]. intros mz ez Hz.
    pose proof (canonical_below Hz) as Hb.
    destruct Hcarry as [(E3 & _)|(E3 & _ & E2)].
    + (* the exponent itself is too large *)
      assert (2 ^ (972 + 1074) <= g)
        by (subst g; apply Z.pow_le_mono_r; lia).
      replace (2 ^ (972 + 1074)) with (2 * 2 ^ (971 + 1074)) in H
        by (rewrite <- Z.pow_succ_r by lia; reflexivity).
      pose proof (@pow2_pos (971 + 1074) ltac:(lia)) as HA.
      set (A := 2 ^ (971 + 1074)) in *.
      change (2 ^ 53) with (2 ^ 52 * 2) in Hb.
      assert (2 ^ 52 * (2 * A) <= m1 * g)
        by (apply Z.mul_le_mono_nonneg; lia).
      lia.
    + (* the carry of the rounding makes it too large *)
      assert (Em1 : m2 = m1 + 1) by (destruct Hm2; lia).
      specialize (Hup Em1).
      assert (Eg' : 2 ^ (971 + 1074) <= g)
        by (subst g; apply Z.pow_le_mono_r; lia).
      destruct Hz as (Hez & Hmz & _). unfold mag in *.
      assert (2 ^ (ez + 1074) <= 2 ^ (971 + 1074))
        by (apply Z.pow_le_mono_r; lia).
      pose proof (@pow2_pos (ez + 1074) ltac:(lia)).
      assert (Z.pos mz * 2 ^ (ez + 1074) <= m1 * g).
      { apply Z.mul_le_mono_nonneg; lia. }
      lia.
Qed.

Lemma round_nearest_even_cases (m : Z) (mrs : shr_record) :
  let m2 := round_nearest_even m (loc_of_shr_record mrs) in
  (m2 = m \/ m2 = m + 1) /\
  (shr_r mrs = false -> shr_s mrs = false -> m2 = m).
Proof.
  destruct mrs as [m0 r s].
  destruct r, s; cbn [loc_of_shr_record round_nearest_even shr_r shr_s].
  - split; [right; reflexivity|discriminate].
  - change IntDef.Z.even with Z.even.
    destruct (Z.even m); (split; [tauto|discriminate]).
  - split; [left; reflexivity|intros _ H; discriminate].
  - split; [left; reflexivity|reflexivity].
Qed.

(** Rounding a mantissa of at least 53 bits, or of fewer at the least
    exponent: [binary_round_aux] on an exact value. *)
Lemma binary_round_aux_rounds (s : bool) (m : positive) (e : Z) :
  -1074 <= e ->
  e <= fexp prec emax (Z.pos (digits2_pos m) + e) ->
  rounds_to s (mag m e) (binary_round_aux prec emax s (Z.pos m) e loc_Exact).
Proof.
  intros He Hk. unfold binary_round_aux, shr_fexp. cbn [Zdigits2].
  rewrite fexp_max in *.
  pose proof (digits2_pos_bounds m) as [Dlo Dhi].
  set (d := Z.pos (digits2_pos m)) in *.
  change (emax - prec) with 971.
  destruct (Z.max (d + e - 53) (-1074) - e) as [|k|k] eqn:Ek; [| |lia].
  - (* the mantissa fits: nothing is shifted out *)
    cbn [shr shr_record_of_loc shr_m loc_of_shr_record round_nearest_even
         Zdigits2].
    fold d. rewrite fexp_max, Ek. cbn [shr shr_m].
    apply rounds_to_itself; [exact He| |].
    + assert (d <= 53) by lia.
      eapply Z.lt_le_trans; [exact Dhi|]. apply Z.pow_le_mono_r; lia.
    + intros Hgt. assert (E : d = 53) by lia. rewrite E in Dlo. exact Dlo.
  - (* [k] bits are shifted out, and the mantissa is rounded *)
    assert (Ed : d = 53 + Z.pos k) by lia.
    cbn [shr shr_record_of_loc].
    pose proof (@shifted_iter k {| shr_m := Z.pos m; shr_r := false;
                                   shr_s := false |} ltac:(cbn; lia))
      as (H0 & Hm1 & Hex).
    set (mrs := iter_pos shr_1 k _) in *. cbn [shr_m shr_r shr_s] in Hm1, Hex.
    pose proof (@pow2_pos (Z.pos k) ltac:(lia)) as Pt.
    assert (Hb1 : 2 ^ 52 <= shr_m mrs < 2 ^ 53).
    { rewrite Hm1. rewrite Ed in Dlo, Dhi. split.
      - apply Z.div_le_lower_bound; [exact Pt|].
        replace (53 + Z.pos k - 1) with (Z.pos k + 52) in Dlo by lia.
        rewrite (@pow2_split (Z.pos k) 52) in Dlo by lia. exact Dlo.
      - apply Z.div_lt_upper_bound; [exact Pt|].
        replace (53 + Z.pos k) with (Z.pos k + 53) in Dhi by lia.
        rewrite (@pow2_split (Z.pos k) 53) in Dhi by lia. exact Dhi. }
    destruct (round_nearest_even_cases (shr_m mrs) mrs) as [Hm2 Hexact].
    set (m2 := round_nearest_even (shr_m mrs) (loc_of_shr_record mrs)) in *.
    assert (Hexact' : Z.pos m mod 2 ^ Z.pos k = 0 -> m2 = shr_m mrs).
    { intros H. destruct (Hex eq_refl eq_refl H) as [Hr Hs].
      now apply Hexact. }
    assert (Hpos2 : 0 < m2) by (destruct Hm2; lia).
    destruct m2 as [|p2|p2] eqn:E2; [lia| |lia].
    cbn [Zdigits2]. rewrite fexp_max.
    destruct (Z_lt_le_dec (Z.pos p2) (2 ^ 53)) as [Hlt|Hge].
    + (* no carry *)
      assert (Edig : Z.pos (digits2_pos p2) = 53).
      { apply digits2_pos_unique. change (53 - 1) with 52.
        split; [destruct Hm2; lia|exact Hlt]. }
      rewrite Edig.
      replace (Z.max (53 + (e + Z.pos k) - 53) (-1074) - (e + Z.pos k))
        with 0 by lia.
      cbn [shr shr_m].
      apply (@grid_rounds s m e k (Z.pos p2) p2 (e + Z.pos k)); try assumption.
      * rewrite <- Hm1. exact Hb1.
      * rewrite <- Hm1. exact Hm2.
      * rewrite <- Hm1. exact Hexact'.
      * left. split; [reflexivity|split; [reflexivity|exact Hlt]].
    + (* the rounding carried into a 54th bit *)
      assert (Ep2 : Z.pos p2 = 2 ^ 53) by (destruct Hm2; lia).
      assert (Edig : Z.pos (digits2_pos p2) = 54).
      { apply digits2_pos_unique. change (54 - 1) with 53.
        rewrite Ep2. split; [lia|]. apply Z.pow_lt_mono_r; lia. }
      rewrite Edig.
      replace (Z.max (54 + (e + Z.pos k) - 53) (-1074) - (e + Z.pos k))
        with 1 by lia.
      assert (Ep : p2 = 9007199254740992%positive).
      { apply Pos2Z.inj. rewrite Ep2. reflexivity. }
      rewrite Ep. cbn [shr iter_pos shr_1 shr_record_of_loc shr_m].
      apply (@grid_rounds s m e k (Z.pos p2) 4503599627370496
               (e + Z.pos k + 1)); try assumption.
      * rewrite <- Hm1. exact Hb1.
      * rewrite <- Hm1. exact Hm2.
      * rewrite <- Hm1. exact Hexact'.
      * right. split; [reflexivity|split; [reflexivity|exact Ep2]].
Qed.

Lemma shl_align_digits (m : positive) (e ez : Z) :
  -1074 <= ez -> ez <= e ->
  Z.pos (digits2_pos (fst (shl_align m e ez))) + ez
  = Z.pos (digits2_pos m) + e /\
  snd (shl_align m e ez) = ez /\
  mag (fst (shl_align m e ez)) ez = mag m e.
Proof.
  intros Hez Hle. pose proof (digits2_pos_bounds m) as [Dlo Dhi].
  unfold shl_align. destruct (ez - e) as [|k|k] eqn:Ek; cbn [fst snd].
  - assert (ez = e) by lia. subst ez. repeat split; lia.
  - lia.
  - change (PosDef.Pos.iter xO m k) with (Zpower.shift_pos k m).
    assert (Ev : Z.pos (Zpower.shift_pos k m) = 2 ^ Z.pos k * Z.pos m)
      by (rewrite Zpower.shift_pos_correct, Z.pow_pos_fold; reflexivity).
    pose proof (@pow2_pos (Z.pos k) ltac:(lia)) as Pt.
    split; [|split; [reflexivity|]].
    + assert (Z.pos (digits2_pos (Zpower.shift_pos k m))
              = Z.pos (digits2_pos m) + Z.pos k); [|lia].
      apply digits2_pos_unique. rewrite Ev.
      replace (Z.pos (digits2_pos m) + Z.pos k - 1)
        with (Z.pos k + (Z.pos (digits2_pos m) - 1)) by lia.
      rewrite (@pow2_split (Z.pos k) (Z.pos (digits2_pos m) - 1)) by lia.
      replace (Z.pos (digits2_pos m) + Z.pos k)
        with (Z.pos k + Z.pos (digits2_pos m)) by lia.
      rewrite (@pow2_split (Z.pos k) (Z.pos (digits2_pos m))) by lia.
      nia.
    + unfold mag. rewrite Ev.
      replace (e + 1074) with (Z.pos k + (ez + 1074)) by lia.
      rewrite (@pow2_split (Z.pos k) (ez + 1074)) by lia. ring.
Qed.

(** [binary_round]: the value [m * 2^e] rounded to a float. *)
Lemma binary_round_rounds (s : bool) (m : positive) (e : Z) :
  -1074 <= e ->
  rounds_to s (mag m e) (binary_round prec emax s m e).
Proof.
  intros He. unfold binary_round. rewrite fexp_max.
  set (e1 := Z.max (Z.pos (digits2_pos m) + e - 53) (-1074)).
  destruct (Z_le_gt_dec e1 e) as [Hle|Hgt].
  - destruct (@shl_align_digits m e e1 ltac:(lia) Hle) as (Hd & Hs & Hv).
    destruct (shl_align m e e1) as [mz ez]. cbn [fst snd] in *. subst ez.
    rewrite <- Hv. apply binary_round_aux_rounds; [lia|].
    rewrite fexp_max, Hd. fold e1. lia.
  - assert (E : shl_align m e e1 = (m, e)).
    { unfold shl_align. destruct (e1 - e) eqn:Ek; try reflexivity. lia. }
    rewrite E. apply binary_round_aux_rounds; [exact He|].
    rewrite fexp_max. fold e1. lia.
Qed.

(** *** Sums and differences of floats *)

Lemma SFleb_sval (a b : spec_float) :
  fin a -> fin b -> (SFleb a b = true <-> sval a <= sval b).
Proof.
  intros Ha Hb. unfold SFleb. rewrite (SFcompare_sval a b Ha Hb).
  destruct (Z.compare_spec (sval a) (sval b)); split; intros; try lia;
    try reflexivity; discriminate.
Qed.

Lemma SFltb_sval (a b : spec_float) :
  fin a -> fin b -> (SFltb a b = true <-> sval a < sval b).
Proof.
  intros Ha Hb. unfold SFltb. rewrite (SFcompare_sval a b Ha Hb).
  destruct (Z.compare_spec (sval a) (sval b)); split; intros; try lia;
    try reflexivity; discriminate.
Qed.

Lemma nearest_exact (x : spec_float) : fin x -> nearest (sval x) x.
Proof.
  intros Hx. split; [now left|].
  split; intros b Hb H; now apply SFleb_sval.
Qed.

Lemma nearest_zero (s : bool) : nearest 0 (S754_zero s).
Proof. apply (nearest_exact (S754_zero s) I). Qed.

Lemma binary_normalize_nearest (z e : Z) :
  -1074 <= e ->
  nearest (z * 2 ^ (e + 1074)) (binary_normalize prec emax z e false).
Proof.
  intros He. destruct z as [|m|m]; cbn [binary_normalize].
  - apply nearest_zero.
  - change (Z.pos m * 2 ^ (e + 1074)) with (mag m e).
    pose proof (@mag_pos m e He) as Hpos.
    destruct (@binary_round_rounds false m e He)
      as [(m3 & e3 & -> & Hc & Hup & Hlow)|[-> Hinf]].
    + pose proof (@mag_pos m3 e3 (proj1 (proj1 Hc))) as Hpos3.
      split; [now left|]. split; intros b Hb H.
      * apply SFleb_sval; [exact Hc|exact Hb|].
        destruct b as [sb|sb| |sb mb eb]; cbn [fin sval cond_Zopp] in *;
          try contradiction; [lia|].
        pose proof (@mag_pos mb eb (proj1 (proj1 Hb))).
        destruct sb; cbn [cond_Zopp] in *; [lia|]. now apply Hup.
      * apply SFleb_sval; [exact Hb|exact Hc|].
        destruct b as [sb|sb| |sb mb eb]; cbn [fin sval cond_Zopp] in *;
          try contradiction; [lia|].
        pose proof (@mag_pos mb eb (proj1 (proj1 Hb))).
        destruct sb; cbn [cond_Zopp] in *; [lia|]. now apply Hlow.
    + split; [right; now exists false|]. split; intros b Hb H.
      * exfalso.
        destruct b as [sb|sb| |sb mb eb]; cbn [fin sval cond_Zopp] in *;
          try contradiction; [lia|].
        pose proof (@mag_pos mb eb (proj1 (proj1 Hb))).
        specialize (Hinf mb eb Hb).
        destruct sb; cbn [cond_Zopp] in *; lia.
      * destruct b as [sb|sb| |sb mb eb]; cbn [fin] in *; try contradiction;
          try reflexivity; destruct sb; reflexivity.
  - replace (Z.neg m * 2 ^ (e + 1074)) with (- mag m e) by (unfold mag; lia).
    pose proof (@mag_pos m e He) as Hpos.
    destruct (@binary_round_rounds true m e He)
      as [(m3 & e3 & -> & Hc & Hup & Hlow)|[-> Hinf]].
    + pose proof (@mag_pos m3 e3 (proj1 (proj1 Hc))) as Hpos3.
      split; [now left|]. split; intros b Hb H.
      * apply SFleb_sval; [exact Hc|exact Hb|].
        destruct b as [sb|sb| |sb mb eb]; cbn [fin sval cond_Zopp] in *;
          try contradiction; [lia|].
        pose proof (@mag_pos mb eb (proj1 (proj1 Hb))).
        destruct sb; cbn [cond_Zopp] in *; [|lia].
        assert (mag mb eb <= mag m3 e3) by (apply Hlow; [exact Hb|lia]). lia.
      * apply SFleb_sval; [exact Hb|exact Hc|].
        destruct b as [sb|sb| |sb mb eb]; cbn [fin sval cond_Zopp] in *;
          try contradiction; [lia|].
        pose proof (@mag_pos mb eb (proj1 (proj1 Hb))).
        destruct sb; cbn [cond_Zopp] in *; [|lia].
        assert (mag m3 e3 <= mag mb eb) by (apply Hup; [exact Hb|lia]). lia.
    + split; [right; now exists true|]. split; intros b Hb H.
      * destruct b as [sb|sb| |sb mb eb]; cbn [fin] in *; try contradiction;
          try reflexivity; destruct sb; reflexivity.
      * exfalso.
        destruct b as [sb|sb| |sb mb eb]; cbn [fin sval cond_Zopp] in *;
          try contradiction; [lia|].
        pose proof (@mag_pos mb eb (proj1 (proj1 Hb))).
        specialize (Hinf mb eb Hb).
        destruct sb; cbn [cond_Zopp] in *; lia.
Qed.

Lemma aligned_sval (s : bool) (m : positive) (e ez : Z) :
  -1074 <= ez -> ez <= e ->
  cond_Zopp s (Z.pos (fst (shl_align m e ez))) * 2 ^ (ez + 1074)
  = cond_Zopp s (mag m e).
Proof.
  intros H1 H2. destruct (@shl_align_digits m e ez H1 H2) as (_ & _ & Hv).
  unfold mag in *. destruct s; cbn [cond_Zopp]; lia.
Qed.

(** The sum of two floats is the exact sum, rounded. *)
Lemma SFadd_nearest (x y : spec_float) :
  fin x -> fin y -> nearest (sval x + sval y) (SF64add x y).
Proof.
  intros Hx Hy. unfold SF64add, SFadd.
  destruct x as [sx|sx| |sx mx ex], y as [sy|sy| |sy my ey];
    cbn [fin] in *; try contradiction.
  - destruct sx, sy; apply nearest_zero.
  - apply (nearest_exact (S754_finite sy my ey) Hy).
  - cbn [sval]. rewrite Z.add_0_r.
    apply (nearest_exact (S754_finite sx mx ex) Hx).
  - change IntDef.Z.min with Z.min. cbn [sval].
    pose proof (proj1 (proj1 Hx)). pose proof (proj1 (proj1 Hy)).
    rewrite <- (@aligned_sval sx mx ex (Z.min ex ey)) by lia.
    rewrite <- (@aligned_sval sy my ey (Z.min ex ey)) by lia.
    rewrite <- Z.mul_add_distr_r.
    apply binary_normalize_nearest. lia.
Qed.

(** The difference of two floats is the exact difference, rounded. *)
Lemma SFsub_nearest (x y : spec_float) :
  fin x -> fin y -> nearest (sval x - sval y) (SF64sub x y).
Proof.
  intros Hx Hy. unfold SF64sub, SFsub.
  destruct x as [sx|sx| |sx mx ex], y as [sy|sy| |sy my ey];
    cbn [fin] in *; try contradiction.
  - destruct sx, sy; apply nearest_zero.
  - cbn [sval]. replace (0 - cond_Zopp sy (mag my ey))
      with (sval (S754_finite (negb sy) my ey))
      by (destruct sy; cbn [sval cond_Zopp negb]; lia).
    apply (nearest_exact (S754_finite (negb sy) my ey) Hy).
  - cbn [sval]. rewrite Z.sub_0_r.
    apply (nearest_exact (S754_finite sx mx ex) Hx).
  - change IntDef.Z.min with Z.min. cbn [sval].
    pose proof (proj1 (proj1 Hx)). pose proof (proj1 (proj1 Hy)).
    rewrite <- (@aligned_sval sx mx ex (Z.min ex ey)) by lia.
    rewrite <- (@aligned_sval sy my ey (Z.min ex ey)) by lia.
    rewrite <- Z.mul_sub_distr_r.
    apply binary_normalize_nearest. lia.
Qed.

(** *** Order between a float and a rounded result *)

Lemma valid_cases (x : spec_float) :
  valid_binary x = true ->
  fin x \/ (exists s, x = S754_infinity s) \/ x = S754_nan.
Proof.
  destruct x as [s|s| |s m e]; intros H.
  - left. exact I.
  - right. left. now exists s.
  - right. now right.
  - left. exact (@valid_canonical s m e H).
Qed.

Lemma SFltb_leb_absurd (a r : spec_float) :
  fin a -> rounded r -> SFltb a r = true -> SFleb r a = true -> False.
Proof.
  intros Ha [Hr|[s ->]] H1 H2.
  - apply SFltb_sval in H1; [|exact Ha|exact Hr].
    apply SFleb_sval in H2; [|exact Hr|exact Ha]. lia.
  - destruct a as [sa|sa| |sa ma ea]; cbn [fin] in Ha; try contradiction;
      destruct s; try discriminate; destruct sa; discriminate.
Qed.

Lemma rounded_leb_infinity (r : spec_float) :
  rounded r -> SFleb r (S754_infinity false) = true.
Proof.
  intros [Hr|[s ->]].
  - destruct r as [sr|sr| |sr mr er]; cbn [fin] in Hr; try contradiction;
      try reflexivity; destruct sr; reflexivity.
  - destruct s; reflexivity.
Qed.

Lemma fin_leb_infinity (a : spec_float) (s : bool) :
  fin a -> SFltb a (S754_infinity s) = true -> s = false.
Proof.
  intros Ha H. destruct s; [|reflexivity].
  destruct a as [sa|sa| |sa ma ea]; cbn [fin] in Ha; try contradiction;
    try discriminate; destruct sa; discriminate.
Qed.

Lemma add_fin_infinity (c : spec_float) (s : bool) :
  fin c -> SF64add c (S754_infinity s) = S754_infinity s.
Proof. destruct c; cbn [fin]; try contradiction; reflexivity. Qed.

Lemma add_infinity_fin (d : spec_float) (s : bool) :
  fin d -> SF64add (S754_infinity s) d = S754_infinity s.
Proof. destruct d; cbn [fin]; try contradiction; reflexivity. Qed.

Lemma sub_infinity_fin (c : spec_float) (s : bool) :
  fin c -> SF64sub (S754_infinity s) c = S754_infinity s.
Proof. destruct c; cbn [fin]; try contradiction; reflexivity. Qed.

Lemma sub_fin_infinity (a : spec_float) (s : bool) :
  fin a -> SF64sub a (S754_infinity s) = S754_infinity (negb s).
Proof. destruct a; cbn [fin]; try contradiction; reflexivity. Qed.

Lemma add_nan_r (c : spec_float) : SF64add c S754_nan = S754_nan.
Proof. destruct c; reflexivity. Qed.

Lemma ltb_nan_r (a : spec_float) : SFltb a S754_nan = false.
Proof. destruct a as [s|s| |s m e]; reflexivity. Qed.

Lemma low_leb_fin (d : spec_float) :
  fin d -> SFleb (S754_infinity true) d = true.
Proof.
  destruct d as [s|s| |s m e]; cbn [fin]; try contradiction; reflexivity.
Qed.

Lemma ltb_low (a : spec_float) : SFltb a (S754_infinity true) = false.
Proof. destruct a as [s|[]| |[] m e]; reflexivity. Qed.

Lemma high_ltb (r : spec_float) : SFltb (S754_infinity false) r = false.
Proof. destruct r as [s|[]| |s m e]; reflexivity. Qed.

(** *** The two facts about the cap *)

Lemma SF_clamp_lowers (cap c d : spec_float) :
  valid_binary cap = true -> valid_binary c = true -> valid_binary d = true ->
  SFltb cap (SF64add c d) = true -> SFleb (SF64sub cap c) d = true.
Proof.
  intros Vcap Vc Vd H.
  destruct (@valid_cases c Vc) as [Fc|[[sc ->]| ->]];
    [| |change (SF64add S754_nan d) with S754_nan in H;
        rewrite ltb_nan_r in H; discriminate].
  - destruct (@valid_cases d Vd) as [Fd|[[sd ->]| ->]];
      [| |rewrite add_nan_r, ltb_nan_r in H; discriminate].
    + destruct (@valid_cases cap Vcap) as [Fcap|[[scap ->]| ->]];
        [| |discriminate].
      * destruct (@SFadd_nearest c d Fc Fd) as (Hr & Hup & _).
        destruct (@SFsub_nearest cap c Fcap Fc) as (_ & Hup' & _).
        apply Hup'; [exact Fd|].
        destruct (Z.le_gt_cases (sval cap - sval c) (sval d)) as [L|L];
          [exact L|exfalso].
        apply (@SFltb_leb_absurd cap (SF64add c d) Fcap Hr H).
        apply Hup; [exact Fcap|lia].
      * destruct scap; [|rewrite high_ltb in H; discriminate].
        rewrite (@sub_infinity_fin c true Fc). now apply low_leb_fin.
    + rewrite (@add_fin_infinity c sd Fc) in H.
      destruct (@valid_cases cap Vcap) as [Fcap|[[scap ->]| ->]];
        [| |discriminate].
      * rewrite (@fin_leb_infinity cap sd Fcap H).
        apply rounded_leb_infinity.
        exact (proj1 (@SFsub_nearest cap c Fcap Fc)).
      * destruct scap; [|rewrite high_ltb in H; discriminate].
        rewrite (@sub_infinity_fin c true Fc).
        destruct sd; [discriminate|reflexivity].
  - destruct (@valid_cases d Vd) as [Fd|[[sd ->]| ->]];
      [| |rewrite add_nan_r, ltb_nan_r in H; discriminate].
    + rewrite (@add_infinity_fin d sc Fd) in H.
      destruct sc; [rewrite ltb_low in H; discriminate|].
      destruct (@valid_cases cap Vcap) as [Fcap|[[scap ->]| ->]];
        [| |discriminate].
      * rewrite (@sub_fin_infinity cap false Fcap). now apply low_leb_fin.
      * destruct scap; [|discriminate]. now apply low_leb_fin.
    + destruct sc, sd; cbv [SF64add SFadd Bool.eqb] in H;
        try (rewrite ltb_low in H; discriminate);
        try (rewrite ltb_nan_r in H; discriminate).
      destruct (@valid_cases cap Vcap) as [Fcap|[[scap ->]| ->]];
        [| |discriminate].
      * rewrite (@sub_fin_infinity cap false Fcap). reflexivity.
      * destruct scap; [reflexivity|discriminate].
Qed.

Lemma SF_clamp_keeps_sell (cap c d : spec_float) :
  valid_binary cap = true -> valid_binary c = true -> valid_binary d = true ->
  SFltb d (S754_zero false) = true ->
  SFltb cap (SF64add c d) = true ->
  SFltb (S754_zero false) (SF64sub cap c) = false.
Proof.
  intros Vcap Vc Vd Hd H.
  destruct (@valid_cases c Vc) as [Fc|[[sc ->]| ->]];
    [| |change (SF64add S754_nan d) with S754_nan in H;
        rewrite ltb_nan_r in H; discriminate].
  - destruct (@valid_cases d Vd) as [Fd|[[sd ->]| ->]];
      [| |discriminate].
    + destruct (@valid_cases cap Vcap) as [Fcap|[[scap ->]| ->]];
        [| |discriminate].
      * destruct (@SFadd_nearest c d Fc Fd) as (Hr & Hup & _).
        destruct (@SFsub_nearest cap c Fcap Fc) as (Hr' & Hup' & _).
        apply (@SFltb_sval d (S754_zero false) Fd I) in Hd. cbn [sval] in Hd.
        destruct (SFltb (S754_zero false) (SF64sub cap c)) eqn:E;
          [exfalso|reflexivity].
        apply (@SFltb_leb_absurd (S754_zero false) (SF64sub cap c) I Hr' E).
        apply Hup'; [exact I|]. cbn [sval].
        destruct (Z.le_gt_cases (sval cap - sval c) 0) as [L|L];
          [exact L|exfalso].
        apply (@SFltb_leb_absurd cap (SF64add c d) Fcap Hr H).
        apply Hup; [exact Fcap|lia].
      * destruct scap; [|rewrite high_ltb in H; discriminate].
        rewrite (@sub_infinity_fin c true Fc). reflexivity.
    + rewrite (@add_fin_infinity c sd Fc) in H.
      destruct sd; [rewrite ltb_low in H|]; discriminate.
  - destruct (@valid_cases d Vd) as [Fd|[[sd ->]| ->]];
      [| |rewrite add_nan_r, ltb_nan_r in H; discriminate].
    + rewrite (@add_infinity_fin d sc Fd) in H.
      destruct sc; [rewrite ltb_low in H; discriminate|].
      destruct (@valid_cases cap Vcap) as [Fcap|[[scap ->]| ->]];
        [| |discriminate].
      * rewrite (@sub_fin_infinity cap false Fcap). reflexivity.
      * destruct scap; [reflexivity|discriminate].
    + destruct sd; [|discriminate].
      destruct sc; cbv [SF64add SFadd Bool.eqb] in H;
        [rewrite ltb_low in H|rewrite ltb_nan_r in H]; discriminate.
Qed.

(** On doubles: a clamped amount is never above the requested one, and a
    sell is never turned into a buy. *)
Lemma clamp_lowers (cap c d : float) :
  (cap <? c + d)%float = true -> (cap - c <=? d)%float = true.
Proof.
  rewrite ltb_spec, leb_spec, add_spec, sub_spec.
  apply SF_clamp_lowers; apply Prim2SF_valid.
Qed.

Lemma clamp_keeps_sell (cap c d : float) :
  (d <? 0)%float = true -> (cap <? c + d)%float = true ->
  (0 <? cap - c)%float = false.
Proof.
  rewrite !ltb_spec, add_spec, sub_spec.
  apply SF_clamp_keeps_sell; apply Prim2SF_valid.
Qed.

End Rounding.

(** A float at or above the initial cash is [+inf] or finite and
    positive. *)
Lemma above_initial_cases (p : float) :
  (Float64.INITIAL_CASH <=? p) = true ->
  p = infinity \/ exists m e, Prim2SF p = S754_finite false m e.
Proof.
  rewrite leb_spec.
  change (Prim2SF Float64.INITIAL_CASH)
    with (S754_finite false 8589934592000000 (-33)).
  unfold SFleb, SFcompare.
  destruct (Prim2SF p) as [s|s| |s m e] eqn:E; try discriminate.
  - destruct s; [discriminate|]. intros _. left.
    apply Prim2SF_inj. rewrite E. reflexivity.
  - destruct s; [discriminate|]. intros _. right. now exists m, e.
Qed.

Lemma above_initial_not_zero (p : float) :
  (Float64.INITIAL_CASH <=? p) = true -> (p =? 0) = false.
Proof.
  intros H. destruct (p =? 0) eqn:E; [|reflexivity].
  apply eqb_zero in E. destruct E as [s E].
  destruct (@above_initial_cases p H) as [->|(m & e & E')].
  - discriminate.
  - congruence.
Qed.

Lemma above_initial_not_below_zero (p z : float) :
  (Float64.INITIAL_CASH <=? p) = true -> (z =? 0) = true -> (p <? z) = false.
Proof.
  intros H Hz. apply eqb_zero in Hz. destruct Hz as [s Hz].
  rewrite ltb_spec, Hz.
  destruct (@above_initial_cases p H) as [->|(m & e & ->)]; reflexivity.
Qed.

Lemma pymax_above_initial (p t : float) :
  (Float64.INITIAL_CASH <=? p) = true ->
  (Float64.INITIAL_CASH <=? Float64.pymax p t) = true.
Proof.
  intros H. unfold Float64.pymax. destruct (p <? t) eqn:E; [|exact H].
  now apply leb_ltb_trans with p.
Qed.


(** *** [RiskManager.check] in binary64 *)

Lemma check_exposure_divides (values : list float) (total_value : float)
    (rm : Float64.RiskManager.t) :
  (total_value =? 0) = false ->
  Float64.RiskManager.max_per_asset rm = 0.35 ->
  Float64.RiskManager.check_exposure values total_value rm
  = Out rm
      (if Float64.within_limit total_value values then []
       else [RiskWarning MaxPerAsset])
      (Ok (Float64.within_limit total_value values)).
Proof.
  intros Hnz Hmax.
  induction values as [|v values IH]; [reflexivity|].
  cbn [Float64.RiskManager.check_exposure Float64.within_limit forallb].
  unfold bind, get, lift, Float64.pydiv. rewrite Hnz. cbn. rewrite Hmax.
  destruct (0.35 <? v / total_value); cbn; [reflexivity|].
  rewrite IH. cbn. reflexivity.
Qed.

Lemma check_exposure_zero_total (values : list float) (total_value : float)
    (rm : Float64.RiskManager.t) :
  (total_value =? 0) = true ->
  Float64.RiskManager.check_exposure values total_value rm
  = Out rm []
      match values with
      | [] => Ok true
      | _ => Raise ZeroDivisionError
      end.
Proof.
  intros Hz. destruct values as [|v values]; [reflexivity|].
  cbn [Float64.RiskManager.check_exposure].
  unfold bind, get, lift, Float64.pydiv. rewrite Hz. reflexivity.
Qed.

(** The whole of [check] on a manager the program can hold: the peak is
    raised first; then the drawdown rule, the exposure loop (which divides
    by the total), and nothing more, the daily-loss test being false. *)
Lemma check_run (total_value : float) (positions : Float64.dict)
    (rm : Float64.RiskManager.t) :
  Float64.settled rm ->
  let rm' := Float64.RiskManager.set_peak
               (Float64.pymax (Float64.RiskManager.peak rm) total_value) rm in
  let values := Float64.dict_values positions in
  Float64.RiskManager.check total_value positions rm
  = if 0.10 <? Float64.drawdown (Float64.RiskManager.peak rm) total_value
    then Out rm' [RiskWarning MaxDrawdown] (Ok false)
    else if total_value =? 0
    then Out rm' []
           match values with
           | [] => Ok true
           | _ => Raise ZeroDivisionError
           end
    else Out rm'
           (if Float64.within_limit total_value values then []
            else [RiskWarning MaxPerAsset])
           (Ok (Float64.within_limit total_value values)).
Proof.
  intros (Hd & Ha & Hl & Hp & Hpk) rm' values.
  pose proof (@pymax_above_initial _ total_value Hpk) as Hpk'.
  pose proof (@above_initial_not_zero _ Hpk') as Hnz.
  unfold Float64.RiskManager.check, bind, get, put, lift, Float64.pydiv.
  cbn [out_state out_log out_res Float64.RiskManager.peak
       Float64.RiskManager.set_peak Float64.RiskManager.max_drawdown
       Float64.RiskManager.today_pnl Float64.RiskManager.daily_loss_limit].
  rewrite Hnz, Hd. fold rm'. unfold Float64.drawdown.
  destruct (0.10 <? _) eqn:Edd; [reflexivity|].
  cbn [app].
  destruct (total_value =? 0) eqn:Ez.
  - rewrite (@check_exposure_zero_total _ total_value rm' Ez). fold values.
    destruct values; cbn; [|reflexivity].
    rewrite Hp, Hl. reflexivity.
  - rewrite (@check_exposure_divides _ total_value rm' Ez Ha). fold values.
    destruct (Float64.within_limit total_value values); cbn; [|reflexivity].
    rewrite Hp, Hl. reflexivity.
Qed.

Lemma check_state_binary64 (total_value : float) (positions : Float64.dict)
    (rm : Float64.RiskManager.t) :
  Float64.settled rm ->
  out_state (Float64.RiskManager.check total_value positions rm)
  = Float64.RiskManager.set_peak
      (Float64.pymax (Float64.RiskManager.peak rm) total_value) rm.
Proof.
  intros Hset. rewrite (@check_run total_value positions rm Hset).
  destruct (0.10 <? _); [reflexivity|].
  destruct (total_value =? 0); reflexivity.
Qed.

Lemma settled_check_binary64 (total_value : float) (positions : Float64.dict)
    (rm : Float64.RiskManager.t) :
  Float64.settled rm ->
  Float64.settled
    (out_state (Float64.RiskManager.check total_value positions rm)).
Proof.
  intros Hset. rewrite (@check_state_binary64 total_value positions rm Hset).
  destruct Hset as (Hd & Ha & Hl & Hp & Hpk).
  repeat split; try assumption. cbn. now apply pymax_above_initial.
Qed.

Lemma reachable_settled_binary64 (rm : Float64.RiskManager.t) :
  Float64.reachable rm -> Float64.settled rm.
Proof.
  induction 1 as [|rm total_value positions _ IH].
  - repeat split; reflexivity.
  - now apply settled_check_binary64.
Qed.

(** With a total of zero the drawdown is 1 for a finite peak, and NaN for
    an infinite one: only then does the drawdown rule let a total of zero
    pass. *)
Lemma drawdown_of_zero_total (peak total_value : float) :
  (Float64.INITIAL_CASH <=? peak) = true ->
  (total_value =? 0) = true ->
  ((0.10 <? Float64.drawdown peak total_value) = false <-> peak = infinity).
Proof.
  intros Hpk Hz. unfold Float64.drawdown, Float64.pymax.
  rewrite (@above_initial_not_below_zero peak total_value Hpk Hz).
  apply eqb_zero in Hz. destruct Hz as [s Hz].
  destruct (@above_initial_cases peak Hpk) as [->|(m & e & E)].
  - rewrite (@infinity_sub_zero total_value s Hz). split; reflexivity.
  - rewrite (@sub_zero peak total_value false s m e E Hz), (@div_self peak false m e E).
    split; [discriminate|]. intros ->. discriminate.
Qed.


(** C4.  In binary64, on a manager the program can hold, a call to [check]
    first raises the peak to [max(peak, total_value)], which is never zero;
    whenever the quotient [(peak - total_value) / peak] it then computes
    compares above the float [0.10], it returns [False] with the drawdown
    warning, whatever the positions are, and it logs that warning in no
    other case. *)
Theorem check_vetoes_on_computed_drawdown
    (rm : Float64.RiskManager.t) (total_value : float)
    (positions : Float64.dict) :
  Float64.reachable rm ->
  let after := Float64.RiskManager.check total_value positions rm in
  let pk := Float64.RiskManager.peak (out_state after) in
  pk = Float64.pymax (Float64.RiskManager.peak rm) total_value /\
  (pk =? 0) = false /\
  ((0.10 <? (pk - total_value) / pk) = true ->
   out_res after = Ok false /\ out_log after = [RiskWarning MaxDrawdown]) /\
  (In (RiskWarning MaxDrawdown) (out_log after) ->
   (0.10 <? (pk - total_value) / pk) = true).
Proof.
  intros Hreach after pk.
  pose proof (reachable_settled_binary64 Hreach) as Hset.
  assert (Epk : pk = Float64.pymax (Float64.RiskManager.peak rm) total_value)
    by (subst pk after;
        now rewrite (@check_state_binary64 total_value positions rm Hset)).
  split; [exact Epk|]. rewrite Epk. split.
  { apply above_initial_not_zero. apply pymax_above_initial. apply Hset. }
  subst after. rewrite (@check_run total_value positions rm Hset).
  fold (Float64.drawdown (Float64.RiskManager.peak rm) total_value).
  destruct (0.10 <? Float64.drawdown _ _).
  - split; [intros _; now split|reflexivity].
  - split; [discriminate|].
    destruct (total_value =? 0); cbn [out_log]; [intros []|].
    destruct (Float64.within_limit _ _); cbn; [intros []|].
    intros [H|[]]; discriminate.
Qed.

Lemma check_vetoes_on_computed_drawdown_witness :
  out_res (Float64.RiskManager.check 800000 [("BTC/USD"%string, 400000)]
             Float64.RiskManager.init) = Ok false /\
  out_log (Float64.RiskManager.check 800000 [("BTC/USD"%string, 400000)]
             Float64.RiskManager.init) = [RiskWarning MaxDrawdown].
Proof.
  apply (@check_vetoes_on_computed_drawdown Float64.RiskManager.init 800000
           [("BTC/USD"%string, 400000)]).
  - apply Float64.reachable_init.
  - vm_compute. reflexivity.
Defined.

(** A total below [0.9 * peak], with a drawdown above 10%, that [check]
    allows: the quotient it computes is rounded to the float [0.10]. *)
Lemma drawdown_above_ten_percent_is_allowed :
  let rm := out_state (Float64.RiskManager.check 3858314.1325972085 []
                         Float64.RiskManager.init) in
  let total_value := 3472482.7193374876 in
  Float64.reachable rm /\
  (exists pk tv : Q,
      Float64.exact (Float64.RiskManager.peak rm) = Some pk /\
      Float64.exact total_value = Some tv /\
      (tv < (9 # 10) * pk)%Q /\ ((10 # 100) < (pk - tv) / pk)%Q) /\
  out_res (Float64.RiskManager.check total_value [] rm) = Ok true /\
  (forall positions,
      ~ In (RiskWarning MaxDrawdown)
          (out_log (Float64.RiskManager.check total_value positions rm))).
Proof.
  cbv zeta. split; [apply Float64.reachable_check, Float64.reachable_init|].
  split.
  { eexists. eexists. split; [vm_compute; reflexivity|].
    split; [vm_compute; reflexivity|]. split; vm_compute; reflexivity. }
  split; [vm_compute; reflexivity|].
  intros positions.
  set (rm := out_state (Float64.RiskManager.check 3858314.1325972085 []
                          Float64.RiskManager.init)).
  assert (Hset : Float64.settled rm)
    by (apply reachable_settled_binary64, Float64.reachable_check,
          Float64.reachable_init).
  rewrite (@check_run 3472482.7193374876 positions rm Hset).
  replace (0.10 <? Float64.drawdown (Float64.RiskManager.peak rm)
                     3472482.7193374876) with false
    by (vm_compute; reflexivity).
  replace (3472482.7193374876 =? 0) with false by (vm_compute; reflexivity).
  destruct (Float64.within_limit _ _); cbn; [intros []|].
  intros [H|[]]; discriminate.
Qed.


(** C10.  In binary64, on a manager the program can hold, the peak [check]
    divides by is at or above the initial cash, so never zero; [check]
    raises nothing but [ZeroDivisionError], and it raises it exactly when
    the peak before the call is [+inf], the total is zero and there is a
    position to divide.  With a finite peak it returns a boolean for every
    total (zero, negative, infinite and NaN included) and all positions: a
    total of zero then gives a drawdown of 1 and is stopped by the drawdown
    rule before the division by the total. *)
Theorem check_divides_by_zero_only_at_infinite_peak
    (rm : Float64.RiskManager.t) (total_value : float)
    (positions : Float64.dict) :
  Float64.reachable rm ->
  let after := Float64.RiskManager.check total_value positions rm in
  (Float64.INITIAL_CASH <=? Float64.RiskManager.peak (out_state after)) = true
  /\
  (out_res after = Raise ZeroDivisionError <->
   Float64.RiskManager.peak rm = infinity /\ (total_value =? 0) = true /\
   positions <> []) /\
  (forall e, out_res after = Raise e -> e = ZeroDivisionError) /\
  (Float64.RiskManager.peak rm <> infinity ->
   exists allowed : bool, out_res after = Ok allowed).
Proof.
  intros Hreach after.
  pose proof (reachable_settled_binary64 Hreach) as Hset.
  assert (Hpk : (Float64.INITIAL_CASH <=? Float64.RiskManager.peak rm) = true)
    by apply Hset.
  split.
  { subst after.
    rewrite (@check_state_binary64 total_value positions rm Hset). cbn.
    now apply pymax_above_initial. }
  subst after. rewrite (@check_run total_value positions rm Hset).
  destruct (total_value =? 0) eqn:Ez.
  - pose proof (@drawdown_of_zero_total _ total_value Hpk Ez) as Hdd.
    destruct (0.10 <? Float64.drawdown _ _) eqn:Edd; cbn [out_res].
    + assert (Hfin : Float64.RiskManager.peak rm <> infinity).
      { intros H. apply Hdd in H. discriminate. }
      split; [split; [discriminate|intros [H _]; contradiction]|].
      split; [discriminate|]. intros _. now exists false.
    + assert (Hinf : Float64.RiskManager.peak rm = infinity)
        by now apply Hdd.
      destruct positions as [|p positions]; cbn.
      * split; [split; [discriminate|intros (_ & _ & H); now elim H]|].
        split; [discriminate|]. intros H. contradiction.
      * split; [split; [intros _; repeat split; [exact Hinf|discriminate]
                       |reflexivity]|].
        split; [intros e H; now injection H as <-|].
        intros H. contradiction.
  - destruct (0.10 <? Float64.drawdown _ _); cbn [out_res].
    + split; [split; [discriminate|intros (_ & H & _); discriminate]|].
      split; [discriminate|]. intros _. now exists false.
    + split; [split; [discriminate|intros (_ & H & _); discriminate]|].
      split; [discriminate|]. intros _. eexists; reflexivity.
Qed.

Lemma check_divides_by_zero_only_at_infinite_peak_witness :
  exists allowed : bool,
    out_res (Float64.RiskManager.check 0 [("BTC/USD"%string, 0)]
               Float64.RiskManager.init) = Ok allowed.
Proof.
  apply (@check_divides_by_zero_only_at_infinite_peak
           Float64.RiskManager.init 0 [("BTC/USD"%string, 0)]).
  - apply Float64.reachable_init.
  - vm_compute. discriminate.
Defined.

(** After a total of [+inf] the peak is [+inf]; a total of zero then has a
    drawdown of NaN, passes the drawdown rule, and is divided by. *)
Lemma check_divides_by_zero_after_infinite_total :
  let rm := out_state (Float64.RiskManager.check infinity []
                         Float64.RiskManager.init) in
  Float64.reachable rm /\
  out_res (Float64.RiskManager.check infinity [] Float64.RiskManager.init)
  = Ok true /\
  out_res (Float64.RiskManager.check 0 [("BTC/USD"%string, 0)] rm)
  = Raise ZeroDivisionError.
Proof.
  cbv zeta. split; [apply Float64.reachable_check, Float64.reachable_init|].
  split; vm_compute; reflexivity.
Qed.


(** NaN is the float that is not equal to itself; every comparison with
    it is false, and it goes through every operation. *)
Lemma nan_SF (t : float) : (t =? t) = false -> Prim2SF t = S754_nan.
Proof.
  rewrite FloatAxioms.eqb_spec. unfold SFeqb, SFcompare.
  destruct (Prim2SF t) as [s|s| |s m e]; try reflexivity.
  - discriminate.
  - destruct s; discriminate.
  - rewrite Z.compare_refl.
    change (PosDef.Pos.compare_cont Eq m m) with (Pos.compare m m).
    rewrite Pos.compare_refl. destruct s; discriminate.
Qed.

Lemma nan_total_passes (peak total_value : float) (values : list float) :
  (total_value =? total_value) = false ->
  (0.10 <? Float64.drawdown peak total_value) = false /\
  (total_value =? 0) = false /\
  Float64.within_limit total_value values = true.
Proof.
  intros H. apply nan_SF in H.
  assert (Hlt : forall x y, Prim2SF y = S754_nan -> (x <? y) = false).
  { intros x y Hy. rewrite ltb_spec, Hy. unfold SFltb, SFcompare.
    destruct (Prim2SF x); reflexivity. }
  assert (Hdiv : forall x y, Prim2SF x = S754_nan \/ Prim2SF y = S754_nan ->
                             Prim2SF (x / y) = S754_nan).
  { intros x y Hxy. rewrite div_spec. unfold SF64div, SFdiv.
    destruct Hxy as [-> | ->]; [reflexivity|].
    destruct (Prim2SF x); reflexivity. }
  split; [|split].
  - unfold Float64.drawdown, Float64.pymax. rewrite (Hlt peak _ H).
    apply Hlt. apply Hdiv. left. rewrite sub_spec, H.
    unfold SF64sub, SFsub. destruct (Prim2SF peak); reflexivity.
  - rewrite FloatAxioms.eqb_spec, H. reflexivity.
  - unfold Float64.within_limit. apply forallb_forall. intros v _.
    rewrite (Hlt 0.35 (v / total_value)); [reflexivity|].
    apply Hdiv. now right.
Qed.

(** What a passed check says of a position, in binary64. *)
Lemma check_passed_binary64
    (rm : Float64.RiskManager.t) (total_value : float)
    (positions : Float64.dict) (sym : string) (value : float) :
  Float64.reachable rm ->
  out_res (Float64.RiskManager.check total_value positions rm) = Ok true ->
  In (sym, value) positions ->
  (0.35 <? value / total_value) = false.
Proof.
  intros Hreach Hok Hin.
  pose proof (reachable_settled_binary64 Hreach) as Hset.
  rewrite (@check_run total_value positions rm Hset) in Hok.
  destruct (0.10 <? Float64.drawdown _ _); [discriminate|].
  destruct (total_value =? 0).
  - destruct positions; [contradiction|discriminate].
  - cbn [out_res] in Hok. injection Hok as Hok.
    unfold Float64.within_limit in Hok. rewrite forallb_forall in Hok.
    apply (in_map snd) in Hin. specialize (Hok _ Hin).
    now apply negb_true_iff in Hok.
Qed.

(** A difference that compares below zero does not compare above it. *)
Lemma below_zero_not_above (d : float) :
  (d <? 0) = true -> (0 <? d) = false.
Proof.
  rewrite !ltb_spec. change (Prim2SF 0) with (S754_zero false).
  destruct (Prim2SF d) as [s|s| |s m e]; try discriminate;
    destruct s; try discriminate; reflexivity.
Qed.

(** C1.  In binary64, in a cycle whose risk check passed, for every symbol
    and every target: the share of the position, as computed, does not
    compare above 0.35; the cap leaves [diff] as it is unless
    [current + diff] as computed compares above [total_value * 0.35] as
    computed, and replaces it by [total_value * 0.35 - current] if it does;
    the replacement is at most the [diff] it replaces, so the cap never
    expands an order; a negative [diff] (a sell) is never made positive (a
    buy); when the position is within [total_value * 0.35] as computed, a
    [diff] that is not negative (a buy) is not made negative (a sell); and
    capping a second time changes nothing. *)
Theorem cap_clamps_to_computed_limit
    (rm : Float64.RiskManager.t) (total_value : float)
    (positions : Float64.dict) (sym : string)
    (current_usd target_usd : float) :
  Float64.reachable rm ->
  out_res (Float64.RiskManager.check total_value positions rm) = Ok true ->
  In (sym, current_usd) positions ->
  let diff_usd := target_usd - current_usd in
  let cap := total_value * 0.35 in
  let capped := Float64.cap_diff total_value current_usd diff_usd in
  (0.35 <? current_usd / total_value) = false /\
  ((cap <? current_usd + diff_usd) = false -> capped = diff_usd) /\
  ((cap <? current_usd + diff_usd) = true -> capped = cap - current_usd) /\
  ((cap <? current_usd + diff_usd) = true -> (capped <=? diff_usd) = true) /\
  ((diff_usd <? 0) = true -> (0 <? capped) = false) /\
  ((current_usd <=? cap) = true -> (diff_usd <? 0) = false ->
   (capped <? 0) = false) /\
  Float64.cap_diff total_value current_usd capped = capped.
Proof.
  intros Hreach Hok Hin diff_usd cap capped.
  split; [exact (@check_passed_binary64 rm total_value positions sym
                  current_usd Hreach Hok Hin)|].
  subst capped. unfold Float64.cap_diff. fold cap.
  destruct (cap <? current_usd + diff_usd) eqn:E.
  - split; [discriminate|]. split; [reflexivity|].
    split; [intros _; exact (@clamp_lowers cap current_usd diff_usd E)|].
    split; [intros Hd;
            exact (@clamp_keeps_sell cap current_usd diff_usd Hd E)|].
    split; [intros Hle _; now apply sub_not_negative|].
    destruct (cap <? current_usd + (cap - current_usd)); reflexivity.
  - split; [reflexivity|]. split; [discriminate|].
    split; [discriminate|].
    split; [exact (@below_zero_not_above diff_usd)|].
    split; [intros _ H; exact H|]. now rewrite E.
Qed.

Lemma cap_clamps_to_computed_limit_witness :
  let capped := Float64.cap_diff 1000000 340000 (360000 - 340000) in
  capped = 1000000 * 0.35 - 340000 /\ (capped <? 0) = false.
Proof.
  pose proof (@cap_clamps_to_computed_limit Float64.RiskManager.init 1000000
                [("BTC/USD"%string, 340000)] "BTC/USD"%string 340000 360000
                Float64.reachable_init eq_refl (or_introl eq_refl))
    as (_ & _ & Hclamp & _ & _ & Hsign & _).
  split.
  - apply Hclamp. reflexivity.
  - apply Hsign; reflexivity.
Defined.

(** Two cycles whose risk check passed.  In the first the position is
    within 35% of the total and still a rounding error above
    [total_value * 0.35] as computed: a buy of 10,000 is capped to a
    negative difference.  In the second a large buy is capped, and the
    position it implies, [current + diff], is above [total_value * 0.35],
    as computed and exactly. *)
Lemma cap_overshoots_and_turns_buy_negative :
  (let total_value := 1452547.5217735057 in
   let current_usd := 508391.632620727 in
   let capped := Float64.cap_diff total_value current_usd 10000 in
   out_res (Float64.RiskManager.check total_value
              [("BTC/USD"%string, current_usd)] Float64.RiskManager.init)
   = Ok true /\
   (exists t c : Q,
       Float64.exact total_value = Some t /\
       Float64.exact current_usd = Some c /\ (c <= t * (35 # 100))%Q) /\
   (0 <? 10000) = true /\ (capped <? 0) = true)
  /\
  (let total_value := 2139998.6677527605 in
   let current_usd := 149679.6325302496 in
   let capped := Float64.cap_diff total_value current_usd 1000000 in
   out_res (Float64.RiskManager.check total_value
              [("BTC/USD"%string, current_usd)] Float64.RiskManager.init)
   = Ok true /\
   (total_value * 0.35 <? current_usd + capped) = true /\
   (exists t c d : Q,
       Float64.exact total_value = Some t /\
       Float64.exact current_usd = Some c /\
       Float64.exact capped = Some d /\ (t * (35 # 100) < c + d)%Q)).
Proof.
  cbv zeta. split.
  - split; [vm_compute; reflexivity|]. split.
    + eexists. eexists. split; [vm_compute; reflexivity|].
      split; [vm_compute; reflexivity|]. vm_compute. discriminate.
    + split; vm_compute; reflexivity.
  - split; [vm_compute; reflexivity|]. split; [vm_compute; reflexivity|].
    eexists. eexists. eexists. split; [vm_compute; reflexivity|].
    split; [vm_compute; reflexivity|]. split; vm_compute; reflexivity.
Qed.

(** X20.  In binary64, on a manager the program can hold, [check] returns
    [True] exactly when the drawdown it computes does not compare above
    0.10 and no share it computes compares above 0.35 (a total of zero
    being allowed only without positions), and then logs nothing; when it
    returns [False] it logs exactly one warning, for the first rule that
    fired; when it raises it has logged nothing.  A total of NaN compares
    above nothing, so it is allowed with any positions. *)
Theorem check_allows_exactly_within_limits
    (rm : Float64.RiskManager.t) (total_value : float)
    (positions : Float64.dict) :
  Float64.reachable rm ->
  let after := Float64.RiskManager.check total_value positions rm in
  let over := 0.10 <? Float64.drawdown (Float64.RiskManager.peak rm)
                        total_value in
  let values := Float64.dict_values positions in
  (out_res after = Ok true <->
   over = false /\
   ((total_value =? 0) = true /\ positions = [] \/
    (total_value =? 0) = false /\
    Float64.within_limit total_value values = true)) /\
  (out_res after = Ok true -> out_log after = []) /\
  (out_res after = Ok false ->
   out_log after
   = [RiskWarning (if over then MaxDrawdown else MaxPerAsset)]) /\
  (forall e, out_res after = Raise e -> out_log after = []) /\
  ((total_value =? total_value) = false -> out_res after = Ok true).
Proof.
  intros Hreach after over values.
  pose proof (reachable_settled_binary64 Hreach) as Hset.
  assert (Hnan : (total_value =? total_value) = false ->
                 over = false /\ (total_value =? 0) = false /\
                 Float64.within_limit total_value values = true).
  { intros H. now apply nan_total_passes. }
  subst after over. rewrite (@check_run total_value positions rm Hset).
  fold values.
  destruct (0.10 <? Float64.drawdown _ _); cbn [out_res out_log].
  - split; [split; [discriminate|intros [H _]; discriminate]|].
    split; [discriminate|]. split; [reflexivity|]. split; [discriminate|].
    intros H. apply Hnan in H. destruct H; discriminate.
  - destruct (total_value =? 0) eqn:Ez; cbn [out_res out_log].
    + split.
      { split.
        - intros H. split; [reflexivity|]. left. split; [reflexivity|].
          subst values. destruct positions; [reflexivity|discriminate].
        - intros [_ [[_ ->]|[H _]]]; [reflexivity|discriminate]. }
      split; [reflexivity|].
      split; [subst values; destruct positions; discriminate|].
      split; [reflexivity|].
      intros H. apply Hnan in H. destruct H as (_ & H & _); discriminate.
    + destruct (Float64.within_limit total_value values) eqn:Ew;
        cbn [out_res out_log].
      * split; [split; [intros _; split; [reflexivity|right; now split]
                       |reflexivity]|].
        split; [reflexivity|]. split; [discriminate|].
        split; [reflexivity|]. reflexivity.
      * split; [split; [discriminate
                       |intros [_ [[H _]|[_ H]]]; discriminate]|].
        split; [discriminate|]. split; [reflexivity|].
        split; [discriminate|].
        intros H. apply Hnan in H. destruct H as (_ & _ & H); discriminate.
Qed.


Lemma check_allows_exactly_within_limits_witness :
  out_log (Float64.RiskManager.check 1000000
             [("BTC/USD"%string, 400000); ("ETH/USD"%string, 100000)]
             Float64.RiskManager.init)
  = [RiskWarning MaxPerAsset].
Proof.
  apply (@check_allows_exactly_within_limits Float64.RiskManager.init 1000000
           [("BTC/USD"%string, 400000); ("ETH/USD"%string, 100000)]).
  - apply Float64.reachable_init.
  - vm_compute. reflexivity.
Defined.

(** *** The simulator *)

Lemma dict_get_app_out_binary64 (pre d : Float64.dict) (k : string) :
  ~ In k (Float64.dict_keys pre) ->
  Float64.dict_get (pre ++ d) k = Float64.dict_get d k.
Proof.
  induction pre as [|[k' v'] pre IH]; cbn; [reflexivity|].
  intros Hout. destruct (String.eqb_spec k' k) as [->|Hne].
  - exfalso. apply Hout. now left.
  - apply IH. intros H. apply Hout. now right.
Qed.

Lemma dict_set_app_out_binary64 (pre d : Float64.dict) (k : string)
    (v : float) :
  ~ In k (Float64.dict_keys pre) ->
  Float64.dict_set (pre ++ d) k v = pre ++ Float64.dict_set d k v.
Proof.
  induction pre as [|[k' v'] pre IH]; cbn; [reflexivity|].
  intros Hout. destruct (String.eqb_spec k' k) as [->|Hne].
  - exfalso. apply Hout. now left.
  - f_equal. apply IH. intros H. apply Hout. now right.
Qed.

Lemma moved_prices_keys_binary64 (draws : nat -> float) (n : nat)
    (d : Float64.dict) :
  Float64.dict_keys (Float64.moved_prices draws n d) = Float64.dict_keys d.
Proof.
  revert n. induction d as [|[k p] d IH]; intros n; cbn; [reflexivity|].
  f_equal. apply IH.
Qed.

Lemma moved_prices_nth_binary64 (draws : nat -> float) (d : Float64.dict)
    (n i : nat) (k : string) (p : float) :
  nth_error d i = Some (k, p) ->
  nth_error (Float64.moved_prices draws n d) i
  = Some (k, p * (1 + draws (n + i)%nat)).
Proof.
  revert n i. induction d as [|[k' p'] d IH]; intros n i Hnth.
  - destruct i; discriminate.
  - destruct i as [|i]; cbn in *.
    + injection Hnth as -> ->. now rewrite Nat.add_0_r.
    + rewrite (IH (Datatypes.S n) i Hnth).
      now replace (Datatypes.S n + i)%nat with (n + Datatypes.S i)%nat by lia.
Qed.

Lemma dict_get_nth_binary64 (d : Float64.dict) (i : nat) (k : string)
    (p : float) :
  NoDup (Float64.dict_keys d) -> nth_error d i = Some (k, p) ->
  Float64.dict_get d k = Some p.
Proof.
  revert i. induction d as [|[k' p'] d IH]; intros i Hnd Hnth.
  - destruct i; discriminate.
  - cbn in Hnd. apply NoDup_cons_iff in Hnd. destruct Hnd as [Hout Hnd].
    destruct i as [|i]; cbn in *.
    + injection Hnth as -> ->. now rewrite String.eqb_refl.
    + destruct (String.eqb_spec k' k) as [->|Hne]; [|now apply IH with i].
      exfalso. apply Hout. apply nth_error_In in Hnth.
      now apply (in_map fst) in Hnth.
Qed.

(** The loop of [update] over the keys not yet visited. *)
Lemma update_loop_binary64 (draws : nat -> float)
    (rest pre prev : Float64.dict) (n : nat) :
  NoDup (Float64.dict_keys (pre ++ rest)) ->
  Float64.MockMarket.update_loop draws (Float64.dict_keys rest)
    ({| Float64.MockMarket.prices := pre ++ rest;
        Float64.MockMarket.prev_prices := prev |}, n)
  = Out ({| Float64.MockMarket.prices :=
              pre ++ Float64.moved_prices draws n rest;
            Float64.MockMarket.prev_prices := prev |},
         (n + List.length rest)%nat) [] (Ok tt).
Proof.
  revert pre n. induction rest as [|[k p] rest IH]; intros pre n Hnd.
  - cbn. rewrite Nat.add_0_r. reflexivity.
  - assert (Hout : ~ In k (Float64.dict_keys pre)).
    { unfold Float64.dict_keys in Hnd. rewrite map_app in Hnd. cbn in Hnd.
      apply NoDup_remove_2 in Hnd. intros H. apply Hnd.
      apply in_or_app. now left. }
    cbn [Float64.dict_keys map fst Float64.MockMarket.update_loop].
    unfold bind, zoom, Float64.uniform, get, put, lift.
    cbn [snd fst out_state out_log out_res Float64.MockMarket.prices app].
    unfold Float64.dict_item.
    rewrite (@dict_get_app_out_binary64 pre _ k Hout).
    cbn [Float64.dict_get]. rewrite String.eqb_refl.
    cbn [snd fst out_state out_log out_res Float64.MockMarket.prices app].
    unfold Float64.MockMarket.set_prices.
    cbn [Float64.MockMarket.prices Float64.MockMarket.prev_prices].
    rewrite (@dict_set_app_out_binary64 pre _ k _ Hout).
    cbn [Float64.dict_set]. rewrite String.eqb_refl.
    specialize (IH (pre ++ [(k, p * (1 + draws n))]) (Datatypes.S n)).
    rewrite <- !app_assoc in IH. cbn [app] in IH.
    unfold Random.state in *. fold (Float64.dict_keys rest). rewrite IH.
    + cbn [out_state out_log out_res app Float64.moved_prices List.length].
      replace (n + Datatypes.S (List.length rest))%nat
        with (Datatypes.S (n + List.length rest))%nat by lia.
      reflexivity.
    + unfold Float64.dict_keys in *. rewrite map_app in *. cbn in *.
      exact Hnd.
Qed.

Lemma update_run_binary64 (draws : nat -> float) (m : Float64.MockMarket.t)
    (n : nat) :
  NoDup (Float64.dict_keys (Float64.MockMarket.prices m)) ->
  Float64.MockMarket.update draws (m, n)
  = Out ({| Float64.MockMarket.prices :=
              Float64.moved_prices draws n (Float64.MockMarket.prices m);
            Float64.MockMarket.prev_prices := Float64.MockMarket.prices m |},
         (n + List.length (Float64.MockMarket.prices m))%nat)
        [] (Ok (Float64.moved_prices draws n (Float64.MockMarket.prices m))).
Proof.
  intros Hnd.
  unfold Float64.MockMarket.update, bind, get, put, ret.
  cbn [fst snd out_state out_log out_res app].
  pose proof (@update_loop_binary64 draws (Float64.MockMarket.prices m) []
                (Float64.MockMarket.prices m) n Hnd) as Hloop.
  cbn [app] in Hloop. unfold Random.state in *. rewrite Hloop. reflexivity.
Qed.

(** X23.  In binary64, on a simulator whose keys are distinct, [update]
    never raises and logs nothing, keeps the keys and saves the prices as
    the previous ones; the price of the symbol at position [i] becomes
    [p * (1 + change)] as computed, with [change] the draw of that symbol;
    and [get_return] is then [p * (1 + change) / p - 1] as computed, or
    raises [ZeroDivisionError] when the previous price [p] is zero. *)
Theorem get_return_after_update_binary64 (draws : nat -> float)
    (m : Float64.MockMarket.t) (n i : nat) (sym : string) (p : float) :
  NoDup (Float64.dict_keys (Float64.MockMarket.prices m)) ->
  nth_error (Float64.MockMarket.prices m) i = Some (sym, p) ->
  let run := Float64.MockMarket.update draws (m, n) in
  let m' := fst (out_state run) in
  let change := draws (n + i)%nat in
  out_res run = Ok (Float64.MockMarket.prices m') /\
  out_log run = [] /\
  Float64.dict_keys (Float64.MockMarket.prices m')
  = Float64.dict_keys (Float64.MockMarket.prices m) /\
  Float64.MockMarket.prev_prices m' = Float64.MockMarket.prices m /\
  Float64.MockMarket.get_price sym m' = Ok (p * (1 + change)) /\
  Float64.MockMarket.get_return sym m'
  = (if p =? 0 then Raise ZeroDivisionError
     else Ok (p * (1 + change) / p - 1)).
Proof.
  intros Hnd Hnth run m' change. subst run m'.
  rewrite (@update_run_binary64 draws m n Hnd).
  cbn [out_state out_res out_log fst Float64.MockMarket.prices
       Float64.MockMarket.prev_prices].
  assert (Hnew : Float64.dict_get
                   (Float64.moved_prices draws n (Float64.MockMarket.prices m))
                   sym = Some (p * (1 + change))).
  { apply dict_get_nth_binary64 with i.
    - now rewrite moved_prices_keys_binary64.
    - now apply moved_prices_nth_binary64. }
  pose proof (@dict_get_nth_binary64 _ i sym p Hnd Hnth) as Hold.
  split; [reflexivity|]. split; [reflexivity|].
  split; [apply moved_prices_keys_binary64|]. split; [reflexivity|].
  unfold Float64.MockMarket.get_price, Float64.MockMarket.get_return,
    Float64.dict_item.
  cbn [Float64.MockMarket.prices Float64.MockMarket.prev_prices].
  rewrite Hnew, Hold. split; [reflexivity|].
  unfold Float64.pydiv. destruct (p =? 0); reflexivity.
Qed.

Lemma get_return_after_update_binary64_witness :
  let m' := fst (out_state (Float64.MockMarket.update (fun _ => 0.01)
                              (Float64.MockMarket.init, 0%nat))) in
  Float64.MockMarket.get_price "ETH/USD" m' = Ok (3500 * (1 + 0.01)) /\
  Float64.MockMarket.get_return "ETH/USD" m'
  = Ok (3500 * (1 + 0.01) / 3500 - 1).
Proof.
  assert (Hnd : NoDup (Float64.dict_keys
                         (Float64.MockMarket.prices Float64.MockMarket.init))).
  { cbn. repeat constructor; cbn; intuition discriminate. }
  pose proof (@get_return_after_update_binary64 (fun _ => 0.01)
                Float64.MockMarket.init 0%nat 1%nat "ETH/USD"%string 3500
                Hnd eq_refl)
    as (_ & _ & _ & _ & Hprice & Hret).
  split; [exact Hprice|exact Hret].
Defined.

(** The return that [get_return] computes after an [update] is the draw
    only up to rounding: with a draw of [0.01] the return of every symbol
    differs from [0.01]. *)
Example get_return_is_not_the_draw :
  let m' := fst (out_state (Float64.MockMarket.update (fun _ => 0.01)
                              (Float64.MockMarket.init, 0%nat))) in
  forall sym, In sym (Float64.dict_keys (Float64.MockMarket.prices m')) ->
  exists r, Float64.MockMarket.get_return sym m' = Ok r /\
            (r =? 0.01) = false.
Proof.
  cbv zeta. intros sym Hin. vm_compute in Hin.
  destruct Hin as [<-|[<-|[<-|[]]]]; eexists;
    (split; [vm_compute; reflexivity|vm_compute; reflexivity]).
Qed.

End Binary64Facts.
